(** * SparseMatrix (index.py): a shallow embedding and its properties

    The Python class [SparseMatrix] keeps a dictionary from the string key
    ["<row>,<col>"] to an integer value, together with two mutable dimension
    fields.  Objects and dictionaries live in a store and are handled through
    references, so that mutation and aliasing are those of the source.

    Conventions of the model:
    - a Python [int] is a [Z] (the optional limit on the number of digits of
      [int(str)] and [str(int)] conversions is taken as disabled);
    - a Python [str] is a [string] whose characters are the code points below
      256; the whitespace and digit classes below are Python's, restricted to
      this range;
    - a [dict] is an association list in insertion order without duplicate
      keys; assigning to an existing key keeps its position;
    - a file is the text that reading it in text mode gives, line ends
      already translated to line feeds; a path without text is a path that
      does not exist.  Reading can fail in other ways (the path is a
      directory, it may not be read, its bytes are no text): these are not
      in the model, and what is proved of [from_file] is proved of files
      that hold a text or do not exist;
    - what a write to a path does is the answer of the operating system,
      which is a parameter: the files afterwards and the exception, if any.

    [save_to_file] and the interactive driver [do_some_calculations] come
    after the class, with the input and the output of the program as lists
    of lines and of events. *)

From Stdlib Require Import ZArith Lia Bool Ascii String DecimalString.
From Stdlib Require Import DecimalPos DecimalN DecimalZ.
From stdpp Require Import list strings.

Local Open Scope Z_scope.

(** ** Python strings *)

Module Py.

(** The line feed, Python's ["\n"]. *)
Definition LF : ascii := "010"%char.

(** [str.isspace] for one character: the characters removed by
    [str.strip()] with no argument. *)
Definition isspace (c : ascii) : bool :=
  let n := nat_of_ascii c in
  ((9 <=? n)%nat && (n <=? 13)%nat) || ((28 <=? n)%nat && (n <=? 32)%nat)
  || (n =? 133)%nat || (n =? 160)%nat.

(** The whitespace that [int()] skips around a literal: the file separators
    28..31 count as whitespace for [strip] but not for [int]. *)
Definition int_space (c : ascii) : bool :=
  let n := nat_of_ascii c in
  ((9 <=? n)%nat && (n <=? 13)%nat) || (n =? 32)%nat
  || (n =? 133)%nat || (n =? 160)%nat.

Definition isdigit (c : ascii) : bool :=
  let n := nat_of_ascii c in (48 <=? n)%nat && (n <=? 57)%nat.

Definition digit_value (c : ascii) : Z := Z.of_nat (nat_of_ascii c) - 48.

Fixpoint lstrip (p : ascii -> bool) (s : string) : string :=
  match s with
  | EmptyString => EmptyString
  | String c s' => if p c then lstrip p s' else s
  end.

Fixpoint rstrip (p : ascii -> bool) (s : string) : string :=
  match s with
  | EmptyString => EmptyString
  | String c s' =>
      match rstrip p s' with
      | EmptyString => if p c then EmptyString else String c EmptyString
      | r => String c r
      end
  end.

(** [s.strip()] and [s.strip(chars)]. *)
Definition strip_by (p : ascii -> bool) (s : string) : string :=
  rstrip p (lstrip p s).

Definition strip (s : string) : string := strip_by isspace s.

Fixpoint mem_char (c : ascii) (chars : string) : bool :=
  match chars with
  | EmptyString => false
  | String d chars' => Ascii.eqb c d || mem_char c chars'
  end.

Definition strip_chars (chars s : string) : string :=
  strip_by (fun c => mem_char c chars) s.

(** [s.split(sep)] for a separator of one character. *)
Fixpoint split (sep : ascii) (s : string) : list string :=
  match s with
  | EmptyString => [EmptyString]
  | String c s' =>
      if Ascii.eqb c sep then EmptyString :: split sep s'
      else match split sep s' with
           | f :: fs => String c f :: fs
           | [] => [String c EmptyString]
           end
  end.

(** [file.readlines()]: the lines of a text, each with its line feed; a
    last line without line feed is kept as it is. *)
Fixpoint readlines (s : string) : list string :=
  match s with
  | EmptyString => []
  | String c s' =>
      if Ascii.eqb c LF then String c EmptyString :: readlines s'
      else match readlines s' with
           | l :: ls => String c l :: ls
           | [] => [String c EmptyString]
           end
  end.

(** [str(n)] for an integer. *)
Definition str (n : Z) : string := NilZero.string_of_int (Z.to_int n).

(** The digits of an [int()] literal: groups of digits separated by single
    underscores.  [prev] tells whether the previous character was a digit. *)
Fixpoint digits (acc : Z) (prev : bool) (s : string) : option Z :=
  match s with
  | EmptyString => if prev then Some acc else None
  | String c s' =>
      if isdigit c then digits (10 * acc + digit_value c) true s'
      else if Ascii.eqb c "_" then
             if prev then digits acc false s' else None
           else None
  end.

(** [int(s)] in base 10; [None] stands for the [ValueError] it raises. *)
Definition int (s : string) : option Z :=
  match strip_by int_space s with
  | EmptyString => None
  | String c s' =>
      if Ascii.eqb c "-" then option_map Z.opp (digits 0 false s')
      else if Ascii.eqb c "+" then digits 0 false s'
      else digits 0 false (String c s')
  end.

(** Every character of [s] satisfies [p]. *)
Fixpoint all_chars (p : ascii -> bool) (s : string) : bool :=
  match s with
  | EmptyString => true
  | String c s' => p c && all_chars p s'
  end.

End Py.

(** ** Exceptions *)

(** What an exception carries.  Messages that the source builds are kept as
    text; those of the built-in operations are kept by their content. *)
Inductive message : Type :=
| Msg (text : string)
| InvalidLiteral (s : string)            (* int(s): invalid literal for int() with base 10 *)
| NotEnoughValues (expected got : nat)   (* not enough values to unpack *)
| TooManyValues (expected : nat)         (* too many values to unpack *)
| ListIndexOutOfRange.                   (* list index out of range *)

Inductive exn : Type :=
| ValueError (m : message)
| IndexError (m : message)
| FileNotFoundError (m : message).

(** ** The store *)

Abbreviation ref := nat.

(** A [dict] from [str] to [int], in insertion order. *)
Definition dict := list (string * Z).

(** The fields of a [SparseMatrix] object; [elements] refers to a dict. *)
Record SparseMatrix : Type := mkSparseMatrix {
  elements : ref;
  rows : Z;
  cols : Z
}.

Record heap : Type := mkHeap {
  dicts : list dict;
  objects : list SparseMatrix
}.

Definition empty_heap : heap := mkHeap [] [].

(** ** Computations: store passing with exceptions

    [Stuck] is the use of a reference that the store does not hold; Python
    has no such behaviour and the theorems show it is never reached. *)
Inductive outcome (A : Type) : Type :=
| Done (a : A) (h : heap)
| Raised (e : exn) (h : heap)
| Stuck.
Arguments Done {A} a h.
Arguments Raised {A} e h.
Arguments Stuck {A}.

Definition M (A : Type) : Type := heap -> outcome A.

Definition ret {A} (a : A) : M A := fun h => Done a h.

Definition bind {A B} (c : M A) (k : A -> M B) : M B :=
  fun h => match c h with
           | Done a h' => k a h'
           | Raised e h' => Raised e h'
           | Stuck => Stuck
           end.

Definition raise {A} (e : exn) : M A := fun h => Raised e h.

Declare Scope py_scope.
Delimit Scope py_scope with py.
Notation "x <- c1 ;; c2" := (bind c1 (fun x => c2))
  (at level 20, c1 at level 99, c2 at level 200, only parsing) : py_scope.
Notation "' pat <- c1 ;; c2" := (bind c1 (fun x => match x with pat => c2 end))
  (at level 20, pat pattern, c1 at level 99, c2 at level 200, only parsing) : py_scope.
Notation "c1 ;; c2" := (bind c1 (fun _ => c2))
  (at level 100, c2 at level 200, only parsing, right associativity) : py_scope.
Local Open Scope py_scope.

(** [for x in xs: body(x)] *)
Fixpoint for_each {A} (xs : list A) (body : A -> M unit) : M unit :=
  match xs with
  | [] => ret tt
  | x :: xs' => body x ;; for_each xs' body
  end.

(** A loop that carries a local variable. *)
Fixpoint for_fold {A S} (xs : list A) (body : S -> A -> M S) (s : S) : M S :=
  match xs with
  | [] => ret s
  | x :: xs' => s' <- body s x ;; for_fold xs' body s'
  end.

(** *** Dictionaries *)

Fixpoint assoc_get (d : dict) (key : string) : option Z :=
  match d with
  | [] => None
  | (k, v) :: d' => if String.eqb k key then Some v else assoc_get d' key
  end.

(** [d[key] = value] on the entries: an existing key keeps its place. *)
Fixpoint assoc_set (d : dict) (key : string) (value : Z) : dict :=
  match d with
  | [] => [(key, value)]
  | (k, v) :: d' =>
      if String.eqb k key then (k, value) :: d' else (k, v) :: assoc_set d' key value
  end.

(** The expression [{}]. *)
Definition dict_new : M ref :=
  fun h => Done (length (dicts h)) (mkHeap (dicts h ++ [[]]) (objects h)).

Definition dict_read (d : ref) : M dict :=
  fun h => match dicts h !! d with
           | Some entries => Done entries h
           | None => Stuck
           end.

(** [d.get(key, default)] *)
Definition dict_get (d : ref) (key : string) (default : Z) : M Z :=
  entries <- dict_read d ;;
  ret (match assoc_get entries key with Some v => v | None => default end).

(** [d[key] = value] *)
Definition dict_setitem (d : ref) (key : string) (value : Z) : M unit :=
  fun h => match dicts h !! d with
           | Some entries =>
               Done tt (mkHeap (<[d := assoc_set entries key value]> (dicts h)) (objects h))
           | None => Stuck
           end.

(** [d.items()], as the list that a loop over it visits.  The loops of the
    class never assign to the dictionary they iterate (they assign to the
    dictionary of the result, which is new), so the entries read when the
    loop starts are the entries it visits. *)
Definition dict_items (d : ref) : M (list (string * Z)) := dict_read d.

(** *** Objects *)

Definition object_new (o : SparseMatrix) : M ref :=
  fun h => Done (length (objects h)) (mkHeap (dicts h) (objects h ++ [o])).

(** Reading the fields of [self]. *)
Definition load (self : ref) : M SparseMatrix :=
  fun h => match objects h !! self with
           | Some o => Done o h
           | None => Stuck
           end.

Definition store (self : ref) (f : SparseMatrix -> SparseMatrix) : M unit :=
  fun h => match objects h !! self with
           | Some o => Done tt (mkHeap (dicts h) (<[self := f o]> (objects h)))
           | None => Stuck
           end.

(** [self.rows = v] and [self.cols = v] *)
Definition set_rows (self : ref) (v : Z) : M unit :=
  store self (fun o => mkSparseMatrix (elements o) v (cols o)).
Definition set_cols (self : ref) (v : Z) : M unit :=
  store self (fun o => mkSparseMatrix (elements o) (rows o) v).

(** ** The class SparseMatrix *)

Definition nl : string := String Py.LF EmptyString.

(** The key [f"{row},{col}"]. *)
Definition key_of (row col : Z) : string := Py.str row +:+ "," +:+ Py.str col.

(** [SparseMatrix(num_rows, num_cols)] *)
Definition init (num_rows num_cols : Z) : M ref :=
  d <- dict_new ;;
  object_new (mkSparseMatrix d num_rows num_cols).

Definition get_element (self : ref) (row col : Z) : M Z :=
  let key := key_of row col in
  o <- load self ;;
  dict_get (elements o) key 0.

Definition set_element (self : ref) (row col value : Z) : M unit :=
  o <- load self ;;
  (if row >=? rows o then set_rows self (row + 1) else ret tt) ;;
  o <- load self ;;
  (if col >=? cols o then set_cols self (col + 1) else ret tt) ;;
  let key := key_of row col in
  o <- load self ;;
  dict_setitem (elements o) key value.

(** [a, b = map(int, fields)]: the targets pull the mapped fields one by one,
    and one more to see that none is left, so a field that is no integer is
    reported before a wrong number of fields behind it. *)
Definition unpack2_ints (fields : list string) : exn + Z * Z :=
  match fields with
  | [] => inl (ValueError (NotEnoughValues 2 0))
  | f1 :: fs1 =>
      match Py.int f1 with
      | None => inl (ValueError (InvalidLiteral f1))
      | Some a =>
          match fs1 with
          | [] => inl (ValueError (NotEnoughValues 2 1))
          | f2 :: fs2 =>
              match Py.int f2 with
              | None => inl (ValueError (InvalidLiteral f2))
              | Some b =>
                  match fs2 with
                  | [] => inr (a, b)
                  | f3 :: _ =>
                      match Py.int f3 with
                      | None => inl (ValueError (InvalidLiteral f3))
                      | Some _ => inl (ValueError (TooManyValues 2))
                      end
                  end
              end
          end
      end
  end.

(** [a, b, c = map(int, fields)] *)
Definition unpack3_ints (fields : list string) : exn + Z * Z * Z :=
  match fields with
  | [] => inl (ValueError (NotEnoughValues 3 0))
  | f1 :: fs1 =>
      match Py.int f1 with
      | None => inl (ValueError (InvalidLiteral f1))
      | Some a =>
          match unpack2_ints fs1 with
          | inr (b, c) => inr (a, b, c)
          | inl (ValueError (NotEnoughValues _ got)) =>
              inl (ValueError (NotEnoughValues 3 (S got)))
          | inl (ValueError (TooManyValues _)) => inl (ValueError (TooManyValues 3))
          | inl e => inl e
          end
      end
  end.

(** [row, col = map(int, key.split(","))] *)
Definition key_coordinates (key : string) : M (Z * Z) :=
  match unpack2_ints (Py.split "," key) with
  | inr rc => ret rc
  | inl e => raise e
  end.

Definition add (self other : ref) : M ref :=
  s <- load self ;;
  o <- load other ;;
  if negb (rows s =? rows o) || negb (cols s =? cols o) then
    raise (ValueError (Msg "Matrix dimensions do not match for addition."))
  else
    result_matrix <- init (Z.max (rows s) (rows o)) (Z.max (cols s) (cols o)) ;;
    s <- load self ;;
    items <- dict_items (elements s) ;;
    for_each items (fun '(key, value) =>
      '(row, col) <- key_coordinates key ;;
      set_element result_matrix row col value) ;;
    o <- load other ;;
    items <- dict_items (elements o) ;;
    for_each items (fun '(key, value) =>
      '(row, col) <- key_coordinates key ;;
      current_value <- get_element result_matrix row col ;;
      set_element result_matrix row col (current_value + value)) ;;
    ret result_matrix.

Definition subtract (self other : ref) : M ref :=
  s <- load self ;;
  o <- load other ;;
  if negb (rows s =? rows o) || negb (cols s =? cols o) then
    raise (ValueError (Msg "Matrix dimensions do not match for subtraction."))
  else
    result_matrix <- init (Z.max (rows s) (rows o)) (Z.max (cols s) (cols o)) ;;
    s <- load self ;;
    items <- dict_items (elements s) ;;
    for_each items (fun '(key, value) =>
      '(row, col) <- key_coordinates key ;;
      set_element result_matrix row col value) ;;
    o <- load other ;;
    items <- dict_items (elements o) ;;
    for_each items (fun '(key, value) =>
      '(row, col) <- key_coordinates key ;;
      current_value <- get_element result_matrix row col ;;
      set_element result_matrix row col (current_value - value)) ;;
    ret result_matrix.

Definition multiply (self other : ref) : M ref :=
  s <- load self ;;
  o <- load other ;;
  if negb (cols s =? rows o) then
    raise (ValueError (Msg "Invalid dimensions for multiplication."))
  else
    result_matrix <- init (rows s) (cols o) ;;
    s <- load self ;;
    items1 <- dict_items (elements s) ;;
    for_each items1 (fun '(key1, value1) =>
      '(row1, col1) <- key_coordinates key1 ;;
      o <- load other ;;
      items2 <- dict_items (elements o) ;;
      for_each items2 (fun '(key2, value2) =>
        '(row2, col2) <- key_coordinates key2 ;;
        if col1 =? row2 then
          current_value <- get_element result_matrix row1 col2 ;;
          set_element result_matrix row1 col2 (current_value + value1 * value2)
        else ret tt)) ;;
    ret result_matrix.

(** The line [f"({row}, {col}, {value})\n"] of an entry whose key splits into
    [row] and [col]. *)
Definition entry_line (row col : string) (value : Z) : string :=
  "(" +:+ row +:+ ", " +:+ col +:+ ", " +:+ Py.str value +:+ ")" +:+ nl.

Definition to_string (self : ref) : M string :=
  o <- load self ;;
  let result := "rows=" +:+ Py.str (rows o) +:+ nl +:+ "cols=" +:+ Py.str (cols o) +:+ nl in
  items <- dict_items (elements o) ;;
  result <- for_fold items (fun result '(key, value) =>
    match Py.split "," key with
    | [row; col] => ret (result +:+ entry_line row col value)
    | fields =>
        if (length fields <? 2)%nat
        then raise (ValueError (NotEnoughValues 2 (length fields)))
        else raise (ValueError (TooManyValues 2))
    end) result ;;
  ret (Py.strip result).

(** The header value [int(line.strip().split('=')[1])]. *)
Definition header_int (line : string) : M Z :=
  match Py.split "=" (Py.strip line) with
  | _ :: field :: _ =>
      match Py.int field with
      | Some n => ret n
      | None => raise (ValueError (InvalidLiteral field))
      end
  | _ => raise (IndexError ListIndexOutOfRange)
  end.

(** The body of [from_file] once the text of the file has been read. *)
Definition from_text (matrix_file_path text : string) : M ref :=
  let lines := Py.readlines text in
  if (length lines <? 2)%nat then
    raise (ValueError (Msg ("File " +:+ matrix_file_path
                            +:+ " does not contain enough lines for matrix dimensions.")))
  else
    total_rows <- header_int (nth 0 lines EmptyString) ;;
    total_cols <- header_int (nth 1 lines EmptyString) ;;
    sparse_matrix <- init total_rows total_cols ;;
    for_each (drop 2 lines) (fun line =>
      let line := Py.strip line in
      if String.eqb line "" then ret tt
      else
        match unpack3_ints (Py.split "," (Py.strip_chars "()" line)) with
        | inr (row, col, value) => set_element sparse_matrix row col value
        | inl _ => raise (ValueError (Msg ("Invalid format in line: " +:+ line)))
        end) ;;
    ret sparse_matrix.

(** [from_file]: [fs] gives the text of the files that exist. *)
Definition from_file (fs : string -> option string) (matrix_file_path : string) : M ref :=
  match fs matrix_file_path with
  | Some text => from_text matrix_file_path text
  | None => raise (FileNotFoundError (Msg ("File not found: " +:+ matrix_file_path)))
  end.

(** ** Auxiliary definitions for the statements and proofs *)

(** The characters other than [sep]. *)
Definition is_not (sep : ascii) (c : ascii) : bool := negb (Ascii.eqb c sep).

(** The characters of [str n]. *)
Definition numeric (c : ascii) : bool := Py.isdigit c || Ascii.eqb c "-".

(** The value of a digit sequence read from the left with accumulator. *)
Fixpoint uint_value (acc : Z) (d : Decimal.uint) : Z :=
  match d with
  | Decimal.Nil => acc
  | Decimal.D0 d => uint_value (10 * acc) d
  | Decimal.D1 d => uint_value (10 * acc + 1) d
  | Decimal.D2 d => uint_value (10 * acc + 2) d
  | Decimal.D3 d => uint_value (10 * acc + 3) d
  | Decimal.D4 d => uint_value (10 * acc + 4) d
  | Decimal.D5 d => uint_value (10 * acc + 5) d
  | Decimal.D6 d => uint_value (10 * acc + 6) d
  | Decimal.D7 d => uint_value (10 * acc + 7) d
  | Decimal.D8 d => uint_value (10 * acc + 8) d
  | Decimal.D9 d => uint_value (10 * acc + 9) d
  end.

(** The text [f"({r}, {c}, {v})"] of an entry, without its line feed. *)
Definition triple_text (r c v : Z) : string :=
  "(" +:+ Py.str r +:+ ", " +:+ Py.str c +:+ ", " +:+ Py.str v +:+ ")".

(** A string that [strip()] leaves alone: it is not empty and neither starts
    nor ends with whitespace. *)
Definition trimmed (s : string) : Prop :=
  (exists c s', s = String c s' /\ Py.isspace c = false) /\ Py.rstrip Py.isspace s = s.

(** The value of a matrix object: its entries in storage order and its
    dimensions. *)
Record matrix : Type := mkMatrix {
  m_elements : dict;
  m_rows : Z;
  m_cols : Z
}.

(** The value of the object that [a] refers to, if [a] and its dictionary
    are in the store. *)
Definition view (h : heap) (a : ref) : option matrix :=
  match objects h !! a with
  | Some o =>
      match dicts h !! elements o with
      | Some d => Some (mkMatrix d (rows o) (cols o))
      | None => None
      end
  | None => None
  end.

(** What [get_element] and [set_element] do to the value of [self]. *)
Definition get_value (m : matrix) (row col : Z) : Z :=
  match assoc_get (m_elements m) (key_of row col) with
  | Some v => v
  | None => 0
  end.

Definition set_value (m : matrix) (row col value : Z) : matrix :=
  mkMatrix (assoc_set (m_elements m) (key_of row col) value)
           (if row >=? m_rows m then row + 1 else m_rows m)
           (if col >=? m_cols m then col + 1 else m_cols m).

(** The store in which the object at [a] has the value [m]. *)
Definition put (h : heap) (a : ref) (m : matrix) : heap :=
  match objects h !! a with
  | Some o =>
      mkHeap (<[elements o := m_elements m]> (dicts h))
             (<[a := mkSparseMatrix (elements o) (m_rows m) (m_cols m)]> (objects h))
  | None => h
  end.

(** The store [h] with one more dictionary and one more object of value [m]:
    the store after [SparseMatrix(...)] and some calls on the new object. *)
Definition ext (h : heap) (m : matrix) : heap :=
  mkHeap (dicts h ++ [m_elements m])
         (objects h ++ [mkSparseMatrix (length (dicts h)) (m_rows m) (m_cols m)]).

(** *** Well-formed values

    The keys of a dictionary are distinct, and every key of a matrix is the
    key [f"{r},{c}"] of a coordinate below the dimensions.  The constructor
    establishes this and [set_element] keeps it. *)
Fixpoint distinct (ks : list string) : bool :=
  match ks with
  | [] => true
  | k :: ks' => negb (existsb (String.eqb k) ks') && distinct ks'
  end.

Definition key_ok (R C : Z) (k : string) : bool :=
  match unpack2_ints (Py.split "," k) with
  | inr (r, c) => String.eqb k (key_of r c) && (r <? R) && (c <? C)
  | inl _ => false
  end.

Definition wf (m : matrix) : bool :=
  distinct (map fst (m_elements m))
  && forallb (key_ok (m_rows m) (m_cols m)) (map fst (m_elements m)).

(** The data model of the specification also wants coordinates that are not
    negative. *)
Definition key_nonneg (k : string) : bool :=
  match unpack2_ints (Py.split "," k) with
  | inr (r, c) => (0 <=? r) && (0 <=? c)
  | inl _ => false
  end.

Definition nonneg (m : matrix) : bool := forallb key_nonneg (map fst (m_elements m)).

(** A key has the form [f"{r},{c}"]. *)
Definition canonical (k : string) : Prop := exists r c, k = key_of r c.

(** The coordinate that [map(int, key.split(","))] reads from a key. *)
Definition coords_of (k : string) : Z * Z :=
  match unpack2_ints (Py.split "," k) with
  | inr rc => rc
  | inl _ => (0, 0)
  end.

(** The sum of the values stored under [k] in a list of entries (at most one
    when the keys are distinct). *)
Fixpoint total (d : dict) (k : string) : Z :=
  match d with
  | [] => 0
  | (k', v) :: d' => (if String.eqb k' k then v else 0) + total d' k
  end.

(** Every key of the entries [l] is the key of a coordinate below [(R, C)]. *)
Definition in_range (R C : Z) (l : dict) : Prop :=
  forall k, k ∈ map fst l -> exists r c, k = key_of r c /\ r < R /\ c < C.

(** *** The loops of [add], [subtract] and [multiply] on values *)

Definition copy_step (m : matrix) (e : string * Z) : matrix :=
  let '(r, c) := coords_of (fst e) in set_value m r c (snd e).

Definition merge_step (f : Z -> Z -> Z) (m : matrix) (e : string * Z) : matrix :=
  let '(r, c) := coords_of (fst e) in set_value m r c (f (get_value m r c) (snd e)).

Definition merge_value (f : Z -> Z -> Z) (A B : matrix) : matrix :=
  fold_left (merge_step f) (m_elements B)
    (fold_left copy_step (m_elements A)
       (mkMatrix [] (Z.max (m_rows A) (m_rows B)) (Z.max (m_cols A) (m_cols B)))).

Definition product_step (e1 : string * Z) (m : matrix) (e2 : string * Z) : matrix :=
  let '(r1, c1) := coords_of (fst e1) in
  let '(r2, c2) := coords_of (fst e2) in
  if c1 =? r2 then set_value m r1 c2 (get_value m r1 c2 + snd e1 * snd e2) else m.

Definition product_value (A B : matrix) : matrix :=
  fold_left (fun m e1 => fold_left (product_step e1) (m_elements B) m) (m_elements A)
    (mkMatrix [] (m_rows A) (m_cols B)).

(** The sum of [f k] for [k = 0 .. n-1]. *)
Fixpoint sum_to (n : nat) (f : Z -> Z) : Z :=
  match n with
  | O => 0
  | S n' => sum_to n' f + f (Z.of_nat n')
  end.

(** The sum of [A.get(r,k) * B.get(k,c)] for [k = 0 .. n-1]. *)
Definition dot (A B : matrix) (r c : Z) (n : nat) : Z :=
  sum_to n (fun k => get_value A r k * get_value B k c).

(** The same sum for [k = lo .. lo+n-1]. *)
Definition dot_from (A B : matrix) (r c : Z) (lo : Z) (n : nat) : Z :=
  sum_to n (fun j => get_value A r (lo + j) * get_value B (lo + j) c).

(** Every column index stored in [m] is one of [lo .. lo+n-1]. *)
Definition columns_within (lo : Z) (n : nat) (m : matrix) : bool :=
  forallb (fun e => let '(_, c) := coords_of (fst e) in
                    (lo <=? c) && (c <? lo + Z.of_nat n)) (m_elements m).

(** What the loops of [multiply] add to the result at [(r, c)]: for every
    entry [(r, c1)] of the left operand, its value times the values stored
    at [(c1, c)] in the right operand. *)
Fixpoint weighted (lA lB : dict) (r c : Z) : Z :=
  match lA with
  | [] => 0
  | (k1, v1) :: lA' =>
      (let '(r1, c1) := coords_of k1 in
       if r =? r1 then v1 * total lB (key_of c1 c) else 0)
      + weighted lA' lB r c
  end.

(** *** Texts *)

(** [''.join(l + "\n" for l in ls)] and ["\n".join(ls)] *)
Fixpoint unlines (ls : list string) : string :=
  match ls with
  | [] => ""
  | l :: ls' => l +:+ nl +:+ unlines ls'
  end.

Fixpoint join_lines (ls : list string) : string :=
  match ls with
  | [] => ""
  | [l] => l
  | l :: ls' => l +:+ nl +:+ join_lines ls'
  end.

(** The lines that [readlines] finds in [join_lines ls]: all but the last
    keep their line feed. *)
Fixpoint joined_lines (ls : list string) : list string :=
  match ls with
  | [] => []
  | [l] => [l]
  | l :: ls' => (l +:+ nl) :: joined_lines ls'
  end.

(** The line of a stored entry, without line feed. *)
Definition entry_text (e : string * Z) : string :=
  let '(r, c) := coords_of (fst e) in triple_text r c (snd e).

(** The text of a matrix: two header lines, then one line per entry in
    storage order, separated by line feeds, with no line feed at the end. *)
Definition text_of (m : matrix) : string :=
  join_lines (("rows=" +:+ Py.str (m_rows m)) :: ("cols=" +:+ Py.str (m_cols m))
              :: map entry_text (m_elements m)).

(** A line that holds no line feed and is not empty. *)
Definition plain_line (l : string) : Prop :=
  l <> "" /\ Py.all_chars (is_not Py.LF) l = true.

(** A coordinate with its value, as one line of a file holds it. *)
Definition triple_line (t : Z * Z * Z) : string :=
  let '(r, c, v) := t in triple_text r c v.

(** The file with header [(R, C)] and the entry lines [ts]. *)
Definition matrix_text (R C : Z) (ts : list (Z * Z * Z)) : string :=
  join_lines (("rows=" +:+ Py.str R) :: ("cols=" +:+ Py.str C) :: map triple_line ts).

(** The entries of a value as coordinates with values. *)
Definition triples (m : matrix) : list (Z * Z * Z) :=
  map (fun e => (coords_of (fst e), snd e)) (m_elements m).

(** A sequence of calls [a.set_element(r, c, v)], and what it does to the
    value of [a]. *)
Definition set_all (a : ref) (ts : list (Z * Z * Z)) : M unit :=
  for_each ts (fun '(r, c, v) => set_element a r c v).

Definition set_all_value (ts : list (Z * Z * Z)) (m : matrix) : matrix :=
  fold_left (fun m '(r, c, v) => set_value m r c v) ts m.

(** *** Operations, as the driver selects them

    [do_some_calculations] maps the codes ['a'], ['b'], ['c'] to the methods
    [add], [subtract], [multiply]. *)
Inductive operation : Type := Addition | Subtraction | Multiplication.

Definition method (op : operation) : ref -> ref -> M ref :=
  match op with
  | Addition => add
  | Subtraction => subtract
  | Multiplication => multiply
  end.

(** The dimensions that an operation accepts. *)
Definition compatible (op : operation) (A B : matrix) : bool :=
  match op with
  | Addition | Subtraction => (m_rows A =? m_rows B) && (m_cols A =? m_cols B)
  | Multiplication => m_cols A =? m_rows B
  end.

(** The error that an operation raises on other dimensions. *)
Definition mismatch (op : operation) : exn :=
  match op with
  | Addition => ValueError (Msg "Matrix dimensions do not match for addition.")
  | Subtraction => ValueError (Msg "Matrix dimensions do not match for subtraction.")
  | Multiplication => ValueError (Msg "Invalid dimensions for multiplication.")
  end.

(** Every object and every dictionary of [h] is in [h'] as it was. *)
Definition unchanged (h h' : heap) : Prop :=
  (forall l o, objects h !! l = Some o -> objects h' !! l = Some o) /\
  (forall d entries, dicts h !! d = Some entries -> dicts h' !! d = Some entries).

(** The object at [r] in [h'] and its dictionary were allocated after [h]. *)
Definition fresh_matrix (h h' : heap) (r : ref) : Prop :=
  objects h !! r = None /\
  exists o, objects h' !! r = Some o /\ dicts h !! elements o = None.

(** No call in [ts] sets the coordinate [(r, c)]. *)
Definition never_set (ts : list (Z * Z * Z)) (r c : Z) : bool :=
  forallb (fun '(r', c', _) => negb ((r' =? r) && (c' =? c))) ts.

(** *** Insertion order, from the words of the specification

    One entry per coordinate that was set, in the order in which the
    coordinates were first set, each with the value that was set last. *)
Definition coord_eqb (p q : Z * Z) : bool := (fst p =? fst q) && (snd p =? snd q).

Fixpoint first_occurrences (cs : list (Z * Z)) : list (Z * Z) :=
  match cs with
  | [] => []
  | p :: cs' => p :: List.filter (fun q => negb (coord_eqb p q)) (first_occurrences cs')
  end.

Definition last_value (ts : list (Z * Z * Z)) (p : Z * Z) : Z :=
  fold_left (fun acc t => if coord_eqb (fst t) p then snd t else acc) ts 0.

Definition insertion_entries (ts : list (Z * Z * Z)) : list (Z * Z * Z) :=
  map (fun p => (p, last_value ts p)) (first_occurrences (map fst ts)).

(** A dimension after the calls: it grows to [i + 1] whenever an index [i]
    is not below it. *)
Definition grown (d : Z) (indices : list Z) : Z :=
  fold_left (fun d i => if i >=? d then i + 1 else d) indices d.

Definition final_rows (R : Z) (ts : list (Z * Z * Z)) : Z :=
  grown R (map (fun t => fst (fst t)) ts).
Definition final_cols (C : Z) (ts : list (Z * Z * Z)) : Z :=
  grown C (map (fun t => snd (fst t)) ts).

(** The text between the first and the second ['='] of a header line. *)
Definition header_field (line : string) : option string :=
  match Py.split "=" (Py.strip line) with
  | _ :: field :: _ => Some field
  | _ => None
  end.

(** *** Stores and files used as instances *)

(** Two 2x2 matrices: [(0,0,1)] in the first, [(1,1,2)] in the second. *)
Definition demo_heap : heap :=
  mkHeap [[("0,0", 1)]; [("1,1", 2)]] [mkSparseMatrix 0 2 2; mkSparseMatrix 1 2 2].
Definition demo_A : matrix := mkMatrix [("0,0", 1)] 2 2.
Definition demo_B : matrix := mkMatrix [("1,1", 2)] 2 2.

Definition demo_fs (text : string) : string -> option string :=
  fun path => if String.eqb path "m.txt" then Some text else None.

(** The dictionary entry of a coordinate with its value. *)
Definition coord_key (p : Z * Z) : string := key_of (fst p) (snd p).
Definition keyed (t : Z * Z * Z) : string * Z := (coord_key (fst t), snd t).

(** Files with a malformed or unusual header. *)
Definition text_no_equals_1 : string := "rows" +:+ nl +:+ "cols=3".
Definition text_no_equals_2 : string := "rows=3" +:+ nl +:+ "cols".
Definition text_no_integer_1 : string := "rows=x" +:+ nl +:+ "cols=3".
Definition text_no_integer_2 : string := "rows=3" +:+ nl +:+ "cols=x".
Definition text_other_names : string := "cols=2" +:+ nl +:+ "x=3=rows".

(** A file with an entry at a negative row. *)
Definition text_negative_row : string :=
  "rows=2" +:+ nl +:+ "cols=2" +:+ nl +:+ "(-1, 0, 5)".

(** ** Further definitions: storage of results, tolerant input, files *)

(** The entries of [l] whose key is not a key of [d]. *)
Definition fresh_entries (d l : dict) : dict :=
  List.filter (fun e => negb (existsb (String.eqb (fst e)) (map fst d))) l.

(** The entries after [d] has received the entries [l] through
    [current = get(key); set(key, f current value)]: the entries of [d] in
    their places, combined with the value of [l] under the same key, then
    the entries of [l] with a new key, combined with 0. *)
Definition merged_entries (f : Z -> Z -> Z) (d l : dict) : dict :=
  map (fun e => (fst e, match assoc_get l (fst e) with
                        | Some w => f (snd e) w
                        | None => snd e
                        end)) d
  ++ map (fun e => (fst e, f 0 (snd e))) (fresh_entries d l).

(** The value of the matrix that an operation returns. *)
Definition result_value (op : operation) (A B : matrix) : matrix :=
  match op with
  | Addition => merge_value Z.add A B
  | Subtraction => merge_value Z.sub A B
  | Multiplication => product_value A B
  end.

(** *** The lines that [from_file] accepts *)

(** Whitespace only, as [strip()] sees it, and blanks that [int()] skips. *)
Definition blank (s : string) : Prop := Py.all_chars Py.isspace s = true.
Definition padding (s : string) : Prop := Py.all_chars Py.int_space s = true.

(** Three integers separated by commas, each between blanks. *)
Definition fields_text (p1 : string) (r : Z) (q1 p2 : string) (c : Z)
    (q2 p3 : string) (v : Z) (q3 : string) : string :=
  p1 +:+ Py.str r +:+ q1 +:+ "," +:+ p2 +:+ Py.str c +:+ q2 +:+ ","
     +:+ p3 +:+ Py.str v +:+ q3.

(** [body_line item line]: [line] is a blank line ([item = None]) or holds
    the entry [item = Some (r, c, v)], between parentheses or without them,
    with whitespace around it (its line feed included). *)
Inductive body_line : option (Z * Z * Z) -> string -> Prop :=
| blank_line (ws : string) :
    blank ws -> body_line None ws
| entry_in_parentheses (r c v : Z) (ws1 p1 q1 p2 q2 p3 q3 ws2 : string) :
    blank ws1 -> blank ws2 ->
    padding p1 -> padding q1 -> padding p2 -> padding q2 -> padding p3 -> padding q3 ->
    body_line (Some (r, c, v))
      (ws1 +:+ "(" +:+ fields_text p1 r q1 p2 c q2 p3 v q3 +:+ ")" +:+ ws2)
| entry_without_parentheses (r c v : Z) (ws1 q1 p2 q2 p3 ws2 : string) :
    blank ws1 -> blank ws2 ->
    padding q1 -> padding p2 -> padding q2 -> padding p3 ->
    body_line (Some (r, c, v))
      (ws1 +:+ fields_text "" r q1 p2 c q2 p3 v "" +:+ ws2).

(** The entries among the items of a body. *)
Fixpoint kept (items : list (option (Z * Z * Z))) : list (Z * Z * Z) :=
  match items with
  | [] => []
  | Some t :: items' => t :: kept items'
  | None :: items' => kept items'
  end.

(** The fields that [from_file] takes from a body line, and whether they
    are exactly three integer literals. *)
Definition line_fields (line : string) : list string :=
  Py.split "," (Py.strip_chars "()" (Py.strip line)).

Definition three_ints (fields : list string) : bool :=
  (length fields =? 3)%nat
  && forallb (fun f => match Py.int f with Some _ => true | None => false end) fields.

(** The characters of a field: blanks of [int()] and the text of integers. *)
Definition field_char (c : ascii) : bool := Py.int_space c || numeric c.

(** One turn of the loop of [from_file] over the lines behind the header. *)
Definition read_line (sparse_matrix : ref) (line : string) : M unit :=
  let line := Py.strip line in
  if String.eqb line "" then ret tt
  else
    match unpack3_ints (Py.split "," (Py.strip_chars "()" line)) with
    | inr (row, col, value) => set_element sparse_matrix row col value
    | inl _ => raise (ValueError (Msg ("Invalid format in line: " +:+ line)))
    end.

(** A text with blank lines, blanks inside the lines, one entry without
    parentheses and one coordinate twice; and texts with a line that is no
    entry. *)
Definition text_tolerant : string :=
  "rows = 2" +:+ nl +:+ " cols=2 " +:+ nl +:+ nl +:+ "  ( 0 , 1 , 5 )" +:+ nl
  +:+ "1,1,-3" +:+ nl +:+ "(0,1,7)" +:+ nl.
Definition text_two_fields : string :=
  "rows=2" +:+ nl +:+ "cols=2" +:+ nl +:+ "(0, 0, 1)" +:+ nl +:+ "(0, 1)" +:+ nl
  +:+ "(1, 1, 4)".

(** *** Files: [save_to_file]

    What happens when a path is opened for writing and a text is written is
    for the operating system to say: the path may be empty, its directory
    may be missing, it may name a directory or a device, or another path of
    the same file.  Its answer is taken as given. *)
Definition files : Type := string -> option string.

(** An exception that the operating system raises on [open] or [write]; the
    code does not construct it.  It is kept by its class and its text. *)
Record OSError : Type := mkOSError {
  os_class : string;
  os_text : string
}.

(** The answer to [open(file_path, "w")], [file.write(content)] and the
    closing of the file: the files afterwards and the exception, if one was
    raised.  The files may have changed under an exception too: opening
    empties the file. *)
Definition writing : Type := files -> string -> string -> files * option OSError.

(** *** The program: [do_some_calculations]

    The program reads lines from its input, writes to its output, and reads
    and writes files.  An exception of the program is one of the matrix
    code, the end of the input under [input()], or one of the operating
    system. *)
Inductive error : Type :=
| Exn (e : exn)
| EOFError
| System (e : OSError).

(** What the program writes: the prompt of an [input(prompt)], the text of
    a [print(text)], and [print("Error:", error)]. *)
Inductive event : Type :=
| Asked (prompt : string)
| Printed (text : string)
| PrintedError (e : error).

Record console : Type := mkConsole {
  stdin : list string;
  stdout : list event;
  disk : files;
  memory : heap;
  system : writing
}.

Inductive result (A : Type) : Type :=
| Returned (a : A) (w : console)
| Failed (e : error) (w : console)
| Broken.
Arguments Returned {A} a w.
Arguments Failed {A} e w.
Arguments Broken {A}.

Definition IO (A : Type) : Type := console -> result A.

Definition io_ret {A} (a : A) : IO A := fun w => Returned a w.

Definition io_bind {A B} (c : IO A) (k : A -> IO B) : IO B :=
  fun w => match c w with
           | Returned a w' => k a w'
           | Failed e w' => Failed e w'
           | Broken => Broken
           end.

Definition io_raise {A} (e : exn) : IO A := fun w => Failed (Exn e) w.

Declare Scope io_scope.
Delimit Scope io_scope with io.
Notation "x <- c1 ;; c2" := (io_bind c1 (fun x => c2))
  (at level 20, c1 at level 99, c2 at level 200, only parsing) : io_scope.
Notation "c1 ;; c2" := (io_bind c1 (fun _ => c2))
  (at level 100, c2 at level 200, only parsing, right associativity) : io_scope.

Definition emit (e : event) (w : console) : console :=
  mkConsole (stdin w) (stdout w ++ [e]) (disk w) (memory w) (system w).

(** [input(prompt)]: the prompt is written, then a line is read. *)
Definition input (prompt : string) : IO string :=
  fun w =>
    match stdin w with
    | line :: rest =>
        Returned line
          (mkConsole rest (stdout w ++ [Asked prompt]) (disk w) (memory w) (system w))
    | [] => Failed EOFError (emit (Asked prompt) w)
    end.

Definition print (text : string) : IO unit :=
  fun w => Returned tt (emit (Printed text) w).

(** A call into the matrix code, on the objects of the program. *)
Definition call {A} (c : M A) : IO A :=
  fun w =>
    match c (memory w) with
    | Done a h => Returned a (mkConsole (stdin w) (stdout w) (disk w) h (system w))
    | Raised e h => Failed (Exn e) (mkConsole (stdin w) (stdout w) (disk w) h (system w))
    | Stuck => Broken
    end.

Definition load_file (matrix_file_path : string) : IO ref :=
  fun w => call (from_file (disk w) matrix_file_path) w.

(** [with open(file_path, "w") as file: file.write(content)] *)
Definition write_file (file_path content : string) : IO unit :=
  fun w =>
    let (fs, failure) := system w (disk w) file_path content in
    let w' := mkConsole (stdin w) (stdout w) fs (memory w) (system w) in
    match failure with
    | None => Returned tt w'
    | Some e => Failed (System e) w'
    end.

(** [save_to_file]: the text is made before the file is opened. *)
Definition save_to_file (self : ref) (file_path : string) : IO unit :=
  (content <- call (to_string self) ;;
   write_file file_path content)%io.

(** [matrix_operations.get(operation_choice)]: the name and the method. *)
Definition matrix_operations (operation_choice : string) : option (string * operation) :=
  if String.eqb operation_choice "a" then Some ("addition", Addition)
  else if String.eqb operation_choice "b" then Some ("subtraction", Subtraction)
  else if String.eqb operation_choice "c" then Some ("multiplication", Multiplication)
  else None.

(** The body of the [try] of [do_some_calculations]. *)
Definition calculations : IO unit :=
  (matrix_file_path1 <- input "Enter the file path for the first matrix: " ;;
   matrix1 <- load_file matrix_file_path1 ;;
   print ("First matrix loaded........" +:+ nl) ;;
   matrix_file_path2 <- input "Enter the file path for the second matrix: " ;;
   matrix2 <- load_file matrix_file_path2 ;;
   print ("Second matrix loaded........" +:+ nl) ;;
   operation_choice <-
     input "Choose an operation (a - addition, b - subtraction, c - multiplication): " ;;
   match matrix_operations operation_choice with
   | None => io_raise (ValueError (Msg "Invalid operation choice."))
   | Some (name, op) =>
       result_matrix <- call (method op matrix1 matrix2) ;;
       print ("Result of " +:+ name +:+ "........" +:+ nl) ;;
       output_file_path <- input "Enter the file path to save the result: " ;;
       save_to_file result_matrix output_file_path ;;
       print ("Result saved to " +:+ output_file_path)
   end)%io.

(** [do_some_calculations]: every exception of the body is caught and
    printed.  [None] when the matrix code met a reference to no object. *)
Definition do_some_calculations (w : console) : option console :=
  match calculations w with
  | Returned _ w' => Some w'
  | Failed e w' => Some (emit (PrintedError e) w')
  | Broken => None
  end.

(** The output up to the question for the operation, up to the question for
    the output path, and of a run that goes through. *)
Definition loading : list event :=
  [ Asked "Enter the file path for the first matrix: ";
    Printed ("First matrix loaded........" +:+ nl);
    Asked "Enter the file path for the second matrix: ";
    Printed ("Second matrix loaded........" +:+ nl);
    Asked "Choose an operation (a - addition, b - subtraction, c - multiplication): " ].

Definition computing (name : string) : list event :=
  loading
  ++ [ Printed ("Result of " +:+ name +:+ "........" +:+ nl);
       Asked "Enter the file path to save the result: " ].

Definition transcript (name output_file_path : string) : list event :=
  computing name ++ [ Printed ("Result saved to " +:+ output_file_path) ].

(** The exceptions of [from_file] on a file that was read: they depend on
    the text alone. *)
Definition text_error (matrix_file_path : string) (e : exn) : bool :=
  match e with
  | ValueError (Msg text) =>
      String.eqb text ("File " +:+ matrix_file_path
                       +:+ " does not contain enough lines for matrix dimensions.")
      || String.prefix "Invalid format in line: " text
  | ValueError (InvalidLiteral _) => true
  | IndexError ListIndexOutOfRange => true
  | _ => false
  end.

(** An operating system for the examples: it refuses the empty path and a
    path into the directory ["nodir"], and keeps any other text under its
    path. *)
Definition demo_system : writing :=
  fun fs file_path content =>
    if String.eqb file_path "" || String.prefix "nodir/" file_path
    then (fs, Some (mkOSError "FileNotFoundError" "No such file or directory"))
    else (fun path => if String.eqb path file_path then Some content else fs path, None).

(** Two files for the program. *)
Definition demo_disk : files :=
  fun path =>
    if String.eqb path "a.txt" then Some (matrix_text 2 2 [(0, 0, 1); (1, 0, 4)])
    else if String.eqb path "b.txt" then Some (matrix_text 2 2 [(0, 0, 2); (1, 1, 3)])
    else if String.eqb path "c.txt" then Some (matrix_text 3 2 [(0, 0, 2)])
    else None.

(** The matrices of the files ["a.txt"], ["b.txt"] and ["c.txt"]. *)
Definition loaded_a : matrix := set_all_value [(0, 0, 1); (1, 0, 4)] (mkMatrix [] 2 2).
Definition loaded_b : matrix := set_all_value [(0, 0, 2); (1, 1, 3)] (mkMatrix [] 2 2).
Definition loaded_c : matrix := set_all_value [(0, 0, 2)] (mkMatrix [] 3 2).

(** * Properties *)

(** ** The string functions on examples *)

Example int_examples :
  map Py.int [" 12 "; "-007"; "+1_0"; "-0"; ""; "-"; "1__0"; "_1"; "1_"; "- 1"; "1 2"; "0x1"]
  = [Some 12; Some (-7); Some 10; Some 0; None; None; None; None; None; None; None; None].
Proof. reflexivity. Qed.

Example str_examples : map Py.str [0; 7; -5; 1234] = ["0"; "7"; "-5"; "1234"].
Proof. reflexivity. Qed.

Example split_examples :
  (Py.split "=" "a=b=c", Py.split "=" "", Py.split "=" "=", Py.strip_chars "()" "))(1,2,3((")
  = (["a"; "b"; "c"], [""], [""; ""], "1,2,3").
Proof. reflexivity. Qed.


(** ** Strings: append, split, strip, readlines *)

#[local] Arguments String.append !_ _ / : simpl nomatch.

Section StringFacts.

Lemma append_nil_r (s : string) : s +:+ "" = s.
Proof. induction s as [|c s IH]; simpl; [reflexivity | now rewrite IH]. Qed.

Lemma append_assoc (s1 s2 s3 : string) : (s1 +:+ s2) +:+ s3 = s1 +:+ (s2 +:+ s3).
Proof. induction s1 as [|c s1 IH]; simpl; [reflexivity | now rewrite IH]. Qed.

Lemma append_empty (s t : string) : s +:+ t = "" -> s = "" /\ t = "".
Proof. destruct s; simpl; [auto | discriminate]. Qed.

Lemma all_chars_app p (s t : string) :
  Py.all_chars p (s +:+ t) = Py.all_chars p s && Py.all_chars p t.
Proof.
  induction s as [|c s IH]; simpl; [reflexivity|].
  now rewrite IH, andb_assoc.
Qed.

Lemma all_chars_impl (p q : ascii -> bool) (s : string) :
  (forall c, p c = true -> q c = true) ->
  Py.all_chars p s = true -> Py.all_chars q s = true.
Proof.
  intros Hpq. induction s as [|c s IH]; simpl; [reflexivity|].
  intros [Hc Hs]%andb_true_iff. rewrite (Hpq _ Hc). now apply IH.
Qed.

(** *** split *)

Lemma split_no_sep sep (s : string) :
  Py.all_chars (is_not sep) s = true -> Py.split sep s = [s].
Proof.
  induction s as [|c s IH]; simpl; [reflexivity|].
  unfold is_not at 1. intros [Hc Hs]%andb_true_iff.
  apply negb_true_iff in Hc. rewrite Hc. now rewrite (IH Hs).
Qed.

Lemma split_app sep (s1 s2 : string) :
  Py.all_chars (is_not sep) s1 = true ->
  Py.split sep (s1 +:+ String sep s2) = s1 :: Py.split sep s2.
Proof.
  induction s1 as [|c s1 IH]; simpl.
  - intros _. now rewrite Ascii.eqb_refl.
  - unfold is_not at 1. intros [Hc Hs]%andb_true_iff.
    apply negb_true_iff in Hc. rewrite Hc. now rewrite (IH Hs).
Qed.

Lemma split_with_sep sep (s : string) :
  Py.all_chars (is_not sep) s = false ->
  exists f1 f2 fs, Py.split sep s = f1 :: f2 :: fs.
Proof.
  induction s as [|c s IH]; simpl; [discriminate|].
  unfold is_not at 1. destruct (Ascii.eqb c sep); simpl.
  - intros _. destruct s as [|c' s]; simpl; [now eexists _, _, _|].
    destruct (Ascii.eqb c' sep); [now eexists _, _, _|].
    destruct (Py.split sep s); now eexists _, _, _.
  - intros H. destruct (IH H) as (f1 & f2 & fs & ->). now eexists _, _, _.
Qed.

(** *** strip *)

Lemma lstrip_keep p c (s : string) :
  p c = false -> Py.lstrip p (String c s) = String c s.
Proof. intros H. simpl. now rewrite H. Qed.

Lemma rstrip_app p (s t : string) :
  Py.rstrip p t <> "" -> Py.rstrip p (s +:+ t) = s +:+ Py.rstrip p t.
Proof.
  intros Ht. induction s as [|c s IH]; simpl; [reflexivity|].
  rewrite IH. destruct (s +:+ Py.rstrip p t) eqn:E; [|reflexivity].
  apply append_empty in E. tauto.
Qed.

Lemma rstrip_app_drop p (s t : string) :
  Py.rstrip p t = "" -> Py.rstrip p (s +:+ t) = Py.rstrip p s.
Proof.
  intros Ht. induction s as [|c s IH]; simpl; [assumption | now rewrite IH].
Qed.

Lemma rstrip_id p (s : string) :
  Py.all_chars (fun c => negb (p c)) s = true -> Py.rstrip p s = s.
Proof.
  induction s as [|c s IH]; simpl; [reflexivity|].
  intros [Hc Hs]%andb_true_iff. apply negb_true_iff in Hc.
  rewrite (IH Hs), Hc. now destruct s.
Qed.

Lemma rstrip_idempotent p (s : string) : Py.rstrip p (Py.rstrip p s) = Py.rstrip p s.
Proof.
  induction s as [|c s IH]; simpl; [reflexivity|].
  destruct (Py.rstrip p s) as [|c' r] eqn:E.
  - destruct (p c) eqn:Hc; simpl; [reflexivity | now rewrite Hc].
  - change (Py.rstrip p (String c (String c' r))) with
      (match Py.rstrip p (String c' r) with
       | "" => if p c then "" else String c ""
       | r' => String c r'
       end).
    now rewrite IH.
Qed.

(** *** readlines *)

Lemma readlines_line (l rest : string) :
  Py.all_chars (is_not Py.LF) l = true ->
  Py.readlines (l +:+ String Py.LF rest) = (l +:+ nl) :: Py.readlines rest.
Proof.
  induction l as [|c l IH]; simpl; [reflexivity|].
  unfold is_not at 1. intros [Hc Hs]%andb_true_iff.
  apply negb_true_iff in Hc. rewrite Hc. now rewrite (IH Hs).
Qed.

Lemma readlines_last (l : string) :
  l <> "" -> Py.all_chars (is_not Py.LF) l = true -> Py.readlines l = [l].
Proof.
  induction l as [|c l IH]; simpl; [congruence|].
  intros _. unfold is_not at 1. intros [Hc Hs]%andb_true_iff.
  apply negb_true_iff in Hc. rewrite Hc.
  destruct l as [|c' l]; [reflexivity|].
  rewrite IH; [reflexivity | discriminate | assumption].
Qed.

End StringFacts.

(** ** Integers and their decimal text *)

Section Decimal.

Lemma uint_value_acc (d : Decimal.uint) (p : positive) :
  uint_value (Z.pos p) d = Z.pos (Pos.of_uint_acc d p).
Proof.
  revert p. induction d; intros p; simpl; try reflexivity;
    rewrite <- IHd; f_equal; lia.
Qed.

Lemma uint_value_0 (d : Decimal.uint) : uint_value 0 d = Z.of_N (Pos.of_uint d).
Proof.
  induction d; simpl; try reflexivity; try assumption;
    apply uint_value_acc.
Qed.

Lemma digits_uint (d : Decimal.uint) (acc : Z) (prev : bool) :
  d <> Decimal.Nil \/ prev = true ->
  Py.digits acc prev (NilEmpty.string_of_uint d) = Some (uint_value acc d).
Proof.
  revert acc prev.
  induction d; intros acc prev H; simpl;
    try (rewrite IHd by (now right); f_equal; f_equal;
         vm_compute (Py.digit_value _); lia).
  destruct H as [H | ->]; [congruence | reflexivity].
Qed.

Lemma uint_chars (d : Decimal.uint) :
  Py.all_chars Py.isdigit (NilEmpty.string_of_uint d) = true.
Proof. induction d; simpl; auto. Qed.

Lemma uint_nonempty (d : Decimal.uint) :
  d <> Decimal.Nil -> exists c s, NilEmpty.string_of_uint d = String c s.
Proof. destruct d; simpl; [congruence | now eexists _, _ ..]. Qed.

(** [str n] is an optional minus sign followed by the digits of [|n|]. *)
Lemma str_shape (n : Z) :
  exists d, d <> Decimal.Nil /\ uint_value 0 d = Z.abs n /\
    Py.str n = (if n <? 0 then "-" else "") +:+ NilEmpty.string_of_uint d.
Proof.
  destruct n as [|p|p].
  - exists (Decimal.D0 Decimal.Nil). repeat split. discriminate.
  - exists (Pos.to_uint p). split; [apply DecimalPos.Unsigned.to_uint_nonnil|]. split.
    + rewrite uint_value_0, DecimalPos.Unsigned.of_to. reflexivity.
    + unfold Py.str. simpl. unfold NilZero.string_of_uint.
      pose proof (DecimalPos.Unsigned.to_uint_nonnil p). now destruct (Pos.to_uint p).
  - exists (Pos.to_uint p). split; [apply DecimalPos.Unsigned.to_uint_nonnil|]. split.
    + rewrite uint_value_0, DecimalPos.Unsigned.of_to. reflexivity.
    + unfold Py.str. simpl. unfold NilZero.string_of_uint.
      pose proof (DecimalPos.Unsigned.to_uint_nonnil p). now destruct (Pos.to_uint p).
Qed.

Lemma str_numeric (n : Z) : Py.all_chars numeric (Py.str n) = true.
Proof.
  destruct (str_shape n) as (d & _ & _ & ->).
  rewrite all_chars_app. apply andb_true_iff. split.
  - now destruct (n <? 0).
  - apply all_chars_impl with (p := Py.isdigit); [|apply uint_chars].
    intros c Hc. unfold numeric. now rewrite Hc.
Qed.

Lemma str_cons (n : Z) : exists c s, Py.str n = String c s /\ numeric c = true.
Proof.
  pose proof (str_numeric n) as H.
  destruct (str_shape n) as (d & Hd & _ & E).
  destruct (uint_nonempty d Hd) as (c & s & Ed). rewrite Ed in E.
  destruct (Py.str n) as [|c' s'] eqn:En.
  - destruct (n <? 0); discriminate.
  - simpl in H. apply andb_true_iff in H as [H _]. now exists c', s'.
Qed.

Lemma str_nonempty (n : Z) : Py.str n <> "".
Proof. destruct (str_cons n) as (c & s & -> & _). discriminate. Qed.

End Decimal.

(** ** Reading back what [str] prints *)

Section ReadBack.

Ltac by_chars c :=
  destruct c as [[] [] [] [] [] [] [] []]; vm_compute; intros; repeat split; congruence.

Lemma numeric_plain (c : ascii) :
  numeric c = true ->
  Py.isspace c = false /\ Py.int_space c = false /\ Py.mem_char c "()" = false /\
  is_not "," c = true /\ is_not Py.LF c = true /\ is_not "=" c = true.
Proof. by_chars c. Qed.

Lemma isdigit_no_sign (c : ascii) :
  Py.isdigit c = true -> Ascii.eqb c "-" = false /\ Ascii.eqb c "+" = false.
Proof. by_chars c. Qed.

Lemma str_all (p : ascii -> bool) (n : Z) :
  (forall c, numeric c = true -> p c = true) -> Py.all_chars p (Py.str n) = true.
Proof. intros H. eapply all_chars_impl; [exact H | apply str_numeric]. Qed.

Lemma str_no_comma n : Py.all_chars (is_not ",") (Py.str n) = true.
Proof. apply str_all. intros c Hc. now apply numeric_plain. Qed.

Lemma str_no_newline n : Py.all_chars (is_not Py.LF) (Py.str n) = true.
Proof. apply str_all. intros c Hc. now apply numeric_plain. Qed.

Lemma str_no_equals n : Py.all_chars (is_not "=") (Py.str n) = true.
Proof. apply str_all. intros c Hc. now apply numeric_plain. Qed.

Lemma rstrip_str (p : ascii -> bool) (n : Z) :
  (forall c, numeric c = true -> p c = false) -> Py.rstrip p (Py.str n) = Py.str n.
Proof.
  intros H. apply rstrip_id, str_all. intros c Hc. now rewrite (H c Hc).
Qed.

Lemma lstrip_str (p : ascii -> bool) (n : Z) (t : string) :
  (forall c, numeric c = true -> p c = false) ->
  Py.lstrip p (Py.str n +:+ t) = Py.str n +:+ t.
Proof.
  intros H. destruct (str_cons n) as (c & s & -> & Hc).
  simpl. now rewrite (H c Hc).
Qed.

(** What ends with the text of an integer is not stripped on the right. *)
Lemma rstrip_ends_str (p : ascii -> bool) (s : string) (n : Z) :
  (forall c, numeric c = true -> p c = false) ->
  Py.rstrip p (s +:+ Py.str n) = s +:+ Py.str n.
Proof.
  intros H. rewrite rstrip_app; rewrite (rstrip_str p n H);
    [reflexivity | apply str_nonempty].
Qed.

Lemma strip_by_str (p : ascii -> bool) (n : Z) :
  (forall c, numeric c = true -> p c = false) -> Py.strip_by p (Py.str n) = Py.str n.
Proof.
  intros H. unfold Py.strip_by.
  rewrite <- (append_nil_r (Py.str n)) at 1.
  rewrite (lstrip_str p n "" H), append_nil_r. now apply rstrip_str.
Qed.

(** [int(str(n)) == n] *)
Lemma int_str (n : Z) : Py.int (Py.str n) = Some n.
Proof.
  unfold Py.int.
  rewrite strip_by_str by (intros c Hc; now apply numeric_plain).
  destruct (str_shape n) as (d & Hd & Hv & ->).
  destruct (Z.ltb_spec n 0) as [Hn | Hn].
  - simpl. rewrite digits_uint by (now left). simpl. f_equal. lia.
  - change ("" +:+ NilEmpty.string_of_uint d) with (NilEmpty.string_of_uint d).
    destruct (uint_nonempty d Hd) as (c & s & E).
    pose proof (uint_chars d) as Hc. rewrite E in Hc |- *.
    simpl in Hc. apply andb_true_iff in Hc as [Hc _].
    destruct (isdigit_no_sign c Hc) as [-> ->].
    rewrite <- E, digits_uint by (now left). f_equal. lia.
Qed.

Lemma int_skip_space (c : ascii) (s : string) :
  Py.int_space c = true -> Py.int (String c s) = Py.int s.
Proof. intros H. unfold Py.int, Py.strip_by. simpl. now rewrite H. Qed.

Lemma int_space_str (n : Z) : Py.int (" " +:+ Py.str n) = Some n.
Proof. simpl. rewrite int_skip_space by reflexivity. apply int_str. Qed.

(** *** Keys *)

Lemma split_key (r c : Z) : Py.split "," (key_of r c) = [Py.str r; Py.str c].
Proof.
  unfold key_of. change ("," +:+ Py.str c) with (String "," (Py.str c)).
  rewrite split_app by apply str_no_comma.
  now rewrite split_no_sep by apply str_no_comma.
Qed.

Lemma unpack_key (r c : Z) : unpack2_ints (Py.split "," (key_of r c)) = inr (r, c).
Proof. rewrite split_key. simpl. now rewrite !int_str. Qed.

Lemma key_of_inj (r c r' c' : Z) : key_of r c = key_of r' c' -> r = r' /\ c = c'.
Proof.
  intros H. pose proof (unpack_key r c) as E. rewrite H, unpack_key in E.
  now inversion E.
Qed.

Lemma key_coordinates_key (r c : Z) (h : heap) :
  key_coordinates (key_of r c) h = Done (r, c) h.
Proof. unfold key_coordinates. now rewrite unpack_key. Qed.

(** *** Lines *)

Lemma trimmed_strip (s : string) : trimmed s -> Py.strip s = s.
Proof.
  intros [(c & s' & -> & Hc) Hr]. unfold Py.strip, Py.strip_by.
  now rewrite lstrip_keep.
Qed.

Lemma trimmed_strip_nl (s : string) : trimmed s -> Py.strip (s +:+ nl) = s.
Proof.
  intros [(c & s' & -> & Hc) Hr]. unfold Py.strip, Py.strip_by.
  simpl Py.lstrip. rewrite Hc.
  change (String c (s' +:+ nl)) with (String c s' +:+ nl).
  rewrite rstrip_app_drop by reflexivity. exact Hr.
Qed.

Lemma trimmed_nonempty (s : string) : trimmed s -> s <> "".
Proof. intros [(c & s' & -> & _) _]. discriminate. Qed.

Lemma trimmed_ends_str (c : ascii) (s : string) (n : Z) :
  Py.isspace c = false -> trimmed (String c s +:+ Py.str n).
Proof.
  intros Hc. split; [now eexists _, _|].
  apply rstrip_ends_str. intros c' H. now apply numeric_plain.
Qed.

Lemma triple_text_trimmed (r c v : Z) : trimmed (triple_text r c v).
Proof.
  split; [now eexists _, _|]. unfold triple_text.
  rewrite <- !append_assoc. now rewrite rstrip_app.
Qed.

Lemma strip_parens_triple (r c v : Z) :
  Py.strip_chars "()" (triple_text r c v)
  = Py.str r +:+ ", " +:+ Py.str c +:+ ", " +:+ Py.str v.
Proof.
  assert (Hp : forall x, numeric x = true -> Py.mem_char x "()" = false)
    by (intros x Hx; now apply numeric_plain).
  unfold Py.strip_chars, Py.strip_by, triple_text.
  change (Py.lstrip _ ("(" +:+ ?t)) with (Py.lstrip (fun x => Py.mem_char x "()") t).
  rewrite (lstrip_str _ r _ Hp).
  rewrite <- !append_assoc. rewrite rstrip_app_drop by reflexivity.
  now rewrite rstrip_ends_str.
Qed.

Lemma unpack_triple (r c v : Z) :
  unpack3_ints (Py.split "," (Py.strip_chars "()" (triple_text r c v))) = inr (r, c, v).
Proof.
  rewrite strip_parens_triple.
  change (", " +:+ ?t) with (String "," (" " +:+ t)).
  rewrite split_app by apply str_no_comma.
  change (", " +:+ ?t) with (String "," (" " +:+ t)).
  rewrite <- (append_assoc " "), split_app.
  2:{ rewrite all_chars_app, str_no_comma. reflexivity. }
  rewrite split_no_sep.
  2:{ rewrite all_chars_app, str_no_comma. reflexivity. }
  unfold unpack3_ints, unpack2_ints.
  now rewrite int_str, !int_space_str.
Qed.

End ReadBack.

(** ** The store: reading and writing objects *)

Section Store.

Implicit Types (h : heap) (a b : ref) (m : matrix).

Lemma view_Some h a m :
  view h a = Some m <->
  exists o, objects h !! a = Some o /\ dicts h !! elements o = Some (m_elements m)
            /\ rows o = m_rows m /\ cols o = m_cols m.
Proof.
  unfold view. split.
  - destruct (objects h !! a) as [o|]; [|discriminate].
    destruct (dicts h !! elements o) as [d|] eqn:Hd; [|discriminate].
    intros [= <-]. exists o. repeat split. exact Hd.
  - intros (o & -> & -> & Hr & Hc). destruct m; simpl in *. now subst.
Qed.

Lemma load_run h a o : objects h !! a = Some o -> load a h = Done o h.
Proof. intros H. unfold load. now rewrite H. Qed.

Lemma dict_read_run h d entries :
  dicts h !! d = Some entries -> dict_read d h = Done entries h.
Proof. intros H. unfold dict_read. now rewrite H. Qed.

Lemma get_element_run h a m row col :
  view h a = Some m -> get_element a row col h = Done (get_value m row col) h.
Proof.
  intros (o & Ho & Hd & _ & _)%view_Some.
  unfold get_element, bind, dict_get, bind, dict_read, load, ret, get_value.
  now rewrite Ho, Hd.
Qed.

Lemma view_put h a m0 m : view h a = Some m0 -> view (put h a m) a = Some m.
Proof.
  intros (o & Ho & Hd & _ & _)%view_Some.
  unfold put. rewrite Ho. unfold view. simpl.
  rewrite list_lookup_insert_eq by (eapply lookup_lt_Some; eauto). simpl.
  rewrite list_lookup_insert_eq by (eapply lookup_lt_Some; eauto).
  now destruct m.
Qed.

Lemma put_put h a m0 m1 m2 :
  view h a = Some m0 -> put (put h a m1) a m2 = put h a m2.
Proof.
  intros (o & Ho & Hd & _ & _)%view_Some.
  unfold put at 2. rewrite Ho. unfold put. simpl.
  rewrite list_lookup_insert_eq by (eapply lookup_lt_Some; eauto). simpl.
  now rewrite !list_insert_insert_eq, Ho.
Qed.

Lemma set_element_run h a m row col value :
  view h a = Some m ->
  set_element a row col value h = Done tt (put h a (set_value m row col value)).
Proof.
  intros (o & Ho & Hd & Hr & Hc)%view_Some.
  assert (Ha : (a < length (objects h))%nat) by (eapply lookup_lt_Some; eauto).
  unfold put, set_value. rewrite Ho. simpl.
  unfold set_element, bind, load. rewrite Ho, Hr.
  set (o1 := mkSparseMatrix (elements o)
               (if row >=? m_rows m then row + 1 else m_rows m) (cols o)).
  assert (E1 : (if row >=? m_rows m then set_rows a (row + 1) else ret tt) h
               = Done tt (mkHeap (dicts h) (<[a := o1]> (objects h)))).
  { unfold o1. destruct (row >=? m_rows m).
    - unfold set_rows, store. now rewrite Ho.
    - unfold ret. rewrite list_insert_id; [now destruct h|].
      rewrite Ho. f_equal. destruct o; simpl in *. now subst. }
  rewrite E1. simpl. rewrite list_lookup_insert_eq by assumption. simpl. rewrite Hc.
  set (o2 := mkSparseMatrix (elements o)
               (if row >=? m_rows m then row + 1 else m_rows m)
               (if col >=? m_cols m then col + 1 else m_cols m)).
  assert (E2 : (if col >=? m_cols m then set_cols a (col + 1) else ret tt)
                 (mkHeap (dicts h) (<[a := o1]> (objects h)))
               = Done tt (mkHeap (dicts h) (<[a := o2]> (objects h)))).
  { unfold o2. destruct (col >=? m_cols m).
    - unfold set_cols, store. simpl. rewrite list_lookup_insert_eq by assumption.
      simpl. now rewrite list_insert_insert_eq.
    - unfold ret. f_equal. f_equal. unfold o1. now rewrite <- Hc. }
  rewrite E2. simpl. rewrite list_lookup_insert_eq by assumption. simpl.
  unfold dict_setitem. simpl. now rewrite Hd.
Qed.

(** *** A new object *)

Lemma init_run h R C :
  init R C h = Done (length (objects h)) (ext h (mkMatrix [] R C)).
Proof. reflexivity. Qed.

Lemma view_ext_new h m : view (ext h m) (length (objects h)) = Some m.
Proof.
  unfold view, ext. simpl. rewrite list_lookup_middle by reflexivity. simpl.
  rewrite list_lookup_middle by reflexivity. now destruct m.
Qed.

Lemma view_ext_old h m b mb : view h b = Some mb -> view (ext h m) b = Some mb.
Proof.
  intros (o & Ho & Hd & Hr & Hc)%view_Some. apply view_Some. exists o.
  unfold ext. simpl. now rewrite (lookup_app_l_Some _ _ _ _ Ho), (lookup_app_l_Some _ _ _ _ Hd).
Qed.

Lemma put_ext h m m' : put (ext h m) (length (objects h)) m' = ext h m'.
Proof.
  unfold put, ext. simpl. rewrite list_lookup_middle by reflexivity. simpl.
  f_equal.
  - replace (length (dicts h)) with (length (dicts h) + 0)%nat at 1 by lia.
    now rewrite insert_app_r.
  - replace (length (objects h)) with (length (objects h) + 0)%nat at 1 by lia.
    now rewrite insert_app_r.
Qed.

Lemma set_element_new h m row col value :
  set_element (length (objects h)) row col value (ext h m)
  = Done tt (ext h (set_value m row col value)).
Proof.
  rewrite (set_element_run _ _ m) by apply view_ext_new. now rewrite put_ext.
Qed.

Lemma get_element_new h m row col :
  get_element (length (objects h)) row col (ext h m)
  = Done (get_value m row col) (ext h m).
Proof. apply get_element_run, view_ext_new. Qed.

(** Reading the entries of an object: [o = load a] then [o.elements.items()]. *)
Lemma items_run {A} h a m (k : list (string * Z) -> M A) (res : outcome A) :
  view h a = Some m ->
  k (m_elements m) h = res ->
  bind (load a) (fun o => bind (dict_items (elements o)) k) h = res.
Proof.
  intros (o & Ho & Hd & _ & _)%view_Some <-.
  unfold bind, load, dict_items, dict_read. now rewrite Ho, Hd.
Qed.

(** The objects of [h] are those of [ext h m], unchanged. *)
Lemma ext_frame h m :
  (forall b o, objects h !! b = Some o -> objects (ext h m) !! b = Some o) /\
  (forall d entries, dicts h !! d = Some entries -> dicts (ext h m) !! d = Some entries).
Proof. split; intros; unfold ext; simpl; now apply lookup_app_l_Some. Qed.

End Store.

(** ** Dictionaries as association lists *)

Section Dict.

Implicit Types (d : dict) (k : string) (v : Z).

Lemma elem_of_map {A B} (f : A -> B) (l : list A) (y : B) :
  y ∈ map f l <-> exists x, y = f x /\ x ∈ l.
Proof. apply (list_elem_of_fmap f). Qed.

Lemma assoc_get_set d k v k' :
  assoc_get (assoc_set d k v) k' = if String.eqb k k' then Some v else assoc_get d k'.
Proof.
  induction d as [|[k0 v0] d IH]; simpl.
  - reflexivity.
  - destruct (String.eqb_spec k0 k) as [->|Hne]; simpl.
    + destruct (String.eqb k k'); reflexivity.
    + rewrite IH. destruct (String.eqb_spec k0 k') as [->|Hne'];
        [|reflexivity].
      destruct (String.eqb_spec k k'); [congruence | reflexivity].
Qed.

Lemma assoc_get_None d k : assoc_get d k = None <-> k ∉ map fst d.
Proof.
  induction d as [|[k0 v0] d IH]; simpl.
  - split; [intros _; apply not_elem_of_nil | reflexivity].
  - rewrite not_elem_of_cons.
    destruct (String.eqb_spec k0 k) as [->|Hne]; split.
    + discriminate.
    + intros [H _]. congruence.
    + intros H. split; [congruence | now apply IH].
    + intros [_ H]. now apply IH.
Qed.

Lemma assoc_get_Some_elem d k v : assoc_get d k = Some v -> (k, v) ∈ d.
Proof.
  induction d as [|[k0 v0] d IH]; simpl; [discriminate|].
  destruct (String.eqb_spec k0 k) as [->|Hne].
  - intros [= ->]. apply list_elem_of_here.
  - intros H. apply list_elem_of_further, IH, H.
Qed.

Lemma assoc_set_absent d k v : k ∉ map fst d -> assoc_set d k v = d ++ [(k, v)].
Proof.
  induction d as [|[k0 v0] d IH]; simpl; [reflexivity|].
  rewrite not_elem_of_cons. intros [Hne H].
  destruct (String.eqb_spec k0 k); [congruence|]. now rewrite IH.
Qed.

Lemma assoc_set_keys_present d k v :
  k ∈ map fst d -> map fst (assoc_set d k v) = map fst d.
Proof.
  induction d as [|[k0 v0] d IH]; simpl.
  - intros H. now apply elem_of_nil in H.
  - intros H. destruct (String.eqb_spec k0 k) as [->|Hne]; [reflexivity|].
    simpl. f_equal. apply IH. apply elem_of_cons in H as [H|H]; congruence.
Qed.

Lemma assoc_set_keys d k v :
  map fst (assoc_set d k v) = map fst d \/
  ((k ∉ map fst d) /\ map fst (assoc_set d k v) = map fst d ++ [k]).
Proof.
  destruct (decide (k ∈ map fst d)) as [H|H].
  - left. now apply assoc_set_keys_present.
  - right. split; [assumption|]. rewrite assoc_set_absent by assumption.
    now rewrite map_app.
Qed.

Lemma distinct_NoDup (ks : list string) : distinct ks = true <-> NoDup ks.
Proof.
  induction ks as [|k ks IH]; simpl.
  - split; [intros _; constructor | reflexivity].
  - rewrite andb_true_iff, negb_true_iff, NoDup_cons, IH.
    assert (E : existsb (String.eqb k) ks = false <-> k ∉ ks); [|tauto].
    rewrite <- not_true_iff_false, existsb_exists. split.
    + intros H Hin. apply H. exists k. split; [now apply list_elem_of_In|].
      apply String.eqb_refl.
    + intros H (x & Hin & Hx). apply String.eqb_eq in Hx as <-.
      now apply H, list_elem_of_In.
Qed.

Lemma assoc_set_NoDup d k v : NoDup (map fst d) -> NoDup (map fst (assoc_set d k v)).
Proof.
  intros H. destruct (assoc_set_keys d k v) as [-> | [Hk ->]]; [assumption|].
  apply NoDup_app. repeat split; [assumption| |apply NoDup_singleton].
  intros x Hx ->%list_elem_of_singleton. contradiction.
Qed.

(** With distinct keys the value under a key is the sum over the entries. *)
Lemma total_absent d k : k ∉ map fst d -> total d k = 0.
Proof.
  induction d as [|[k0 v0] d IH]; simpl; [reflexivity|].
  rewrite not_elem_of_cons. intros [Hne H].
  destruct (String.eqb_spec k0 k); [congruence|]. now rewrite IH.
Qed.

Lemma total_get d k :
  NoDup (map fst d) ->
  total d k = match assoc_get d k with Some v => v | None => 0 end.
Proof.
  induction d as [|[k0 v0] d IH]; simpl; [reflexivity|].
  intros [Hk Hd]%NoDup_cons.
  destruct (String.eqb_spec k0 k) as [->|Hne].
  - rewrite total_absent by assumption. lia.
  - now rewrite IH.
Qed.

End Dict.

(** ** Well-formed values *)

Section WellFormed.

Implicit Types (m : matrix) (k : string).

Lemma coords_of_key r c : coords_of (key_of r c) = (r, c).
Proof. unfold coords_of. now rewrite unpack_key. Qed.

Lemma key_ok_spec R C k :
  key_ok R C k = true <-> exists r c, k = key_of r c /\ r < R /\ c < C.
Proof.
  unfold key_ok. split.
  - destruct (unpack2_ints (Py.split "," k)) as [e|[r c]]; [discriminate|].
    intros [[Hk Hr%Z.ltb_lt]%andb_true_iff Hc%Z.ltb_lt]%andb_true_iff.
    apply String.eqb_eq in Hk. now exists r, c.
  - intros (r & c & -> & Hr & Hc). rewrite unpack_key, String.eqb_refl. simpl.
    apply andb_true_iff. split; now apply Z.ltb_lt.
Qed.

Lemma wf_spec m :
  wf m = true <->
  NoDup (map fst (m_elements m)) /\
  forall k, k ∈ map fst (m_elements m) ->
            exists r c, k = key_of r c /\ r < m_rows m /\ c < m_cols m.
Proof.
  unfold wf. rewrite andb_true_iff, distinct_NoDup, forallb_forall.
  split; intros [Hd Hk]; split; try assumption.
  - intros k Hin. apply key_ok_spec, Hk. now apply list_elem_of_In.
  - intros k Hin. apply key_ok_spec, Hk. now apply list_elem_of_In.
Qed.

Lemma wf_canonical m : wf m = true -> Forall (fun e => canonical (fst e)) (m_elements m).
Proof.
  intros [_ H]%wf_spec. apply Forall_forall. intros [k v] Hin. simpl.
  destruct (H k) as (r & c & -> & _); [|now exists r, c].
  apply elem_of_map. now exists (k, v).
Qed.

Lemma wf_empty R C : wf (mkMatrix [] R C) = true.
Proof. reflexivity. Qed.

Lemma set_value_rows m r c v : m_rows m <= m_rows (set_value m r c v) /\ r + 1 <= m_rows (set_value m r c v).
Proof. simpl. destruct (Z.geb_spec r (m_rows m)); lia. Qed.

Lemma set_value_cols m r c v : m_cols m <= m_cols (set_value m r c v) /\ c + 1 <= m_cols (set_value m r c v).
Proof. simpl. destruct (Z.geb_spec c (m_cols m)); lia. Qed.

Lemma set_value_in_range m r c v :
  r < m_rows m -> c < m_cols m ->
  set_value m r c v = mkMatrix (assoc_set (m_elements m) (key_of r c) v) (m_rows m) (m_cols m).
Proof.
  intros Hr Hc. unfold set_value.
  destruct (Z.geb_spec r (m_rows m)); [lia|].
  destruct (Z.geb_spec c (m_cols m)); [lia|]. reflexivity.
Qed.

(** [set_element] keeps the invariant. *)
Lemma wf_set_value m r c v : wf m = true -> wf (set_value m r c v) = true.
Proof.
  intros [Hd Hk]%wf_spec. apply wf_spec.
  pose proof (set_value_rows m r c v) as [Hr1 Hr2].
  pose proof (set_value_cols m r c v) as [Hc1 Hc2].
  split.
  - now apply assoc_set_NoDup.
  - intros k Hin. change (m_elements (set_value m r c v))
      with (assoc_set (m_elements m) (key_of r c) v) in Hin.
    assert (Hcase : k ∈ map fst (m_elements m) \/ k = key_of r c).
    { destruct (assoc_set_keys (m_elements m) (key_of r c) v) as [E | [_ E]];
        rewrite E in Hin; [now left|].
      apply elem_of_app in Hin as [H | H%list_elem_of_singleton]; auto. }
    destruct Hcase as [H | ->].
    + destruct (Hk k H) as (r0 & c0 & -> & ? & ?). exists r0, c0.
      repeat split; lia.
    + exists r, c. repeat split; lia.
Qed.

Lemma get_value_set m r c v r' c' :
  get_value (set_value m r c v) r' c'
  = if (r =? r') && (c =? c') then v else get_value m r' c'.
Proof.
  unfold get_value. simpl. rewrite assoc_get_set.
  destruct (String.eqb_spec (key_of r c) (key_of r' c')) as [E|Hne].
  - apply key_of_inj in E as [-> ->]. now rewrite !Z.eqb_refl.
  - destruct (Z.eqb_spec r r') as [->|]; [|reflexivity].
    destruct (Z.eqb_spec c c') as [->|]; [congruence | reflexivity].
Qed.

End WellFormed.

(** ** add, subtract, multiply: from the store to values *)

Section ArithmeticRuns.

Implicit Types (h : heap) (a b : ref) (m A B : matrix).

Lemma bind_Done {X Y} (c : M X) (k : X -> M Y) h x h' (res : outcome Y) :
  c h = Done x h' -> k x h' = res -> bind c k h = res.
Proof. intros H <-. unfold bind. now rewrite H. Qed.

Lemma copy_loop h m (items : list (string * Z)) :
  Forall (fun e => canonical (fst e)) items ->
  for_each items (fun '(key, value) =>
    '(row, col) <- key_coordinates key ;;
    set_element (length (objects h)) row col value) (ext h m)
  = Done tt (ext h (fold_left copy_step items m)).
Proof.
  intros H. revert m. induction H as [|[k v] items (r & c & Hk) _ IH]; intros m.
  - reflexivity.
  - simpl in Hk. subst k. simpl.
    eapply bind_Done; [|apply IH].
    eapply bind_Done; [apply key_coordinates_key|].
    unfold copy_step. simpl. rewrite coords_of_key. apply set_element_new.
Qed.

Lemma merge_loop (f : Z -> Z -> Z) h m (items : list (string * Z)) :
  Forall (fun e => canonical (fst e)) items ->
  for_each items (fun '(key, value) =>
    '(row, col) <- key_coordinates key ;;
    current_value <- get_element (length (objects h)) row col ;;
    set_element (length (objects h)) row col (f current_value value)) (ext h m)
  = Done tt (ext h (fold_left (merge_step f) items m)).
Proof.
  intros H. revert m. induction H as [|[k v] items (r & c & Hk) _ IH]; intros m.
  - reflexivity.
  - simpl in Hk. subst k. simpl.
    eapply bind_Done; [|apply IH].
    eapply bind_Done; [apply key_coordinates_key|].
    eapply bind_Done; [apply get_element_new|].
    unfold merge_step. simpl. rewrite coords_of_key. apply set_element_new.
Qed.

Lemma product_inner_loop h m r1 c1 v1 (items : list (string * Z)) :
  Forall (fun e => canonical (fst e)) items ->
  for_each items (fun '(key2, value2) =>
    '(row2, col2) <- key_coordinates key2 ;;
    if c1 =? row2 then
      current_value <- get_element (length (objects h)) r1 col2 ;;
      set_element (length (objects h)) r1 col2 (current_value + v1 * value2)
    else ret tt) (ext h m)
  = Done tt (ext h (fold_left (product_step (key_of r1 c1, v1)) items m)).
Proof.
  intros H. revert m. induction H as [|[k v] items (r & c & Hk) _ IH]; intros m.
  - reflexivity.
  - simpl in Hk. subst k. simpl.
    eapply bind_Done; [|apply IH].
    eapply bind_Done; [apply key_coordinates_key|].
    unfold product_step. simpl. rewrite !coords_of_key.
    destruct (c1 =? r); [|reflexivity].
    eapply bind_Done; [apply get_element_new|].
    apply set_element_new.
Qed.

Lemma product_outer_loop h b B m (items : list (string * Z)) :
  view h b = Some B ->
  Forall (fun e => canonical (fst e)) (m_elements B) ->
  Forall (fun e => canonical (fst e)) items ->
  for_each items (fun '(key1, value1) =>
    '(row1, col1) <- key_coordinates key1 ;;
    o <- load b ;;
    items2 <- dict_items (elements o) ;;
    for_each items2 (fun '(key2, value2) =>
      '(row2, col2) <- key_coordinates key2 ;;
      if col1 =? row2 then
        current_value <- get_element (length (objects h)) row1 col2 ;;
        set_element (length (objects h)) row1 col2 (current_value + value1 * value2)
      else ret tt)) (ext h m)
  = Done tt (ext h (fold_left (fun m e1 => fold_left (product_step e1) (m_elements B) m)
                              items m)).
Proof.
  intros Hb HB H. revert m. induction H as [|[k v] items (r & c & Hk) _ IH]; intros m.
  - reflexivity.
  - simpl in Hk. subst k. simpl.
    eapply bind_Done; [|apply IH].
    eapply bind_Done; [apply key_coordinates_key|].
    eapply (items_run _ b B); [now apply view_ext_old|].
    now apply product_inner_loop.
Qed.

Lemma merge_run (f : Z -> Z -> Z) (msg : string) h a b A B :
  view h a = Some A -> view h b = Some B ->
  Forall (fun e => canonical (fst e)) (m_elements A) ->
  Forall (fun e => canonical (fst e)) (m_elements B) ->
  (s <- load a ;;
   o <- load b ;;
   if negb (rows s =? rows o) || negb (cols s =? cols o) then
     raise (ValueError (Msg msg))
   else
     result_matrix <- init (Z.max (rows s) (rows o)) (Z.max (cols s) (cols o)) ;;
     s <- load a ;;
     items <- dict_items (elements s) ;;
     for_each items (fun '(key, value) =>
       '(row, col) <- key_coordinates key ;;
       set_element result_matrix row col value) ;;
     o <- load b ;;
     items <- dict_items (elements o) ;;
     for_each items (fun '(key, value) =>
       '(row, col) <- key_coordinates key ;;
       current_value <- get_element result_matrix row col ;;
       set_element result_matrix row col (f current_value value)) ;;
     ret result_matrix) h
  = if negb (m_rows A =? m_rows B) || negb (m_cols A =? m_cols B)
    then Raised (ValueError (Msg msg)) h
    else Done (length (objects h)) (ext h (merge_value f A B)).
Proof.
  intros Ha Hb HA HB.
  pose proof Ha as (oa & Hoa & _ & Hra & Hca)%view_Some.
  pose proof Hb as (ob & Hob & _ & Hrb & Hcb)%view_Some.
  eapply bind_Done; [apply load_run, Hoa|].
  eapply bind_Done; [apply load_run, Hob|].
  rewrite Hra, Hrb, Hca, Hcb.
  destruct (negb (m_rows A =? m_rows B) || negb (m_cols A =? m_cols B));
    [reflexivity|].
  eapply bind_Done; [apply init_run|].
  eapply (items_run _ a A); [now apply view_ext_old|].
  eapply bind_Done; [now apply copy_loop|].
  eapply (items_run _ b B); [now apply view_ext_old|].
  eapply bind_Done; [now apply merge_loop|].
  reflexivity.
Qed.

Lemma add_run h a b A B :
  view h a = Some A -> view h b = Some B ->
  Forall (fun e => canonical (fst e)) (m_elements A) ->
  Forall (fun e => canonical (fst e)) (m_elements B) ->
  add a b h
  = if negb (m_rows A =? m_rows B) || negb (m_cols A =? m_cols B)
    then Raised (ValueError (Msg "Matrix dimensions do not match for addition.")) h
    else Done (length (objects h)) (ext h (merge_value Z.add A B)).
Proof. apply (merge_run Z.add). Qed.

Lemma subtract_run h a b A B :
  view h a = Some A -> view h b = Some B ->
  Forall (fun e => canonical (fst e)) (m_elements A) ->
  Forall (fun e => canonical (fst e)) (m_elements B) ->
  subtract a b h
  = if negb (m_rows A =? m_rows B) || negb (m_cols A =? m_cols B)
    then Raised (ValueError (Msg "Matrix dimensions do not match for subtraction.")) h
    else Done (length (objects h)) (ext h (merge_value Z.sub A B)).
Proof. apply (merge_run Z.sub). Qed.

Lemma multiply_run h a b A B :
  view h a = Some A -> view h b = Some B ->
  Forall (fun e => canonical (fst e)) (m_elements A) ->
  Forall (fun e => canonical (fst e)) (m_elements B) ->
  multiply a b h
  = if negb (m_cols A =? m_rows B)
    then Raised (ValueError (Msg "Invalid dimensions for multiplication.")) h
    else Done (length (objects h)) (ext h (product_value A B)).
Proof.
  intros Ha Hb HA HB.
  pose proof Ha as (oa & Hoa & _ & Hra & Hca)%view_Some.
  pose proof Hb as (ob & Hob & _ & Hrb & Hcb)%view_Some.
  unfold multiply.
  eapply bind_Done; [apply load_run, Hoa|].
  eapply bind_Done; [apply load_run, Hob|].
  rewrite Hra, Hrb, Hca, Hcb.
  destruct (negb (m_cols A =? m_rows B)); [reflexivity|].
  eapply bind_Done; [apply init_run|].
  eapply (items_run _ a A); [now apply view_ext_old|].
  eapply bind_Done; [eapply product_outer_loop; eauto|].
  reflexivity.
Qed.

End ArithmeticRuns.

(** ** The values that the loops compute *)

Section Values.

Implicit Types (m A B : matrix) (d l : dict).

Lemma in_range_cons R C k v l :
  in_range R C ((k, v) :: l) ->
  (exists r c, k = key_of r c /\ r < R /\ c < C) /\ in_range R C l.
Proof.
  intros H. split.
  - apply H. simpl. apply list_elem_of_here.
  - intros k' Hk'. apply H. simpl. now apply list_elem_of_further.
Qed.

Lemma wf_in_range m : wf m = true -> in_range (m_rows m) (m_cols m) (m_elements m).
Proof. now intros [_ H]%wf_spec. Qed.

Lemma wf_NoDup m : wf m = true -> NoDup (map fst (m_elements m)).
Proof. now intros [H _]%wf_spec. Qed.

(** The first loop of [add] copies the entries in their order. *)
Lemma copy_fold l d R C :
  NoDup (map fst (d ++ l)) -> in_range R C l ->
  fold_left copy_step l (mkMatrix d R C) = mkMatrix (d ++ l) R C.
Proof.
  revert d. induction l as [|[k v] l IH]; intros d Hd Hl; simpl.
  - now rewrite app_nil_r.
  - apply in_range_cons in Hl as [(r & c & -> & Hr & Hc) Hl].
    unfold copy_step at 2. simpl. rewrite coords_of_key.
    rewrite set_value_in_range by assumption. simpl.
    rewrite assoc_set_absent.
    + rewrite IH; [now rewrite <- app_assoc | now rewrite <- app_assoc | assumption].
    + rewrite map_app in Hd. apply NoDup_app in Hd as (_ & Hd & _).
      intros Hin. apply (Hd _ Hin). simpl. apply list_elem_of_here.
Qed.

Lemma copy_value A R C :
  wf A = true -> m_rows A <= R -> m_cols A <= C ->
  fold_left copy_step (m_elements A) (mkMatrix [] R C) = mkMatrix (m_elements A) R C.
Proof.
  intros HA HR HC. rewrite copy_fold; [reflexivity | now apply wf_NoDup |].
  intros k Hk. destruct (wf_in_range A HA k Hk) as (r & c & -> & ? & ?).
  exists r, c. repeat split; lia.
Qed.

(** The second loop of [add] and [subtract]. *)
Lemma merge_fold (f : Z -> Z -> Z) l m :
  NoDup (map fst l) -> in_range (m_rows m) (m_cols m) l ->
  let m' := fold_left (merge_step f) l m in
  m_rows m' = m_rows m /\ m_cols m' = m_cols m /\
  forall r c, get_value m' r c
              = match assoc_get l (key_of r c) with
                | Some v => f (get_value m r c) v
                | None => get_value m r c
                end.
Proof.
  revert m. induction l as [|[k v] l IH]; intros m Hd Hl; simpl.
  - auto.
  - apply in_range_cons in Hl as [(r0 & c0 & -> & Hr & Hc) Hl].
    apply NoDup_cons in Hd as [Hk Hd]. simpl in Hk.
    unfold merge_step at 2 4 6. simpl. rewrite coords_of_key.
    rewrite set_value_in_range by assumption.
    set (m1 := mkMatrix _ _ _).
    destruct (IH m1 Hd Hl) as (E1 & E2 & E3). repeat split; try assumption.
    intros r c. rewrite E3.
    change m1 with (mkMatrix (assoc_set (m_elements m) (key_of r0 c0)
                                (f (get_value m r0 c0) v)) (m_rows m) (m_cols m)).
    rewrite <- (set_value_in_range m r0 c0) by assumption.
    rewrite get_value_set.
    destruct (String.eqb_spec (key_of r0 c0) (key_of r c)) as [E|Hne].
    + apply key_of_inj in E as [-> ->]. rewrite !Z.eqb_refl. simpl.
      apply assoc_get_None in Hk. now rewrite Hk.
    + destruct (Z.eqb_spec r0 r) as [->|]; [|reflexivity].
      destruct (Z.eqb_spec c0 c) as [->|]; [congruence | reflexivity].
Qed.

Lemma fold_wf {X} (step : matrix -> X -> matrix) (l : list X) m :
  (forall m x, wf m = true -> wf (step m x) = true) ->
  wf m = true -> wf (fold_left step l m) = true.
Proof. intros Hs. revert m. induction l; simpl; auto. Qed.

Lemma wf_copy_step m e : wf m = true -> wf (copy_step m e) = true.
Proof. unfold copy_step. destruct (coords_of (fst e)). apply wf_set_value. Qed.

Lemma wf_merge_step f m e : wf m = true -> wf (merge_step f m e) = true.
Proof. unfold merge_step. destruct (coords_of (fst e)). apply wf_set_value. Qed.

Lemma wf_product_step e1 m e2 : wf m = true -> wf (product_step e1 m e2) = true.
Proof.
  unfold product_step. destruct (coords_of (fst e1)), (coords_of (fst e2)).
  destruct (_ =? _); [apply wf_set_value | trivial].
Qed.

Lemma wf_merge_value f A B : wf (merge_value f A B) = true.
Proof.
  unfold merge_value. apply fold_wf; [apply wf_merge_step|].
  apply fold_wf; [apply wf_copy_step | reflexivity].
Qed.

Lemma wf_product_value A B : wf (product_value A B) = true.
Proof.
  unfold product_value. apply fold_wf; [|reflexivity].
  intros m e1 Hm. apply fold_wf; [apply wf_product_step | assumption].
Qed.

(** The value of [add] and [subtract] on well-formed operands of equal
    dimensions. *)
Lemma merge_value_spec f A B :
  wf A = true -> wf B = true -> m_rows A = m_rows B -> m_cols A = m_cols B ->
  m_rows (merge_value f A B) = m_rows A /\
  m_cols (merge_value f A B) = m_cols A /\
  forall r c, get_value (merge_value f A B) r c
              = match assoc_get (m_elements B) (key_of r c) with
                | Some v => f (get_value A r c) v
                | None => get_value A r c
                end.
Proof.
  intros HA HB Hr Hc. unfold merge_value.
  rewrite copy_value by (assumption || lia).
  rewrite <- Hr, <- Hc, !Z.max_id.
  set (m1 := mkMatrix (m_elements A) (m_rows A) (m_cols A)).
  destruct (merge_fold f (m_elements B) m1) as (E1 & E2 & E3).
  - now apply wf_NoDup.
  - simpl. rewrite Hr, Hc. now apply wf_in_range.
  - repeat split; assumption.
Qed.

(** *** multiply *)

Lemma total_key l r c r' c' v :
  total ((key_of r c, v) :: l) (key_of r' c')
  = (if (r =? r') && (c =? c') then v else 0) + total l (key_of r' c').
Proof.
  simpl. f_equal.
  destruct (String.eqb_spec (key_of r c) (key_of r' c')) as [E|Hne].
  - apply key_of_inj in E as [-> ->]. now rewrite !Z.eqb_refl.
  - destruct (Z.eqb_spec r r') as [->|]; [|reflexivity].
    destruct (Z.eqb_spec c c') as [->|]; [congruence | reflexivity].
Qed.

(** The inner loop, for one entry [(r1, c1, v1)] of the left operand. *)
Lemma product_inner_fold R l m r1 c1 v1 :
  in_range R (m_cols m) l -> r1 < m_rows m ->
  let m' := fold_left (product_step (key_of r1 c1, v1)) l m in
  m_rows m' = m_rows m /\ m_cols m' = m_cols m /\
  forall r c, get_value m' r c
              = get_value m r c + (if r =? r1 then v1 * total l (key_of c1 c) else 0).
Proof.
  revert m. induction l as [|[k v] l IH]; intros m Hl Hr1.
  - repeat split. intros r c. simpl. destruct (r =? r1); lia.
  - apply in_range_cons in Hl as [(r2 & c2 & -> & _ & Hc2) Hl].
    cbn [fold_left]. cbv zeta.
    unfold product_step at 2 4 6. cbn [fst snd]. rewrite !coords_of_key.
    destruct (Z.eqb_spec c1 r2) as [->|Hne].
    + rewrite set_value_in_range by assumption.
      set (m1 := mkMatrix _ _ _).
      destruct (IH m1 Hl Hr1) as (E1 & E2 & E3). repeat split; try assumption.
      intros r c. rewrite E3.
      change m1 with (mkMatrix (assoc_set (m_elements m) (key_of r1 c2)
                                  (get_value m r1 c2 + v1 * v)) (m_rows m) (m_cols m)).
      rewrite <- (set_value_in_range m r1 c2) by assumption.
      rewrite get_value_set, total_key, Z.eqb_refl. simpl.
      rewrite (Z.eqb_sym r1 r).
      destruct (Z.eqb_spec r r1) as [->|]; simpl; [|lia].
      destruct (Z.eqb_spec c2 c) as [->|]; lia.
    + destruct (IH m Hl Hr1) as (E1 & E2 & E3). repeat split; try assumption.
      intros r c. rewrite E3, total_key.
      destruct (Z.eqb_spec r2 c1) as [->|]; [congruence|]. simpl.
      destruct (r =? r1); lia.
Qed.

(** The outer loop. *)
Lemma product_outer_fold R C lA lB m :
  in_range (m_rows m) C lA -> in_range R (m_cols m) lB ->
  let m' := fold_left (fun m e1 => fold_left (product_step e1) lB m) lA m in
  m_rows m' = m_rows m /\ m_cols m' = m_cols m /\
  forall r c, get_value m' r c = get_value m r c + weighted lA lB r c.
Proof.
  revert m. induction lA as [|[k v] lA IH]; intros m HA HB.
  - repeat split. intros r c. simpl. lia.
  - apply in_range_cons in HA as [(r1 & c1 & -> & Hr1 & _) HA].
    cbn [fold_left]. cbv zeta.
    destruct (product_inner_fold R lB m r1 c1 v HB Hr1) as (E1 & E2 & E3).
    set (m1 := fold_left (product_step (key_of r1 c1, v)) lB m) in *.
    destruct (IH m1) as (F1 & F2 & F3);
      [now rewrite E1 | now rewrite E2 |].
    repeat split; [congruence | congruence |].
    intros r c. rewrite F3, E3. cbn [weighted]. rewrite coords_of_key. lia.
Qed.

(** *** Sums *)

Lemma sum_to_ext n (f g : Z -> Z) :
  (forall k, 0 <= k < Z.of_nat n -> f k = g k) -> sum_to n f = sum_to n g.
Proof.
  induction n as [|n IH]; intros H; [reflexivity|].
  cbn [sum_to]. rewrite IH, H; [reflexivity | lia |]. intros k Hk. apply H. lia.
Qed.

Lemma sum_to_add n (f g : Z -> Z) :
  sum_to n (fun k => f k + g k) = sum_to n f + sum_to n g.
Proof. induction n as [|n IH]; cbn [sum_to]; [reflexivity | rewrite IH; lia]. Qed.

Lemma sum_to_zero n : sum_to n (fun _ => 0) = 0.
Proof. induction n as [|n IH]; cbn [sum_to]; [reflexivity | rewrite IH; lia]. Qed.

Lemma sum_to_single n (j : Z) (x : Z -> Z) :
  sum_to n (fun k => if j =? k then x k else 0)
  = if (0 <=? j) && (j <? Z.of_nat n) then x j else 0.
Proof.
  induction n as [|n IH]; cbn [sum_to].
  - destruct (Z.leb_spec 0 j), (Z.ltb_spec j (Z.of_nat 0)); simpl; lia.
  - rewrite IH.
    destruct (Z.leb_spec 0 j), (Z.ltb_spec j (Z.of_nat n)),
      (Z.ltb_spec j (Z.of_nat (S n))), (Z.eqb_spec j (Z.of_nat n)); simpl;
      subst; lia.
Qed.

(** With distinct keys and columns in [lo .. lo+n-1], the loops of
    [multiply] compute the sum of products. *)
Lemma weighted_dot (lo : Z) (n : nat) lA lB r c :
  NoDup (map fst lA) ->
  Forall (fun e => exists r1 c1, fst e = key_of r1 c1 /\ lo <= c1 < lo + Z.of_nat n) lA ->
  weighted lA lB r c
  = sum_to n (fun j => match assoc_get lA (key_of r (lo + j)) with Some v => v | None => 0 end
                       * total lB (key_of (lo + j) c)).
Proof.
  induction lA as [|[k1 v1] lA IH]; intros Hd HA.
  - symmetry. etransitivity; [|apply (sum_to_zero n)].
    apply sum_to_ext. intros k _. simpl. lia.
  - apply Forall_cons in HA as [(r1 & c1 & Hk & Hc1) HA]. simpl in Hk. subst k1.
    apply NoDup_cons in Hd as [Hk Hd]. simpl in Hk.
    cbn [weighted]. rewrite coords_of_key, (IH Hd HA).
    transitivity
      (sum_to n (fun j => (if c1 - lo =? j
                           then (if r =? r1 then v1 * total lB (key_of (lo + j) c) else 0)
                           else 0)
                          + match assoc_get lA (key_of r (lo + j)) with
                            | Some v => v
                            | None => 0
                            end * total lB (key_of (lo + j) c))).
    + rewrite sum_to_add, sum_to_single.
      replace (lo + (c1 - lo)) with c1 by lia.
      destruct (Z.leb_spec 0 (c1 - lo)), (Z.ltb_spec (c1 - lo) (Z.of_nat n)); simpl; lia.
    + apply sum_to_ext. intros j _. cbn [assoc_get].
      destruct (String.eqb_spec (key_of r1 c1) (key_of r (lo + j))) as [E|Hne].
      * apply key_of_inj in E as [-> ->].
        replace (lo + j - lo) with j by lia. rewrite !Z.eqb_refl.
        apply assoc_get_None in Hk. rewrite Hk. lia.
      * destruct (Z.eqb_spec (c1 - lo) j) as [E|]; [|lia].
        replace (lo + j) with c1 in * by lia.
        destruct (Z.eqb_spec r r1) as [->|]; [congruence | lia].
Qed.

Lemma columns_within_spec lo n A :
  wf A = true -> columns_within lo n A = true ->
  Forall (fun e => exists r1 c1, fst e = key_of r1 c1 /\ lo <= c1 < lo + Z.of_nat n)
         (m_elements A).
Proof.
  intros HA Hw. apply Forall_forall. intros e He.
  unfold columns_within in Hw. rewrite forallb_forall in Hw.
  specialize (Hw e (proj1 (list_elem_of_In _ _) He)).
  destruct (wf_in_range A HA (fst e)) as (r1 & c1 & E & _).
  { apply elem_of_map. now exists e. }
  rewrite E, coords_of_key in Hw. apply andb_true_iff in Hw as [H1%Z.leb_le H2%Z.ltb_lt].
  now exists r1, c1.
Qed.

(** Without negative coordinates, the columns are [0 .. col_count-1]. *)
Lemma nonneg_columns_within A :
  wf A = true -> nonneg A = true -> columns_within 0 (Z.to_nat (m_cols A)) A = true.
Proof.
  intros HA Hn. unfold columns_within. apply forallb_forall. intros e He.
  unfold nonneg in Hn. rewrite forallb_forall in Hn.
  assert (Hin : fst e ∈ map fst (m_elements A)).
  { apply elem_of_map. exists e. split; [reflexivity | now apply list_elem_of_In]. }
  specialize (Hn (fst e) (proj1 (list_elem_of_In _ _) Hin)).
  destruct (wf_in_range A HA (fst e) Hin) as (r1 & c1 & E & _ & Hc).
  unfold key_nonneg in Hn. rewrite E, unpack_key in Hn. rewrite E, coords_of_key.
  apply andb_true_iff in Hn as [_ Hn%Z.leb_le].
  apply andb_true_iff. split; [now apply Z.leb_le | apply Z.ltb_lt; lia].
Qed.

(** The value of [multiply]. *)
Lemma product_value_spec lo n A B :
  wf A = true -> wf B = true -> columns_within lo n A = true ->
  m_rows (product_value A B) = m_rows A /\
  m_cols (product_value A B) = m_cols B /\
  forall r c, get_value (product_value A B) r c = dot_from A B r c lo n.
Proof.
  intros HA HB Hw. unfold product_value.
  set (m0 := mkMatrix [] (m_rows A) (m_cols B)).
  destruct (product_outer_fold (m_rows B) (m_cols A) (m_elements A) (m_elements B) m0)
    as (E1 & E2 & E3); [exact (wf_in_range A HA) | exact (wf_in_range B HB) |].
  repeat split; [assumption | assumption |].
  intros r c. rewrite E3. unfold dot_from.
  change (get_value m0 r c) with 0. rewrite Z.add_0_l.
  rewrite (weighted_dot lo n).
  - apply sum_to_ext. intros k _. unfold get_value.
    now rewrite (total_get (m_elements B)) by now apply wf_NoDup.
  - now apply wf_NoDup.
  - now apply columns_within_spec.
Qed.

Lemma dot_from_0 A B r c n : dot_from A B r c 0 n = dot A B r c n.
Proof. reflexivity. Qed.

End Values.

(** ** Serialization and parsing *)

Section Texts.

Implicit Types (h : heap) (a : ref) (m : matrix) (l : string) (ls : list string).

(** *** Joining and reading lines *)

Lemma unlines_join l ls : unlines (l :: ls) = join_lines (l :: ls) +:+ nl.
Proof.
  revert l. induction ls as [|l' ls IH]; intros l.
  - reflexivity.
  - change (unlines (l :: l' :: ls)) with (l +:+ nl +:+ unlines (l' :: ls)).
    rewrite IH. change (join_lines (l :: l' :: ls)) with (l +:+ nl +:+ join_lines (l' :: ls)).
    now rewrite !append_assoc.
Qed.

Lemma unlines_app ls1 ls2 : unlines (ls1 ++ ls2) = unlines ls1 +:+ unlines ls2.
Proof.
  induction ls1 as [|l ls1 IH]; [reflexivity|].
  cbn [app unlines]. now rewrite IH, !append_assoc.
Qed.

Lemma trimmed_join l ls : Forall trimmed (l :: ls) -> trimmed (join_lines (l :: ls)).
Proof.
  revert l. induction ls as [|l' ls IH]; intros l H.
  - now apply Forall_cons in H as [H _].
  - apply Forall_cons in H as [[(c & s & -> & Hc) Hr] H].
    specialize (IH _ H). pose proof (trimmed_nonempty _ IH) as Hne.
    destruct IH as [_ IH].
    change (join_lines (String c s :: l' :: ls))
      with (String c s +:+ nl +:+ join_lines (l' :: ls)).
    split; [now eexists _, _|].
    rewrite <- append_assoc, rstrip_app; rewrite IH; [reflexivity | assumption].
Qed.

(** [strip()] removes exactly the last line feed of the text that
    [to_string] builds. *)
Lemma strip_unlines l ls :
  Forall trimmed (l :: ls) -> Py.strip (unlines (l :: ls)) = join_lines (l :: ls).
Proof. intros H. rewrite unlines_join. now apply trimmed_strip_nl, trimmed_join. Qed.

Lemma readlines_join l ls :
  Forall plain_line (l :: ls) ->
  Py.readlines (join_lines (l :: ls)) = joined_lines (l :: ls).
Proof.
  revert l. induction ls as [|l' ls IH]; intros l H.
  - apply Forall_cons in H as [[Hne Hl] _]. now apply readlines_last.
  - apply Forall_cons in H as [[Hne Hl] H].
    change (join_lines (l :: l' :: ls)) with (l +:+ String Py.LF (join_lines (l' :: ls))).
    rewrite readlines_line by assumption. now rewrite IH.
Qed.

Lemma joined_lines_strip ls :
  Forall trimmed ls -> Forall2 (fun line l => Py.strip line = l) (joined_lines ls) ls.
Proof.
  induction ls as [|l ls IH]; intros H; [constructor|].
  apply Forall_cons in H as [Hl H]. destruct ls as [|l' ls].
  - repeat constructor. now apply trimmed_strip.
  - change (joined_lines (l :: l' :: ls)) with ((l +:+ nl) :: joined_lines (l' :: ls)).
    constructor; [now apply trimmed_strip_nl | now apply IH].
Qed.

(** *** The lines of a matrix *)

Lemma header_trimmed (name : string) (n : Z) :
  trimmed (String "r" name +:+ Py.str n) /\ trimmed (String "c" name +:+ Py.str n).
Proof. split; now apply trimmed_ends_str. Qed.

Lemma header_plain (name : string) (n : Z) :
  Py.all_chars (is_not Py.LF) name = true -> plain_line (name +:+ Py.str n).
Proof.
  intros H. split.
  - intros [_ E]%append_empty. now apply str_nonempty in E.
  - now rewrite all_chars_app, H, str_no_newline.
Qed.

Lemma triple_text_plain r c v : plain_line (triple_text r c v).
Proof.
  split; [discriminate|]. unfold triple_text.
  rewrite !all_chars_app, !str_no_newline. reflexivity.
Qed.

Lemma entry_text_key r c v : entry_text (key_of r c, v) = triple_text r c v.
Proof. unfold entry_text. simpl. now rewrite coords_of_key. Qed.

Lemma entry_line_key r c v :
  entry_line (Py.str r) (Py.str c) v = triple_text r c v +:+ nl.
Proof. unfold entry_line, triple_text. now rewrite !append_assoc. Qed.

Lemma header_int_run (name : string) (n : Z) (line : string) h :
  Py.all_chars (is_not "=") name = true ->
  Py.strip line = name +:+ "=" +:+ Py.str n ->
  header_int line h = Done n h.
Proof.
  intros Hname E. unfold header_int. rewrite E.
  change ("=" +:+ Py.str n) with (String "=" (Py.str n)).
  rewrite split_app by assumption.
  rewrite split_no_sep by apply str_no_equals. now rewrite int_str.
Qed.

(** *** to_string *)

Lemma to_string_loop (items : list (string * Z)) (result : string) h :
  Forall (fun e => canonical (fst e)) items ->
  for_fold items (fun result '(key, value) =>
    match Py.split "," key with
    | [row; col] => ret (result +:+ entry_line row col value)
    | fields =>
        if (length fields <? 2)%nat
        then raise (ValueError (NotEnoughValues 2 (length fields)))
        else raise (ValueError (TooManyValues 2))
    end) result h
  = Done (result +:+ unlines (map entry_text items)) h.
Proof.
  intros H. revert result. induction H as [|[k v] items (r & c & Hk) _ IH]; intros result.
  - simpl. now rewrite append_nil_r.
  - simpl in Hk. subst k. cbn [for_fold map unlines].
    rewrite <- !append_assoc.
    eapply bind_Done; [|apply IH].
    rewrite split_key, entry_line_key, entry_text_key.
    unfold ret. now rewrite !append_assoc.
Qed.

Lemma entry_texts_trimmed (items : list (string * Z)) :
  Forall (fun e => canonical (fst e)) items ->
  Forall trimmed (map entry_text items) /\ Forall plain_line (map entry_text items).
Proof.
  induction 1 as [|[k v] items (r & c & Hk) _ [IH1 IH2]]; [split; constructor|].
  simpl in Hk. subst k. cbn [map]. rewrite entry_text_key. split; constructor;
    auto using triple_text_trimmed, triple_text_plain.
Qed.

(** The text that [to_string] returns for a matrix with keys of the form
    [f"{r},{c}"]. *)
Lemma to_string_run h a m :
  view h a = Some m -> Forall (fun e => canonical (fst e)) (m_elements m) ->
  to_string a h = Done (text_of m) h.
Proof.
  intros Hv Hm. pose proof Hv as (o & Ho & _ & Hr & Hc)%view_Some.
  unfold to_string. eapply bind_Done; [apply load_run, Ho|].
  unfold bind at 1. unfold dict_items.
  apply view_Some in Hv as (o' & Ho' & Hd & _ & _).
  assert (o' = o) by congruence. subst o'.
  rewrite (dict_read_run _ _ _ Hd).
  eapply bind_Done; [now apply to_string_loop|].
  unfold ret, text_of. f_equal. rewrite Hr, Hc.
  rewrite <- strip_unlines.
  - f_equal. cbn [unlines]. now rewrite !append_assoc.
  - destruct (entry_texts_trimmed _ Hm) as [Ht _].
    repeat constructor; try assumption; apply header_trimmed.
Qed.

(** *** from_file *)

Lemma set_all_run h m (ts : list (Z * Z * Z)) :
  set_all (length (objects h)) ts (ext h m) = Done tt (ext h (set_all_value ts m)).
Proof.
  revert m. induction ts as [|[[r c] v] ts IH]; intros m; [reflexivity|].
  unfold set_all. cbn [for_each].
  eapply bind_Done; [apply set_element_new | apply IH].
Qed.

Lemma text_of_triples m : text_of m = matrix_text (m_rows m) (m_cols m) (triples m).
Proof.
  unfold text_of, matrix_text, triples. do 3 f_equal.
  rewrite map_map. apply map_ext. intros [k v]. unfold entry_text, triple_line.
  simpl. now destruct (coords_of k).
Qed.

Lemma set_all_triples m0 (items : list (string * Z)) :
  set_all_value (map (fun e => (coords_of (fst e), snd e)) items) m0
  = fold_left copy_step items m0.
Proof.
  revert m0. induction items as [|[k v] items IH]; intros m0; [reflexivity|].
  cbn [map fold_left set_all_value]. unfold set_all_value in IH. simpl fst. simpl snd.
  unfold copy_step at 2. simpl fst. simpl snd.
  destruct (coords_of k) as [r c]. apply IH.
Qed.

(** Writing the entries of a well-formed value into an empty matrix of the
    same dimensions gives the value back. *)
Lemma set_all_triples_wf m :
  wf m = true -> set_all_value (triples m) (mkMatrix [] (m_rows m) (m_cols m)) = m.
Proof.
  intros H. unfold triples. rewrite set_all_triples, copy_value by (assumption || lia).
  now destruct m.
Qed.

Lemma triple_lines_ok (ts : list (Z * Z * Z)) :
  Forall trimmed (map triple_line ts) /\ Forall plain_line (map triple_line ts).
Proof.
  induction ts as [|[[r c] v] ts [IH1 IH2]]; [split; constructor|].
  cbn [map triple_line].
  split; constructor; auto using triple_text_trimmed, triple_text_plain.
Qed.

Lemma parse_loop h m (ts : list (Z * Z * Z)) (lines : list string) :
  Forall2 (fun line t => Py.strip line = t) lines (map triple_line ts) ->
  for_each lines (fun line =>
    let line := Py.strip line in
    if String.eqb line "" then ret tt
    else
      match unpack3_ints (Py.split "," (Py.strip_chars "()" line)) with
      | inr (row, col, value) => set_element (length (objects h)) row col value
      | inl _ => raise (ValueError (Msg ("Invalid format in line: " +:+ line)))
      end) (ext h m)
  = Done tt (ext h (set_all_value ts m)).
Proof.
  revert lines m. induction ts as [|[[r c] v] ts IH]; intros lines m H.
  - inversion H. reflexivity.
  - cbn [map] in H. inversion H as [|line t lines' ts' Hl Hrest]; subst.
    cbn [for_each]. eapply bind_Done; [|now apply IH].
    cbv zeta. rewrite Hl. unfold triple_line.
    replace (String.eqb (triple_text r c v) "") with false by reflexivity.
    rewrite unpack_triple. apply set_element_new.
Qed.

Lemma joined_two l1 l2 ls :
  Forall trimmed (l1 :: l2 :: ls) ->
  exists x1 x2 rest,
    joined_lines (l1 :: l2 :: ls) = x1 :: x2 :: rest /\
    Py.strip x1 = l1 /\ Py.strip x2 = l2 /\
    Forall2 (fun line l => Py.strip line = l) rest ls.
Proof.
  intros H%joined_lines_strip.
  remember (joined_lines (l1 :: l2 :: ls)) as L eqn:EL. clear EL.
  inversion H as [|x1 t1 xs1 ts1 H1 H']; subst.
  inversion H' as [|x2 t2 xs2 ts2 H2 H'']; subst.
  now exists x1, x2, xs2.
Qed.

(** Reading a file of the format gives the matrix of the header with the
    entries set in file order. *)
Lemma from_text_run (path : string) h R C (ts : list (Z * Z * Z)) :
  from_text path (matrix_text R C ts) h
  = Done (length (objects h)) (ext h (set_all_value ts (mkMatrix [] R C))).
Proof.
  unfold from_text, matrix_text.
  destruct (triple_lines_ok ts) as [Ht Hp].
  rewrite readlines_join.
  2:{ repeat constructor; try assumption;
      apply (header_plain "rows=") || apply (header_plain "cols="); reflexivity. }
  destruct (joined_two ("rows=" +:+ Py.str R) ("cols=" +:+ Py.str C) (map triple_line ts))
    as (x1 & x2 & rest & -> & H1 & H2 & Hrest).
  { repeat constructor; try assumption; apply header_trimmed. }
  cbn [length Nat.ltb Nat.leb nth drop]. rewrite drop_0.
  eapply bind_Done; [apply (header_int_run "rows" R); [reflexivity | exact H1]|].
  eapply bind_Done; [apply (header_int_run "cols" C); [reflexivity | exact H2]|].
  eapply bind_Done; [apply init_run|].
  eapply bind_Done; [apply parse_loop; exact Hrest|].
  reflexivity.
Qed.

Lemma from_file_run (fs : string -> option string) (path : string) h R C ts :
  fs path = Some (matrix_text R C ts) ->
  from_file fs path h
  = Done (length (objects h)) (ext h (set_all_value ts (mkMatrix [] R C))).
Proof. intros E. unfold from_file. rewrite E. apply from_text_run. Qed.

End Texts.

(** ** Insertion order *)

Section InsertionOrder.

Implicit Types (p q : Z * Z) (cs F : list (Z * Z)) (ts : list (Z * Z * Z)).

Lemma coord_eqb_eq p q : coord_eqb p q = true <-> p = q.
Proof.
  destruct p, q. unfold coord_eqb. simpl.
  rewrite andb_true_iff, !Z.eqb_eq. split; [intros [-> ->] | intros [= -> ->]]; auto.
Qed.

Lemma coord_eqb_refl p : coord_eqb p p = true.
Proof. now apply coord_eqb_eq. Qed.

Lemma coord_eqb_sym p q : coord_eqb p q = coord_eqb q p.
Proof. unfold coord_eqb. now rewrite (Z.eqb_sym (fst p)), (Z.eqb_sym (snd p)). Qed.

Lemma coord_eqb_neq p q : coord_eqb p q = false <-> p <> q.
Proof. rewrite <- not_true_iff_false, coord_eqb_eq. tauto. Qed.

Lemma coord_key_inj p q : coord_key p = coord_key q -> p = q.
Proof.
  destruct p, q. unfold coord_key. simpl. intros [-> ->]%key_of_inj. reflexivity.
Qed.

Lemma existsb_coord p cs : existsb (coord_eqb p) cs = true <-> In p cs.
Proof.
  rewrite existsb_exists. split.
  - intros (q & Hq & ->%coord_eqb_eq). assumption.
  - intros H. exists p. auto using coord_eqb_refl.
Qed.

Lemma first_occurrences_In p cs : In p (first_occurrences cs) <-> In p cs.
Proof.
  induction cs as [|q cs IH]; [reflexivity|].
  cbn [first_occurrences In]. rewrite filter_In, IH, negb_true_iff, coord_eqb_neq.
  destruct (decide (q = p)); tauto.
Qed.

Lemma first_occurrences_NoDup cs : NoDup (first_occurrences cs).
Proof.
  induction cs as [|q cs IH]; cbn [first_occurrences]; [constructor|].
  apply NoDup_cons. split.
  - rewrite list_elem_of_In, filter_In, coord_eqb_refl. intros [_ H]. discriminate.
  - apply NoDup_ListNoDup, List.NoDup_filter, NoDup_ListNoDup, IH.
Qed.

Lemma first_occurrences_snoc cs p :
  first_occurrences (cs ++ [p])
  = if existsb (coord_eqb p) cs then first_occurrences cs
    else first_occurrences cs ++ [p].
Proof.
  induction cs as [|q cs IH]; [reflexivity|].
  cbn [app first_occurrences existsb]. rewrite IH.
  destruct (coord_eqb p q) eqn:Epq; simpl.
  - destruct (existsb (coord_eqb p) cs); [reflexivity|].
    rewrite List.filter_app. simpl. rewrite (coord_eqb_sym q p), Epq. simpl.
    now rewrite app_nil_r.
  - destruct (existsb (coord_eqb p) cs); [reflexivity|].
    rewrite List.filter_app. simpl. now rewrite (coord_eqb_sym q p), Epq.
Qed.

Lemma last_value_snoc ts t p :
  last_value (ts ++ [t]) p = if coord_eqb (fst t) p then snd t else last_value ts p.
Proof. unfold last_value. now rewrite fold_left_app. Qed.

(** Assigning to a key that is present changes its value where it is. *)
Lemma assoc_set_map F (f : Z * Z -> Z) p v :
  NoDup F -> In p F ->
  assoc_set (map (fun q => (coord_key q, f q)) F) (coord_key p) v
  = map (fun q => (coord_key q, if coord_eqb p q then v else f q)) F.
Proof.
  induction F as [|q F IH]; intros Hd Hin; [destruct Hin|].
  apply NoDup_cons in Hd as [Hq Hd]. cbn [map assoc_set].
  destruct (String.eqb_spec (coord_key q) (coord_key p)) as [E|Hne].
  - apply coord_key_inj in E as ->. rewrite coord_eqb_refl. f_equal.
    apply map_ext_in. intros q Hq'. rewrite list_elem_of_In in Hq.
    destruct (coord_eqb p q) eqn:E; [|reflexivity].
    apply coord_eqb_eq in E as ->. contradiction.
  - destruct Hin as [-> | Hin]; [congruence|].
    rewrite (IH Hd Hin). f_equal.
    destruct (coord_eqb p q) eqn:E; [|reflexivity].
    apply coord_eqb_eq in E as ->. congruence.
Qed.

Lemma set_all_value_snoc ts r c v m :
  set_all_value (ts ++ [(r, c, v)]) m = set_value (set_all_value ts m) r c v.
Proof. unfold set_all_value. now rewrite fold_left_app. Qed.

(** The entries after a sequence of calls are those of the specification:
    first-insertion order, last value. *)
Lemma set_all_elements ts R C :
  m_elements (set_all_value ts (mkMatrix [] R C)) = map keyed (insertion_entries ts).
Proof.
  induction ts as [|[[r c] v] ts IH] using rev_ind; [reflexivity|].
  rewrite set_all_value_snoc. cbn [set_value m_elements]. rewrite IH.
  unfold insertion_entries. rewrite !map_map, map_app. cbn [map fst].
  rewrite first_occurrences_snoc. change (key_of r c) with (coord_key (r, c)).
  destruct (existsb (coord_eqb (r, c)) (map fst ts)) eqn:E.
  - rewrite (assoc_set_map _ (last_value ts));
      [|apply first_occurrences_NoDup
       |now apply first_occurrences_In, existsb_coord].
    apply map_ext. intros q. unfold keyed. simpl. now rewrite last_value_snoc.
  - assert (Hnot : ~ In (r, c) (first_occurrences (map fst ts))).
    { rewrite first_occurrences_In, <- existsb_coord, E. discriminate. }
    rewrite assoc_set_absent.
    + rewrite map_app. cbn [map]. unfold keyed at 3. cbn [fst snd].
      rewrite last_value_snoc. cbn [fst snd]. rewrite coord_eqb_refl. f_equal.
      apply map_ext_in. intros q Hq. unfold keyed. cbn [fst snd].
      rewrite last_value_snoc. cbn [fst snd].
      destruct (coord_eqb (r, c) q) eqn:Eq; [|reflexivity].
      apply coord_eqb_eq in Eq as <-. contradiction.
    + rewrite map_map. cbn [fst keyed]. intros Hin.
      apply list_elem_of_In, in_map_iff in Hin as (q & Hq%coord_key_inj & Hin).
      subst q. contradiction.
Qed.

Lemma set_all_rows ts m :
  m_rows (set_all_value ts m) = final_rows (m_rows m) ts /\
  m_cols (set_all_value ts m) = final_cols (m_cols m) ts.
Proof.
  revert m. induction ts as [|[[r c] v] ts IH]; intros m; [split; reflexivity|].
  unfold final_rows, final_cols, grown in *. cbn [set_all_value fold_left map fst snd].
  unfold set_all_value in IH. destruct (IH (set_value m r c v)) as [-> ->].
  split; reflexivity.
Qed.

Lemma triples_keyed (es : list (Z * Z * Z)) (R C : Z) :
  triples (mkMatrix (map keyed es) R C) = es.
Proof.
  unfold triples. cbn [m_elements]. rewrite map_map.
  rewrite <- (map_id es) at 2. apply map_ext. intros [[r c] v].
  unfold keyed, coord_key. cbn [fst snd]. now rewrite coords_of_key.
Qed.

End InsertionOrder.

(** * The claims *)

Section Closure.

(** Every matrix that the class builds is well formed: the constructor
    gives a well-formed value and [set_element] keeps it so. *)
Lemma init_wf h R C :
  exists m, view (ext h (mkMatrix [] R C)) (length (objects h)) = Some m /\ wf m = true.
Proof. eexists. split; [apply view_ext_new | reflexivity]. Qed.

Lemma set_element_wf h a m r c v :
  view h a = Some m -> wf m = true ->
  exists h' m', set_element a r c v h = Done tt h' /\ view h' a = Some m' /\ wf m' = true.
Proof.
  intros Hv Hm. eexists _, _. split; [apply (set_element_run _ _ m), Hv|]. split.
  - eapply view_put, Hv.
  - now apply wf_set_value.
Qed.

Lemma set_all_value_wf ts m : wf m = true -> wf (set_all_value ts m) = true.
Proof.
  unfold set_all_value. apply fold_wf. intros m' [[r c] v]. apply wf_set_value.
Qed.

End Closure.

(** C1: for matrices [A] and [B] of equal [row_count] and [col_count],
    [add(A,B).get(r,c) == A.get(r,c) + B.get(r,c)] and
    [subtract(A,B).get(r,c) == A.get(r,c) - B.get(r,c)], at every coordinate
    (in range or not).  Both calls return. *)
Theorem add_subtract_values (h : heap) (a b : ref) (A B : matrix) :
  view h a = Some A -> view h b = Some B ->
  wf A = true -> wf B = true ->
  m_rows A = m_rows B -> m_cols A = m_cols B ->
  (exists s h1, add a b h = Done s h1 /\
     forall r c, exists x y,
       get_element a r c h = Done x h /\ get_element b r c h = Done y h /\
       get_element s r c h1 = Done (x + y) h1) /\
  (exists d h2, subtract a b h = Done d h2 /\
     forall r c, exists x y,
       get_element a r c h = Done x h /\ get_element b r c h = Done y h /\
       get_element d r c h2 = Done (x - y) h2).
Proof.
  intros Ha Hb HA HB Hr Hc.
  assert (Hcond : negb (m_rows A =? m_rows B) || negb (m_cols A =? m_cols B) = false)
    by (rewrite Hr, Hc, !Z.eqb_refl; reflexivity).
  split.
  - eexists _, _. split.
    + rewrite (add_run h a b A B) by auto using wf_canonical. now rewrite Hcond.
    + intros r c. exists (get_value A r c), (get_value B r c).
      repeat split; try now apply get_element_run.
      rewrite get_element_new. f_equal.
      destruct (merge_value_spec Z.add A B HA HB Hr Hc) as (_ & _ & ->).
      unfold get_value. destruct (assoc_get (m_elements B) (key_of r c)); lia.
  - eexists _, _. split.
    + rewrite (subtract_run h a b A B) by auto using wf_canonical. now rewrite Hcond.
    + intros r c. exists (get_value A r c), (get_value B r c).
      repeat split; try now apply get_element_run.
      rewrite get_element_new. f_equal.
      destruct (merge_value_spec Z.sub A B HA HB Hr Hc) as (_ & _ & ->).
      unfold get_value. destruct (assoc_get (m_elements B) (key_of r c)); lia.
Qed.

Lemma add_subtract_values_witness :
  (exists s h1, add 0%nat 1%nat demo_heap = Done s h1 /\
     forall r c, exists x y,
       get_element 0%nat r c demo_heap = Done x demo_heap /\
       get_element 1%nat r c demo_heap = Done y demo_heap /\
       get_element s r c h1 = Done (x + y) h1) /\
  (exists d h2, subtract 0%nat 1%nat demo_heap = Done d h2 /\
     forall r c, exists x y,
       get_element 0%nat r c demo_heap = Done x demo_heap /\
       get_element 1%nat r c demo_heap = Done y demo_heap /\
       get_element d r c h2 = Done (x - y) h2).
Proof.
  apply (add_subtract_values demo_heap 0%nat 1%nat demo_A demo_B); reflexivity.
Defined.

(** C2: for matrices with [A.col_count == B.row_count], [multiply(A,B)]
    returns a matrix of [A.row_count] rows and [B.col_count] columns whose
    value at every [(r,c)] is the sum over [k] of [A.get(r,k) * B.get(k,c)].
    The sum is taken over any range [lo .. lo+n-1] that holds the column
    indices stored in [A]; without negative coordinates this is
    [0 .. A.col_count - 1] (see [nonneg_columns_within]). *)
Theorem multiply_correct (h : heap) (a b : ref) (A B : matrix) (lo : Z) (n : nat) :
  view h a = Some A -> view h b = Some B ->
  wf A = true -> wf B = true ->
  m_cols A = m_rows B ->
  columns_within lo n A = true ->
  exists p h1 P,
    multiply a b h = Done p h1 /\ view h1 p = Some P /\
    m_rows P = m_rows A /\ m_cols P = m_cols B /\
    forall r c, get_element p r c h1 = Done (dot_from A B r c lo n) h1.
Proof.
  intros Ha Hb HA HB Hc Hw.
  destruct (product_value_spec lo n A B HA HB Hw) as (E1 & E2 & E3).
  eexists _, _, _. split; [|split; [apply view_ext_new|]].
  - rewrite (multiply_run h a b A B) by auto using wf_canonical.
    now rewrite Hc, Z.eqb_refl.
  - repeat split; try assumption.
    intros r c. rewrite get_element_new. now rewrite E3.
Qed.

Lemma multiply_correct_witness :
  exists p h1 P,
    multiply 0%nat 1%nat demo_heap = Done p h1 /\ view h1 p = Some P /\
    m_rows P = m_rows demo_A /\ m_cols P = m_cols demo_B /\
    forall r c, get_element p r c h1 = Done (dot_from demo_A demo_B r c 0 2) h1.
Proof.
  apply (multiply_correct demo_heap 0%nat 1%nat demo_A demo_B 0 2); reflexivity.
Defined.

(** The usual form of the product, for operands in the data model of the
    specification (no negative coordinate stored in the left operand). *)
Lemma multiply_standard (h : heap) (a b : ref) (A B : matrix) :
  view h a = Some A -> view h b = Some B ->
  wf A = true -> wf B = true -> nonneg A = true ->
  m_cols A = m_rows B ->
  exists p h1,
    multiply a b h = Done p h1 /\
    forall r c, get_element p r c h1 = Done (dot A B r c (Z.to_nat (m_cols A))) h1.
Proof.
  intros Ha Hb HA HB Hn Hc.
  destruct (product_value_spec 0 (Z.to_nat (m_cols A)) A B HA HB) as (_ & _ & E3);
    [now apply nonneg_columns_within|].
  eexists _, _. split.
  - rewrite (multiply_run h a b A B) by auto using wf_canonical.
    now rewrite Hc, Z.eqb_refl.
  - intros r c. rewrite get_element_new, E3. now rewrite dot_from_0.
Qed.

(** With a negative inner index stored on both sides, the product holds a
    term that the sum over [0 .. A.col_count - 1] lacks. *)
Example multiply_negative_inner_index :
  match (x <- init 1 1 ;; set_element x 0 (-1) 2 ;;
         y <- init 1 1 ;; set_element y (-1) 0 3 ;;
         p <- multiply x y ;; get_element p 0 0) empty_heap with
  | Done v _ => v = 6
  | _ => False
  end
  /\ dot (mkMatrix [("0,-1", 2)] 1 1) (mkMatrix [("-1,0", 3)] 1 1) 0 0 1 = 0
  /\ dot_from (mkMatrix [("0,-1", 2)] 1 1) (mkMatrix [("-1,0", 3)] 1 1) 0 0 (-1) 2 = 6.
Proof. vm_compute. repeat split. Qed.

Section SetAll.

Lemma never_set_get ts m r c :
  never_set ts r c = true ->
  get_value (set_all_value ts m) r c = get_value m r c.
Proof.
  revert m. induction ts as [|[[r' c'] v] ts IH]; intros m H; [reflexivity|].
  cbn [never_set forallb] in H. apply andb_true_iff in H as [H1 H2].
  cbn [set_all_value fold_left]. unfold set_all_value in IH.
  rewrite (IH _ H2), get_value_set.
  apply negb_true_iff in H1. now rewrite H1.
Qed.

End SetAll.

(** C3: a coordinate that was never set reads as 0, and reading never
    fails; after [M.set(r,c,v)], [M.get(r,c) == v], [M.row_count >= r+1],
    [M.col_count >= c+1], and no dimension has shrunk. *)
Theorem get_set_contract
    (h0 : heap) (R C : Z) (ts : list (Z * Z * Z)) (r0 c0 : Z)
    (h : heap) (a : ref) (m : matrix) (r c v : Z) :
  never_set ts r0 c0 = true ->
  view h a = Some m ->
  (exists h', (x <- init R C ;; set_all x ts ;; get_element x r0 c0) h0 = Done 0 h') /\
  (exists x, get_element a r c h = Done x h) /\
  (exists h' m',
      set_element a r c v h = Done tt h' /\
      get_element a r c h' = Done v h' /\
      view h' a = Some m' /\
      r + 1 <= m_rows m' /\ c + 1 <= m_cols m' /\
      m_rows m <= m_rows m' /\ m_cols m <= m_cols m').
Proof.
  intros Hns Hv. split; [|split].
  - eexists. eapply bind_Done; [apply init_run|].
    eapply bind_Done; [apply set_all_run|].
    rewrite get_element_new. f_equal. now rewrite never_set_get.
  - eexists. apply (get_element_run _ _ m), Hv.
  - exists (put h a (set_value m r c v)), (set_value m r c v).
    assert (Hv' : view (put h a (set_value m r c v)) a = Some (set_value m r c v))
      by (eapply view_put, Hv).
    split; [apply (set_element_run _ _ m), Hv|].
    split; [rewrite (get_element_run _ _ _ _ _ Hv'), get_value_set, !Z.eqb_refl; reflexivity|].
    split; [assumption|].
    pose proof (set_value_rows m r c v). pose proof (set_value_cols m r c v). lia.
Qed.

Lemma get_set_contract_witness :
  (exists h', (x <- init 3 3 ;; set_all x [(0, 1, 5)] ;; get_element x 2 2) empty_heap
              = Done 0 h') /\
  (exists x, get_element 0%nat 7 9 demo_heap = Done x demo_heap) /\
  (exists h' m',
      set_element 0%nat 4 1 (-3) demo_heap = Done tt h' /\
      get_element 0%nat 4 1 h' = Done (-3) h' /\
      view h' 0%nat = Some m' /\
      4 + 1 <= m_rows m' /\ 1 + 1 <= m_cols m' /\
      m_rows demo_A <= m_rows m' /\ m_cols demo_A <= m_cols m').
Proof.
  apply (get_set_contract empty_heap 3 3 [(0, 1, 5)] 2 2 demo_heap 0%nat demo_A 4 1 (-3));
    reflexivity.
Defined.

Section Operations.

Implicit Types (h : heap) (a b : ref) (A B : matrix).

Lemma method_run (op : operation) h a b A B :
  view h a = Some A -> view h b = Some B -> wf A = true -> wf B = true ->
  method op a b h
  = if compatible op A B
    then Done (length (objects h))
              (ext h (match op with
                      | Addition => merge_value Z.add A B
                      | Subtraction => merge_value Z.sub A B
                      | Multiplication => product_value A B
                      end))
    else Raised (mismatch op) h.
Proof.
  intros Ha Hb HA%wf_canonical HB%wf_canonical.
  destruct op; simpl.
  - rewrite (add_run h a b A B) by assumption.
    now destruct (m_rows A =? m_rows B), (m_cols A =? m_cols B).
  - rewrite (subtract_run h a b A B) by assumption.
    now destruct (m_rows A =? m_rows B), (m_cols A =? m_cols B).
  - rewrite (multiply_run h a b A B) by assumption.
    now destruct (m_cols A =? m_rows B).
Qed.

Lemma compatible_spec (op : operation) A B :
  compatible op A B = true <->
  match op with
  | Addition | Subtraction => m_rows A = m_rows B /\ m_cols A = m_cols B
  | Multiplication => m_cols A = m_rows B
  end.
Proof.
  destruct op; simpl; rewrite ?andb_true_iff, ?Z.eqb_eq; tauto.
Qed.

Lemma ext_unchanged h m : unchanged h (ext h m).
Proof. apply ext_frame. Qed.

Lemma ext_fresh h m : fresh_matrix h (ext h m) (length (objects h)).
Proof.
  split; [now apply lookup_ge_None_2|].
  eexists. split.
  - unfold ext. simpl. now apply list_lookup_middle.
  - simpl. now apply lookup_ge_None_2.
Qed.

(** The result of an operation is well formed again. *)
Lemma method_result_wf (op : operation) h a b A B :
  view h a = Some A -> view h b = Some B -> wf A = true -> wf B = true ->
  compatible op A B = true ->
  exists r h' P, method op a b h = Done r h' /\ view h' r = Some P /\ wf P = true.
Proof.
  intros Ha Hb HA HB Hop. rewrite (method_run op h a b A B), Hop by assumption.
  eexists _, _, _. split; [reflexivity|]. split; [apply view_ext_new|].
  destruct op; auto using wf_merge_value, wf_product_value.
Qed.

(** So is the matrix read from a file of the format. *)
Lemma from_text_result_wf (path : string) h R C (ts : list (Z * Z * Z)) :
  exists b h' P,
    from_text path (matrix_text R C ts) h = Done b h' /\ view h' b = Some P /\ wf P = true.
Proof.
  eexists _, _, _. split; [apply from_text_run|]. split; [apply view_ext_new|].
  apply set_all_value_wf. reflexivity.
Qed.

End Operations.

(** C6: [add] and [subtract] fail with the dimension error exactly when the
    operands differ in [row_count] or [col_count], [multiply] exactly when
    [A.col_count != B.row_count]; on matching dimensions each operation
    returns a matrix. *)
Theorem dimension_mismatch (op : operation) (h : heap) (a b : ref) (A B : matrix) :
  view h a = Some A -> view h b = Some B ->
  wf A = true -> wf B = true ->
  (method op a b h = Raised (mismatch op) h <->
   match op with
   | Addition | Subtraction => m_rows A <> m_rows B \/ m_cols A <> m_cols B
   | Multiplication => m_cols A <> m_rows B
   end) /\
  ((exists r h', method op a b h = Done r h') <->
   match op with
   | Addition | Subtraction => m_rows A = m_rows B /\ m_cols A = m_cols B
   | Multiplication => m_cols A = m_rows B
   end).
Proof.
  intros Ha Hb HA HB. rewrite (method_run op h a b A B) by assumption.
  rewrite <- compatible_spec.
  destruct (compatible op A B) eqn:E.
  - split; split.
    + discriminate.
    + intros H. exfalso. apply compatible_spec in E.
      destruct op; simpl in *; lia.
    + reflexivity.
    + intros _. now eexists _, _.
  - split; split.
    + intros _. destruct op; simpl in E.
      * apply andb_false_iff in E as [E%Z.eqb_neq | E%Z.eqb_neq]; auto.
      * apply andb_false_iff in E as [E%Z.eqb_neq | E%Z.eqb_neq]; auto.
      * now apply Z.eqb_neq.
    + reflexivity.
    + intros (r & h' & H). discriminate.
    + discriminate.
Qed.

Lemma dimension_mismatch_witness :
  (method Multiplication 0%nat 1%nat demo_heap = Raised (mismatch Multiplication) demo_heap
   <-> m_cols demo_A <> m_rows demo_B) /\
  ((exists r h', method Multiplication 0%nat 1%nat demo_heap = Done r h')
   <-> m_cols demo_A = m_rows demo_B).
Proof.
  apply (dimension_mismatch Multiplication demo_heap 0%nat 1%nat demo_A demo_B);
    reflexivity.
Defined.

(** C9: on operands of compatible dimensions, [add], [subtract] and
    [multiply] return a new matrix and leave the store they found as it was:
    every object and dictionary, the operands among them, keeps its fields
    and entries, [to_string] of each operand gives the same text before and
    after, and the result and its dictionary are newly allocated. *)
Theorem operands_unchanged (op : operation) (h : heap) (a b : ref) (A B : matrix) :
  view h a = Some A -> view h b = Some B ->
  wf A = true -> wf B = true ->
  compatible op A B = true ->
  exists r h',
    method op a b h = Done r h' /\
    unchanged h h' /\
    fresh_matrix h h' r /\
    view h' a = Some A /\ view h' b = Some B /\
    (exists s, to_string a h = Done s h /\ to_string a h' = Done s h') /\
    (exists s, to_string b h = Done s h /\ to_string b h' = Done s h').
Proof.
  intros Ha Hb HA HB Hop.
  rewrite (method_run op h a b A B), Hop by assumption.
  eexists _, _. split; [reflexivity|].
  split; [apply ext_unchanged|]. split; [apply ext_fresh|].
  split; [now apply view_ext_old|]. split; [now apply view_ext_old|].
  split.
  - exists (text_of A). split; apply to_string_run;
      auto using wf_canonical, view_ext_old.
  - exists (text_of B). split; apply to_string_run;
      auto using wf_canonical, view_ext_old.
Qed.

Lemma operands_unchanged_witness :
  exists r h',
    method Addition 0%nat 1%nat demo_heap = Done r h' /\
    unchanged demo_heap h' /\
    fresh_matrix demo_heap h' r /\
    view h' 0%nat = Some demo_A /\ view h' 1%nat = Some demo_B /\
    (exists s, to_string 0%nat demo_heap = Done s demo_heap /\ to_string 0%nat h' = Done s h') /\
    (exists s, to_string 1%nat demo_heap = Done s demo_heap /\ to_string 1%nat h' = Done s h').
Proof.
  apply (operands_unchanged Addition demo_heap 0%nat 1%nat demo_A demo_B); reflexivity.
Defined.

(** C10: [get_element] returns in the store it was called in: whatever the
    coordinate, in range or not, it adds no entry and changes no dimension. *)
Theorem get_element_reads_only (h : heap) (a : ref) (m : matrix) (r c : Z) :
  view h a = Some m ->
  get_element a r c h = Done (get_value m r c) h /\ view h a = Some m.
Proof. intros H. split; [now apply get_element_run | assumption]. Qed.

Lemma get_element_reads_only_witness :
  get_element 0%nat 50 (-3) demo_heap = Done (get_value demo_A 50 (-3)) demo_heap /\
  view demo_heap 0%nat = Some demo_A.
Proof. apply (get_element_reads_only demo_heap 0%nat demo_A 50 (-3)); reflexivity. Defined.

(** C4: round trip.  The text that [to_string] returns for a matrix, read
    back by [from_file], gives a matrix with the same [row_count], the same
    [col_count] and the same entries, hence the same [get(r,c)] at every
    coordinate. *)
Theorem to_string_from_file_roundtrip
    (h : heap) (a : ref) (m : matrix)
    (fs : string -> option string) (path : string) (h0 : heap) :
  view h a = Some m -> wf m = true ->
  exists text,
    to_string a h = Done text h /\
    (fs path = Some text ->
     exists b h1,
       from_file fs path h0 = Done b h1 /\
       view h1 b = Some m /\
       forall r c, exists x,
         get_element a r c h = Done x h /\ get_element b r c h1 = Done x h1).
Proof.
  intros Hv Hm. exists (text_of m). split.
  - apply to_string_run; auto using wf_canonical.
  - intros Hfs. rewrite text_of_triples in Hfs.
    eexists _, _. split; [exact (from_file_run fs path h0 _ _ _ Hfs)|].
    rewrite set_all_triples_wf by assumption.
    split; [apply view_ext_new|].
    intros r c. exists (get_value m r c). split.
    + now apply get_element_run.
    + apply get_element_new.
Qed.

Lemma to_string_from_file_roundtrip_witness :
  exists text,
    to_string 0%nat demo_heap = Done text demo_heap /\
    (demo_fs (text_of demo_A) "m.txt" = Some text ->
     exists b h1,
       from_file (demo_fs (text_of demo_A)) "m.txt" empty_heap = Done b h1 /\
       view h1 b = Some demo_A /\
       forall r c, exists x,
         get_element 0%nat r c demo_heap = Done x demo_heap /\
         get_element b r c h1 = Done x h1).
Proof.
  apply (to_string_from_file_roundtrip demo_heap 0%nat demo_A
           (demo_fs (text_of demo_A)) "m.txt" empty_heap); reflexivity.
Defined.

Section TextShape.

Lemma matrix_text_trimmed R C (ts : list (Z * Z * Z)) : trimmed (matrix_text R C ts).
Proof.
  unfold matrix_text. apply trimmed_join.
  destruct (triple_lines_ok ts) as [Ht _].
  repeat constructor; try assumption; apply header_trimmed.
Qed.

Lemma text_of_set_all ts R C :
  text_of (set_all_value ts (mkMatrix [] R C))
  = matrix_text (final_rows R ts) (final_cols C ts) (insertion_entries ts).
Proof.
  rewrite text_of_triples.
  destruct (set_all_rows ts (mkMatrix [] R C)) as [Er Ec]. cbn [m_rows m_cols] in Er, Ec.
  rewrite Er, Ec. f_equal.
  pose proof (set_all_elements ts R C) as Ee.
  destruct (set_all_value ts (mkMatrix [] R C)) as [es rs cs]. cbn [m_elements] in Ee.
  subst es. apply triples_keyed.
Qed.

End TextShape.

(** C5: the text of a matrix built by [SparseMatrix(R, C)] and calls of
    [set_element] is the two header lines followed by one line per
    coordinate that was set (a value 0 included), in the order in which the
    coordinates were first set and each with the value set last; lines are
    separated by line feeds and the text has no blank end. *)
Theorem to_string_insertion_order (h0 : heap) (R C : Z) (ts : list (Z * Z * Z)) :
  exists text h',
    (x <- init R C ;; set_all x ts ;; to_string x) h0 = Done text h' /\
    text = matrix_text (final_rows R ts) (final_cols C ts) (insertion_entries ts) /\
    Py.strip text = text.
Proof.
  eexists _, _. split; [|split; [reflexivity|]].
  - eapply bind_Done; [apply init_run|].
    eapply bind_Done; [apply set_all_run|].
    rewrite (to_string_run _ _ (set_all_value ts (mkMatrix [] R C))).
    + now rewrite text_of_set_all.
    + apply view_ext_new.
    + apply wf_canonical, set_all_value_wf. reflexivity.
  - apply trimmed_strip, matrix_text_trimmed.
Qed.

(** An overwritten coordinate keeps its place and a zero is printed. *)
Example to_string_overwrite :
  match (x <- init 2 2 ;; set_all x [(0, 0, 1); (1, 1, 0); (0, 0, 7)] ;; to_string x)
          empty_heap with
  | Done text _ =>
      text = "rows=2" +:+ nl +:+ "cols=2" +:+ nl +:+ "(0, 0, 7)" +:+ nl +:+ "(1, 1, 0)"
  | _ => False
  end.
Proof. vm_compute. reflexivity. Qed.

Section Header.

Lemma header_int_field (line : string) (h : heap) :
  header_int line h
  = match header_field line with
    | None => Raised (IndexError ListIndexOutOfRange) h
    | Some field =>
        match Py.int field with
        | Some n => Done n h
        | None => Raised (ValueError (InvalidLiteral field)) h
        end
    end.
Proof.
  unfold header_int, header_field.
  destruct (Py.split "=" (Py.strip line)) as [|f1 [|f2 fs]]; try reflexivity.
  now destruct (Py.int f2).
Qed.

(** A header line has no value exactly when it holds no ['=']. *)
Lemma header_field_None (line : string) :
  header_field line = None <-> Py.all_chars (is_not "=") (Py.strip line) = true.
Proof.
  unfold header_field. split.
  - destruct (Py.all_chars (is_not "=") (Py.strip line)) eqn:E; [reflexivity|].
    destruct (split_with_sep _ _ E) as (f1 & f2 & fs & ->). discriminate.
  - intros H. now rewrite split_no_sep.
Qed.

End Header.

(** C7, as the code has it: a text of fewer than two lines fails with a
    [ValueError] that names the file.  Otherwise the two header lines are
    examined in order and the first failure ends the parsing: a line without
    ['='] fails with [IndexError], a line whose text between its first and
    second ['='] is no integer literal fails with [ValueError] carrying that
    text.  Line 2 is examined only when line 1 gave an integer, so with a
    defect in each line the error is that of line 1. *)
Theorem malformed_header (path text : string) (h : heap) :
  ((length (Py.readlines text) < 2)%nat ->
   from_text path text h
   = Raised (ValueError (Msg ("File " +:+ path
                              +:+ " does not contain enough lines for matrix dimensions."))) h) /\
  (forall l1 l2 rest, Py.readlines text = l1 :: l2 :: rest ->
     (Py.all_chars (is_not "=") (Py.strip l1) = true ->
      from_text path text h = Raised (IndexError ListIndexOutOfRange) h) /\
     (forall f, header_field l1 = Some f -> Py.int f = None ->
      from_text path text h = Raised (ValueError (InvalidLiteral f)) h) /\
     (forall f R, header_field l1 = Some f -> Py.int f = Some R ->
        (Py.all_chars (is_not "=") (Py.strip l2) = true ->
         from_text path text h = Raised (IndexError ListIndexOutOfRange) h) /\
        (forall g, header_field l2 = Some g -> Py.int g = None ->
         from_text path text h = Raised (ValueError (InvalidLiteral g)) h))).
Proof.
  split.
  - intros H%Nat.ltb_lt. unfold from_text. now rewrite H.
  - intros l1 l2 rest E. unfold from_text. rewrite E.
    cbn [length Nat.ltb Nat.leb nth].
    split; [|split].
    + intros H%header_field_None. unfold bind at 1.
      now rewrite header_int_field, H.
    + intros f Hf Hi. unfold bind at 1. now rewrite header_int_field, Hf, Hi.
    + intros f R Hf Hi. split.
      * intros H%header_field_None. unfold bind at 1.
        rewrite header_int_field, Hf, Hi. unfold bind at 1.
        now rewrite header_int_field, H.
      * intros g Hg Hj. unfold bind at 1.
        rewrite header_int_field, Hf, Hi. unfold bind at 1.
        now rewrite header_int_field, Hg, Hj.
Qed.

Lemma malformed_header_witness :
  from_text "m.txt" text_no_integer_2 empty_heap
  = Raised (ValueError (InvalidLiteral "x")) empty_heap.
Proof.
  exact (proj2 (proj2 (proj2 (proj2 (malformed_header "m.txt" text_no_integer_2 empty_heap)
                         ("rows=3" +:+ nl) "cols=x" [] eq_refl))
                 "3" 3 eq_refl eq_refl) "x" eq_refl eq_refl).
Defined.

(** C7, counterexample: a first line that is not [rows=<integer>] is
    accepted when it holds some integer after its first ['=']; and a header
    that fails on line 1 raises the same error as one that fails on line 2,
    so the error does not tell the line. *)
Lemma header_error_does_not_tell_line :
  from_text "m.txt" text_other_names empty_heap
  = Done 0%nat (mkHeap [[]] [mkSparseMatrix 0 2 3]) /\
  from_text "m.txt" text_no_equals_1 empty_heap
  = from_text "m.txt" text_no_equals_2 empty_heap /\
  from_text "m.txt" text_no_equals_1 empty_heap
  = Raised (IndexError ListIndexOutOfRange) empty_heap /\
  from_text "m.txt" text_no_integer_1 empty_heap
  = from_text "m.txt" text_no_integer_2 empty_heap /\
  from_text "m.txt" text_no_integer_1 empty_heap
  = Raised (ValueError (InvalidLiteral "x")) empty_heap.
Proof. repeat split. Qed.

(** With a defect in each header line, the error is that of line 1. *)
Example header_defects_in_both_lines :
  from_text "m.txt" ("rows=x" +:+ nl +:+ "cols") empty_heap
  = Raised (ValueError (InvalidLiteral "x")) empty_heap /\
  from_text "m.txt" ("rows" +:+ nl +:+ "cols=x") empty_heap
  = Raised (IndexError ListIndexOutOfRange) empty_heap.
Proof. split; reflexivity. Qed.

(** C8, as the code has it: a call of [set_element] with a negative row or
    column index, and an entry line with one, is not rejected: the call
    returns, the value is stored under the key of the coordinate and
    [get_element] returns it; a dimension that is not negative stays as it
    was under a negative index. *)
Theorem negative_index_stored
    (h : heap) (a : ref) (m : matrix) (r c v : Z)
    (path : string) (h0 : heap) (R C : Z) :
  view h a = Some m ->
  r < 0 \/ c < 0 ->
  (exists h' m',
      set_element a r c v h = Done tt h' /\
      view h' a = Some m' /\
      assoc_get (m_elements m') (key_of r c) = Some v /\
      get_element a r c h' = Done v h' /\
      (r < 0 -> 0 <= m_rows m -> m_rows m' = m_rows m) /\
      (c < 0 -> 0 <= m_cols m -> m_cols m' = m_cols m)) /\
  (exists b h1,
      from_text path (matrix_text R C [(r, c, v)]) h0 = Done b h1 /\
      get_element b r c h1 = Done v h1).
Proof.
  intros Hv _. split.
  - exists (put h a (set_value m r c v)), (set_value m r c v).
    assert (Hv' : view (put h a (set_value m r c v)) a = Some (set_value m r c v))
      by (eapply view_put, Hv).
    split; [apply (set_element_run _ _ m), Hv|]. split; [assumption|].
    split; [cbn [set_value m_elements]; now rewrite assoc_get_set, String.eqb_refl|].
    split; [rewrite (get_element_run _ _ _ _ _ Hv'), get_value_set, !Z.eqb_refl; reflexivity|].
    cbn [set_value m_rows m_cols]. split; intros ? ?.
    + destruct (Z.geb_spec r (m_rows m)); [lia | reflexivity].
    + destruct (Z.geb_spec c (m_cols m)); [lia | reflexivity].
  - eexists _, _. split; [apply from_text_run|].
    rewrite get_element_new. cbn [set_all_value fold_left].
    now rewrite get_value_set, !Z.eqb_refl.
Qed.

Lemma negative_index_stored_witness :
  (exists h' m',
      set_element 0%nat (-1) 0 5 demo_heap = Done tt h' /\
      view h' 0%nat = Some m' /\
      assoc_get (m_elements m') (key_of (-1) 0) = Some 5 /\
      get_element 0%nat (-1) 0 h' = Done 5 h' /\
      (-1 < 0 -> 0 <= m_rows demo_A -> m_rows m' = m_rows demo_A) /\
      (0 < 0 -> 0 <= m_cols demo_A -> m_cols m' = m_cols demo_A)) /\
  (exists b h1,
      from_text "m.txt" (matrix_text 2 2 [(-1, 0, 5)]) empty_heap = Done b h1 /\
      get_element b (-1) 0 h1 = Done 5 h1).
Proof.
  apply (negative_index_stored demo_heap 0%nat demo_A (-1) 0 5 "m.txt" empty_heap 2 2);
    [reflexivity | left; reflexivity].
Defined.

(** C8, counterexample: a negative row index is stored, by [set_element]
    and by [from_file] alike, and no error is raised. *)
Lemma negative_index_accepted :
  (x <- init 2 2 ;; set_element x (-1) 0 5 ;; get_element x (-1) 0) empty_heap
  = Done 5 (mkHeap [[("-1,0", 5)]] [mkSparseMatrix 0 2 2]) /\
  from_text "m.txt" text_negative_row empty_heap
  = Done 0%nat (mkHeap [[("-1,0", 5)]] [mkSparseMatrix 0 2 2]).
Proof. split; reflexivity. Qed.

(** * Further properties of the class *)

Section SetElement.

Implicit Types (h : heap) (a b : ref) (m : matrix).

Lemma put_same h a m : view h a = Some m -> put h a m = h.
Proof.
  intros (o & Ho & Hd & Hr & Hc)%view_Some. unfold put. rewrite Ho.
  rewrite (list_insert_id _ _ _ Hd), list_insert_id; [now destruct h|].
  rewrite Ho. f_equal. destruct o; simpl in *. now subst.
Qed.

Lemma set_all_put h a m (ts : list (Z * Z * Z)) :
  view h a = Some m ->
  set_all a ts h = Done tt (put h a (set_all_value ts m)).
Proof.
  revert h m. induction ts as [|[[r c] v] ts IH]; intros h m Hv.
  - simpl. unfold ret. now rewrite put_same.
  - unfold set_all. cbn [for_each].
    eapply bind_Done; [apply (set_element_run _ _ m), Hv|].
    fold (set_all a ts). rewrite (IH _ (set_value m r c v)) by (eapply view_put, Hv).
    now rewrite (put_put _ _ m).
Qed.

Lemma view_put_other h a b m oa ob mb :
  objects h !! a = Some oa -> objects h !! b = Some ob ->
  a <> b -> elements oa <> elements ob ->
  view h b = Some mb ->
  view (put h a m) b = Some mb /\ objects (put h a m) !! b = Some ob.
Proof.
  intros Ha Hb Hab He (ob' & Hb' & Hd & Hr & Hc)%view_Some.
  assert (ob' = ob) by congruence. subst ob'.
  unfold put. rewrite Ha. split.
  - apply view_Some. exists ob. cbn [objects dicts].
    rewrite !list_lookup_insert_ne by assumption. auto.
  - cbn [objects]. now rewrite list_lookup_insert_ne.
Qed.

Lemma assoc_get_present (d : dict) (k : string) :
  (exists v, assoc_get d k = Some v) <-> k ∈ map fst d.
Proof.
  destruct (assoc_get d k) eqn:E.
  - split; [|eauto]. intros _. destruct (decide (k ∈ map fst d)) as [|H]; [assumption|].
    apply assoc_get_None in H. congruence.
  - split; [intros [v [=]]|]. intros H. now apply assoc_get_None in E.
Qed.

End SetElement.

(** X1: [set_element(r, c, v)] changes what [get_element] returns at
    [(r, c)] only: every other coordinate of the same matrix reads as
    before. *)
Theorem set_element_keeps_other_coordinates
    (h : heap) (a : ref) (m : matrix) (r c v r' c' : Z) :
  view h a = Some m ->
  coord_eqb (r, c) (r', c') = false ->
  exists h' x,
    set_element a r c v h = Done tt h' /\
    get_element a r' c' h = Done x h /\
    get_element a r' c' h' = Done x h'.
Proof.
  intros Hv Hne. exists (put h a (set_value m r c v)), (get_value m r' c').
  split; [apply (set_element_run _ _ m), Hv|].
  split; [apply (get_element_run _ _ m), Hv|].
  rewrite (get_element_run _ _ (set_value m r c v)) by (eapply view_put, Hv).
  rewrite get_value_set. unfold coord_eqb in Hne. simpl in Hne. now rewrite Hne.
Qed.

Lemma set_element_keeps_other_coordinates_witness :
  exists h' x,
    set_element 0%nat 12 3 7 demo_heap = Done tt h' /\
    get_element 0%nat 1 23 demo_heap = Done x demo_heap /\
    get_element 0%nat 1 23 h' = Done x h'.
Proof.
  apply (set_element_keeps_other_coordinates demo_heap 0%nat demo_A 12 3 7 1 23);
    reflexivity.
Defined.

(** X2: [set_element] on one matrix leaves every other matrix object with
    its own dictionary as it was: same fields, same entries. *)
Theorem set_element_keeps_other_objects
    (h : heap) (a b : ref) (oa ob : SparseMatrix) (m mb : matrix) (r c v : Z) :
  objects h !! a = Some oa -> objects h !! b = Some ob ->
  view h a = Some m -> view h b = Some mb ->
  Nat.eqb a b = false -> Nat.eqb (elements oa) (elements ob) = false ->
  exists h',
    set_element a r c v h = Done tt h' /\
    objects h' !! b = Some ob /\ view h' b = Some mb.
Proof.
  intros Ha Hb Hva Hvb Hab%Nat.eqb_neq He%Nat.eqb_neq.
  exists (put h a (set_value m r c v)).
  split; [apply (set_element_run _ _ m), Hva|].
  destruct (view_put_other h a b (set_value m r c v) oa ob mb) as [H1 H2]; auto.
Qed.

Lemma set_element_keeps_other_objects_witness :
  exists h',
    set_element 0%nat 5 5 9 demo_heap = Done tt h' /\
    objects h' !! 1%nat = Some (mkSparseMatrix 1 2 2) /\ view h' 1%nat = Some demo_B.
Proof.
  apply (set_element_keeps_other_objects demo_heap 0%nat 1%nat
           (mkSparseMatrix 0 2 2) (mkSparseMatrix 1 2 2) demo_A demo_B 5 5 9);
    reflexivity.
Defined.

(** X3: the exact effect of [set_element(r, c, v)]: [rows] becomes
    [max(rows, r + 1)] and [cols] becomes [max(cols, c + 1)]; a coordinate
    that is stored keeps its place among the keys and the number of entries,
    a coordinate that is not stored is added as the last entry. *)
Theorem set_element_effect (h : heap) (a : ref) (m : matrix) (r c v : Z) :
  view h a = Some m ->
  exists h' m',
    set_element a r c v h = Done tt h' /\ view h' a = Some m' /\
    m_rows m' = Z.max (m_rows m) (r + 1) /\
    m_cols m' = Z.max (m_cols m) (c + 1) /\
    match assoc_get (m_elements m) (key_of r c) with
    | Some _ => map fst (m_elements m') = map fst (m_elements m)
    | None => m_elements m' = m_elements m ++ [(key_of r c, v)]
    end.
Proof.
  intros Hv. exists (put h a (set_value m r c v)), (set_value m r c v).
  split; [apply (set_element_run _ _ m), Hv|].
  split; [eapply view_put, Hv|].
  cbn [set_value m_rows m_cols m_elements]. split; [|split].
  - destruct (Z.geb_spec r (m_rows m)); lia.
  - destruct (Z.geb_spec c (m_cols m)); lia.
  - destruct (assoc_get (m_elements m) (key_of r c)) eqn:E.
    + apply assoc_set_keys_present, assoc_get_present. eauto.
    + apply assoc_set_absent. now apply assoc_get_None.
Qed.

Lemma set_element_effect_witness :
  exists h' m',
    set_element 0%nat 4 0 8 demo_heap = Done tt h' /\ view h' 0%nat = Some m' /\
    m_rows m' = Z.max (m_rows demo_A) (4 + 1) /\
    m_cols m' = Z.max (m_cols demo_A) (0 + 1) /\
    match assoc_get (m_elements demo_A) (key_of 4 0) with
    | Some _ => map fst (m_elements m') = map fst (m_elements demo_A)
    | None => m_elements m' = m_elements demo_A ++ [(key_of 4 0, 8)]
    end.
Proof. apply (set_element_effect demo_heap 0%nat demo_A 4 0 8); reflexivity. Defined.

(** X4: the invariant of the class.  On a matrix whose keys are distinct
    keys [f"{r},{c}"] of coordinates below [rows] and [cols], any sequence
    of [set_element] calls returns and leaves such a matrix; the constructor
    gives one for any dimensions. *)
Theorem set_element_keeps_invariant
    (h : heap) (a : ref) (m : matrix) (ts : list (Z * Z * Z)) (h0 : heap) (R C : Z) :
  view h a = Some m -> wf m = true ->
  (exists h' m', set_all a ts h = Done tt h' /\ view h' a = Some m' /\ wf m' = true) /\
  (exists x h1 m1, init R C h0 = Done x h1 /\ view h1 x = Some m1 /\ wf m1 = true /\
                   m_elements m1 = [] /\ m_rows m1 = R /\ m_cols m1 = C).
Proof.
  intros Hv Hm. split.
  - eexists _, _. split; [apply (set_all_put _ _ m), Hv|].
    split; [eapply view_put, Hv | now apply set_all_value_wf].
  - eexists _, _, _. split; [apply init_run|]. split; [apply view_ext_new|].
    repeat split.
Qed.

Lemma set_element_keeps_invariant_witness :
  (exists h' m', set_all 0%nat [(3, -2, 1); (0, 0, 0)] demo_heap = Done tt h' /\
                 view h' 0%nat = Some m' /\ wf m' = true) /\
  (exists x h1 m1, init (-4) 0 empty_heap = Done x h1 /\ view h1 x = Some m1 /\
                   wf m1 = true /\ m_elements m1 = [] /\ m_rows m1 = -4 /\ m_cols m1 = 0).
Proof.
  apply (set_element_keeps_invariant demo_heap 0%nat demo_A [(3, -2, 1); (0, 0, 0)]
           empty_heap (-4) 0); reflexivity.
Defined.

Section MergedEntries.

Implicit Types (d l : dict) (m A B : matrix) (k : string).

Lemma existsb_key k (ks : list string) : existsb (String.eqb k) ks = true <-> k ∈ ks.
Proof.
  rewrite existsb_exists, list_elem_of_In. split.
  - intros (x & Hx & ->%String.eqb_eq). assumption.
  - intros H. exists k. split; [assumption | apply String.eqb_refl].
Qed.

(** Assigning to a key that is present changes the value in place. *)
Lemma assoc_set_present d k v :
  NoDup (map fst d) -> k ∈ map fst d ->
  assoc_set d k v = map (fun e => if String.eqb (fst e) k then (k, v) else e) d.
Proof.
  induction d as [|[k0 v0] d IH]; intros Hd Hin.
  - now apply elem_of_nil in Hin.
  - cbn [map fst] in Hd, Hin. apply NoDup_cons in Hd as [Hk0 Hd].
    cbn [assoc_set map fst]. destruct (String.eqb_spec k0 k) as [->|Hne].
    + f_equal. rewrite <- (map_id d) at 1. apply map_ext_in. intros [k' v'] Hin'.
      simpl. destruct (String.eqb_spec k' k) as [->|]; [|reflexivity].
      exfalso. apply Hk0, elem_of_map. exists (k, v'). split; [reflexivity|].
      now apply list_elem_of_In.
    + f_equal. apply IH; [assumption|].
      apply elem_of_cons in Hin as [->|]; [congruence | assumption].
Qed.

Lemma fresh_entries_cons_old d k w l :
  k ∈ map fst d -> fresh_entries d ((k, w) :: l) = fresh_entries d l.
Proof.
  intros H. unfold fresh_entries. cbn [List.filter fst].
  apply existsb_key in H. now rewrite H.
Qed.

Lemma fresh_entries_cons_new d k w l :
  k ∉ map fst d -> fresh_entries d ((k, w) :: l) = (k, w) :: fresh_entries d l.
Proof.
  intros H. unfold fresh_entries. cbn [List.filter fst].
  destruct (existsb (String.eqb k) (map fst d)) eqn:E; [|reflexivity].
  now apply existsb_key in E.
Qed.

Lemma fresh_entries_more d k v l :
  k ∉ map fst l -> fresh_entries (d ++ [(k, v)]) l = fresh_entries d l.
Proof.
  intros H. unfold fresh_entries. apply List.filter_ext_in. intros [k' w] Hin.
  cbn [fst]. rewrite map_app, existsb_app. cbn [map fst existsb].
  destruct (String.eqb_spec k' k) as [->|]; [|now rewrite !orb_false_r].
  exfalso. apply H, elem_of_map. exists (k, w). split; [reflexivity|].
  now apply list_elem_of_In.
Qed.

Lemma assoc_get_elem d k v :
  NoDup (map fst d) -> In (k, v) d -> assoc_get d k = Some v.
Proof.
  induction d as [|[k0 v0] d IH]; intros Hd Hin; [destruct Hin|].
  cbn [map fst] in Hd. apply NoDup_cons in Hd as [Hk0 Hd]. cbn [assoc_get].
  destruct Hin as [[= -> ->] | Hin].
  - now rewrite String.eqb_refl.
  - destruct (String.eqb_spec k0 k) as [->|]; [|now apply IH].
    exfalso. apply Hk0, elem_of_map. exists (k, v). split; [reflexivity|].
    now apply list_elem_of_In.
Qed.

(** The entries after the second loop of [add] and [subtract]. *)
Lemma merge_fold_entries (f : Z -> Z -> Z) l m :
  NoDup (map fst l) -> NoDup (map fst (m_elements m)) ->
  in_range (m_rows m) (m_cols m) l ->
  m_elements (fold_left (merge_step f) l m) = merged_entries f (m_elements m) l.
Proof.
  revert m. induction l as [|[k w] l IH]; intros m Hl Hm Hr.
  - unfold merged_entries. cbn [fold_left fresh_entries List.filter map].
    rewrite app_nil_r. rewrite <- (map_id (m_elements m)) at 1.
    apply map_ext. now intros [k v].
  - apply in_range_cons in Hr as [(r0 & c0 & -> & Hr0 & Hc0) Hr].
    cbn [map fst] in Hl. apply NoDup_cons in Hl as [Hk Hl].
    apply assoc_get_None in Hk.
    cbn [fold_left]. unfold merge_step at 2. cbn [fst snd]. rewrite coords_of_key.
    rewrite set_value_in_range by assumption.
    set (v1 := f (get_value m r0 c0) w).
    rewrite IH; cbn [m_elements m_rows m_cols];
      [|assumption | now apply assoc_set_NoDup | assumption].
    unfold merged_entries.
    destruct (decide (key_of r0 c0 ∈ map fst (m_elements m))) as [Hin|Hnin].
    + rewrite assoc_set_present by assumption.
      rewrite fresh_entries_cons_old by assumption.
      assert (Efresh : fresh_entries
                         (map (fun e => if String.eqb (fst e) (key_of r0 c0)
                                        then (key_of r0 c0, v1) else e) (m_elements m)) l
                       = fresh_entries (m_elements m) l).
      { unfold fresh_entries. apply List.filter_ext. intros e. do 2 f_equal.
        rewrite map_map. apply map_ext. intros [k' v']. cbn [fst].
        destruct (String.eqb_spec k' (key_of r0 c0)) as [->|]; reflexivity. }
      rewrite Efresh. f_equal. rewrite map_map. apply map_ext_in. intros [k' v'] Hin'.
      cbn [fst snd assoc_get].
      destruct (String.eqb_spec k' (key_of r0 c0)) as [->|Hne].
      * cbn [fst snd]. rewrite String.eqb_refl, Hk. unfold v1, get_value.
        now rewrite (assoc_get_elem _ _ _ Hm Hin').
      * cbn [fst snd]. destruct (String.eqb_spec (key_of r0 c0) k'); [congruence|].
        reflexivity.
    + rewrite assoc_set_absent by assumption.
      rewrite fresh_entries_cons_new by assumption.
      rewrite fresh_entries_more by (now apply assoc_get_None).
      rewrite map_app. cbn [map fst snd]. rewrite Hk, <- app_assoc. cbn [app].
      f_equal.
      * apply map_ext_in. intros [k' v'] Hin'. cbn [fst snd assoc_get].
        destruct (String.eqb_spec (key_of r0 c0) k') as [E|]; [|reflexivity].
        exfalso. apply Hnin, elem_of_map. exists (k', v'). split; [now rewrite E|].
        now apply list_elem_of_In.
      * do 2 f_equal. unfold v1, get_value.
        apply assoc_get_None in Hnin. now rewrite Hnin.
Qed.

(** The entries of the result of [add] and [subtract]. *)
Lemma merge_value_entries f A B :
  wf A = true -> wf B = true -> m_rows A = m_rows B -> m_cols A = m_cols B ->
  merge_value f A B
  = mkMatrix (merged_entries f (m_elements A) (m_elements B)) (m_rows A) (m_cols A).
Proof.
  intros HA HB Hr Hc.
  destruct (merge_value_spec f A B HA HB Hr Hc) as (E1 & E2 & _).
  assert (E3 : m_elements (merge_value f A B)
               = merged_entries f (m_elements A) (m_elements B)).
  { unfold merge_value. rewrite copy_value by (assumption || lia).
    rewrite merge_fold_entries; cbn [m_elements m_rows m_cols];
      [reflexivity | now apply wf_NoDup | now apply wf_NoDup |].
    rewrite <- Hr, <- Hc, !Z.max_id, Hr, Hc. now apply wf_in_range. }
  destruct (merge_value f A B); cbn in *. now subst.
Qed.

End MergedEntries.

Section Chains.

Implicit Types (h : heap) (a b : ref) (A B : matrix).

(** One operation on compatible operands: the result is the next object of
    the store. *)
Lemma method_step (op : operation) h a b A B :
  view h a = Some A -> view h b = Some B -> wf A = true -> wf B = true ->
  compatible op A B = true ->
  method op a b h = Done (length (objects h)) (ext h (result_value op A B)) /\
  wf (result_value op A B) = true.
Proof.
  intros Ha Hb HA HB Hop. split.
  - rewrite (method_run op h a b A B), Hop by assumption. now destruct op.
  - destruct op; cbn [result_value]; auto using wf_merge_value, wf_product_value.
Qed.

Lemma merge_value_dims f A B :
  wf A = true -> wf B = true -> m_rows A = m_rows B -> m_cols A = m_cols B ->
  m_rows (merge_value f A B) = m_rows A /\ m_cols (merge_value f A B) = m_cols A.
Proof. intros HA HB Hr Hc. now destruct (merge_value_spec f A B HA HB Hr Hc) as (? & ? & _). Qed.

Lemma merge_value_get f A B r c :
  wf A = true -> wf B = true -> m_rows A = m_rows B -> m_cols A = m_cols B ->
  (forall x, f x 0 = x) ->
  get_value (merge_value f A B) r c = f (get_value A r c) (get_value B r c).
Proof.
  intros HA HB Hr Hc Hf.
  destruct (merge_value_spec f A B HA HB Hr Hc) as (_ & _ & ->).
  set (x := get_value A r c). unfold get_value.
  destruct (assoc_get (m_elements B) (key_of r c)); [reflexivity | now rewrite Hf].
Qed.

Lemma fresh_entries_self (d : dict) : fresh_entries d d = [].
Proof.
  unfold fresh_entries.
  assert (H : forall l, (forall e, In e l -> In e d) ->
                        List.filter (fun e => negb (existsb (String.eqb (fst e)) (map fst d))) l
                        = []).
  { induction l as [|e l IH]; intros Hl; [reflexivity|]. cbn [List.filter].
    assert (E : existsb (String.eqb (fst e)) (map fst d) = true).
    { apply existsb_key, elem_of_map. exists e. split; [reflexivity|].
      apply list_elem_of_In, Hl. now left. }
    rewrite E. apply IH. intros e' He'. apply Hl. now right. }
  now apply H.
Qed.

Lemma product_value_get A B r c :
  wf A = true -> wf B = true ->
  get_value (product_value A B) r c = weighted (m_elements A) (m_elements B) r c.
Proof.
  intros HA HB. unfold product_value.
  set (m0 := mkMatrix [] (m_rows A) (m_cols B)).
  destruct (product_outer_fold (m_rows B) (m_cols A) (m_elements A) (m_elements B) m0)
    as (_ & _ & E); [exact (wf_in_range A HA) | exact (wf_in_range B HB) |].
  rewrite E. reflexivity.
Qed.

Lemma product_value_dims A B :
  wf A = true -> wf B = true ->
  m_rows (product_value A B) = m_rows A /\ m_cols (product_value A B) = m_cols B.
Proof.
  intros HA HB. unfold product_value.
  set (m0 := mkMatrix [] (m_rows A) (m_cols B)).
  destruct (product_outer_fold (m_rows B) (m_cols A) (m_elements A) (m_elements B) m0)
    as (E1 & E2 & _); [exact (wf_in_range A HA) | exact (wf_in_range B HB) |].
  now split.
Qed.

(** The loops of [multiply] are additive in the entries of the right
    operand. *)
Lemma weighted_add lA lB lC lS r c :
  (forall k, total lS k = total lB k + total lC k) ->
  weighted lA lS r c = weighted lA lB r c + weighted lA lC r c.
Proof.
  intros H. induction lA as [|[k1 v1] lA IH]; [reflexivity|].
  cbn [weighted]. rewrite IH. destruct (coords_of k1) as [r1 c1].
  destruct (r =? r1); [rewrite H|]; lia.
Qed.

Lemma total_value A r c :
  wf A = true -> total (m_elements A) (key_of r c) = get_value A r c.
Proof. intros HA. unfold get_value. now rewrite total_get by now apply wf_NoDup. Qed.

Lemma total_not_canonical A k :
  wf A = true -> ~ canonical k -> total (m_elements A) k = 0.
Proof.
  intros HA Hk. apply total_absent. intros Hin.
  destruct (wf_in_range A HA k Hin) as (r & c & -> & _). apply Hk. now exists r, c.
Qed.

End Chains.

(** X5: the storage of the result of [add] and [subtract] on operands of
    equal dimensions: the dimensions of the operands; first every entry of
    the left operand, in its place, with the value of the right operand at
    the same key added (subtracted), zero results included; then the
    entries of the right operand whose key the left operand does not have,
    in their order, with [0 + value] ([0 - value]). *)
Theorem add_subtract_storage (h : heap) (a b : ref) (A B : matrix) :
  view h a = Some A -> view h b = Some B ->
  wf A = true -> wf B = true ->
  m_rows A = m_rows B -> m_cols A = m_cols B ->
  (exists s h1,
      add a b h = Done s h1 /\
      view h1 s = Some (mkMatrix (merged_entries Z.add (m_elements A) (m_elements B))
                                 (m_rows A) (m_cols A))) /\
  (exists d h2,
      subtract a b h = Done d h2 /\
      view h2 d = Some (mkMatrix (merged_entries Z.sub (m_elements A) (m_elements B))
                                 (m_rows A) (m_cols A))).
Proof.
  intros Ha Hb HA HB Hr Hc.
  assert (Hop : (m_rows A =? m_rows B) && (m_cols A =? m_cols B) = true)
    by (rewrite Hr, Hc, !Z.eqb_refl; reflexivity).
  split.
  - destruct (method_step Addition h a b A B) as [E _]; try assumption.
    eexists _, _. split; [exact E|].
    cbn [result_value]. rewrite merge_value_entries by assumption. apply view_ext_new.
  - destruct (method_step Subtraction h a b A B) as [E _]; try assumption.
    eexists _, _. split; [exact E|].
    cbn [result_value]. rewrite merge_value_entries by assumption. apply view_ext_new.
Qed.

Lemma add_subtract_storage_witness :
  (exists s h1,
      add 0%nat 1%nat demo_heap = Done s h1 /\
      view h1 s = Some (mkMatrix (merged_entries Z.add (m_elements demo_A) (m_elements demo_B))
                                 (m_rows demo_A) (m_cols demo_A))) /\
  (exists d h2,
      subtract 0%nat 1%nat demo_heap = Done d h2 /\
      view h2 d = Some (mkMatrix (merged_entries Z.sub (m_elements demo_A) (m_elements demo_B))
                                 (m_rows demo_A) (m_cols demo_A))).
Proof.
  apply (add_subtract_storage demo_heap 0%nat 1%nat demo_A demo_B); reflexivity.
Defined.

(** X6: zeros are kept.  [A.subtract(A)] returns a matrix with the
    dimensions of [A] that stores every coordinate of [A], in the same
    order, each with the value 0. *)
Theorem subtract_self_stores_zeros (h : heap) (a : ref) (A : matrix) :
  view h a = Some A -> wf A = true ->
  exists d h1,
    subtract a a h = Done d h1 /\
    view h1 d = Some (mkMatrix (map (fun e => (fst e, 0)) (m_elements A))
                               (m_rows A) (m_cols A)).
Proof.
  intros Ha HA.
  destruct (method_step Subtraction h a a A A) as [E _]; try assumption.
  { cbn [compatible]. now rewrite !Z.eqb_refl. }
  eexists _, _. split; [exact E|].
  cbn [result_value]. rewrite merge_value_entries by auto.
  unfold merged_entries. rewrite fresh_entries_self. cbn [map]. rewrite app_nil_r.
  replace (map (fun e => (fst e, match assoc_get (m_elements A) (fst e) with
                                 | Some w => snd e - w
                                 | None => snd e
                                 end)) (m_elements A))
    with (map (fun e : string * Z => (fst e, 0)) (m_elements A)); [apply view_ext_new|].
  apply map_ext_in. intros [k v] Hin. cbn [fst snd].
  rewrite (assoc_get_elem _ _ _ (wf_NoDup A HA) Hin). f_equal. lia.
Qed.

Lemma subtract_self_stores_zeros_witness :
  exists d h1,
    subtract 0%nat 0%nat demo_heap = Done d h1 /\
    view h1 d = Some (mkMatrix (map (fun e => (fst e, 0)) (m_elements demo_A))
                               (m_rows demo_A) (m_cols demo_A)).
Proof. apply (subtract_self_stores_zeros demo_heap 0%nat demo_A); reflexivity. Defined.

(** X7: subtraction undoes addition in the values:
    [A.add(B).subtract(B)] reads like [A] at every coordinate and has the
    dimensions of [A]. *)
Theorem add_then_subtract (h : heap) (a b : ref) (A B : matrix) :
  view h a = Some A -> view h b = Some B ->
  wf A = true -> wf B = true ->
  m_rows A = m_rows B -> m_cols A = m_cols B ->
  exists d h2 D,
    (s <- add a b ;; subtract s b) h = Done d h2 /\
    view h2 d = Some D /\ m_rows D = m_rows A /\ m_cols D = m_cols A /\
    forall r c, exists x,
      get_element a r c h = Done x h /\ get_element d r c h2 = Done x h2.
Proof.
  intros Ha Hb HA HB Hr Hc.
  assert (Hop : (m_rows A =? m_rows B) && (m_cols A =? m_cols B) = true)
    by (rewrite Hr, Hc, !Z.eqb_refl; reflexivity).
  destruct (method_step Addition h a b A B) as [E1 HS]; try assumption.
  cbn [result_value] in E1, HS. set (S := merge_value Z.add A B) in *.
  destruct (merge_value_dims Z.add A B HA HB Hr Hc) as [Sr Sc]. fold S in Sr, Sc.
  destruct (method_step Subtraction (ext h S) (length (objects h)) b S B) as [E2 HD];
    try assumption.
  { apply view_ext_new. } { now apply view_ext_old. }
  { cbn [compatible]. rewrite Sr, Sc. exact Hop. }
  cbn [result_value] in E2, HD. set (D := merge_value Z.sub S B) in *.
  destruct (merge_value_dims Z.sub S B) as [Dr Dc]; try assumption;
    [now rewrite Sr | now rewrite Sc |]. fold D in Dr, Dc.
  exists (length (objects (ext h S))), (ext (ext h S) D), D.
  split; [eapply bind_Done; [exact E1 | exact E2]|].
  split; [apply view_ext_new|].
  split; [now rewrite Dr, Sr|]. split; [now rewrite Dc, Sc|].
  intros r c. exists (get_value A r c).
  split; [apply (get_element_run _ _ A), Ha|].
  rewrite get_element_new. f_equal. unfold D.
  rewrite merge_value_get; try assumption;
    [|now rewrite Sr | now rewrite Sc | intros; lia].
  unfold S. rewrite merge_value_get; try assumption; [lia | intros; lia].
Qed.

Lemma add_then_subtract_witness :
  exists d h2 D,
    (s <- add 0%nat 1%nat ;; subtract s 1%nat) demo_heap = Done d h2 /\
    view h2 d = Some D /\ m_rows D = m_rows demo_A /\ m_cols D = m_cols demo_A /\
    forall r c, exists x,
      get_element 0%nat r c demo_heap = Done x demo_heap /\
      get_element d r c h2 = Done x h2.
Proof. apply (add_then_subtract demo_heap 0%nat 1%nat demo_A demo_B); reflexivity. Defined.

(** X8: addition is commutative and associative in the values:
    [A.add(B)] and [B.add(A)] read the same at every coordinate, and so do
    [A.add(B).add(C)] and [A.add(B.add(C))]. *)
Theorem add_commutative_associative
    (h : heap) (a b c : ref) (A B C : matrix) :
  view h a = Some A -> view h b = Some B -> view h c = Some C ->
  wf A = true -> wf B = true -> wf C = true ->
  m_rows A = m_rows B -> m_cols A = m_cols B ->
  m_rows B = m_rows C -> m_cols B = m_cols C ->
  (exists s h1 s' h1',
      add a b h = Done s h1 /\ add b a h = Done s' h1' /\
      forall i j, exists x,
        get_element s i j h1 = Done x h1 /\ get_element s' i j h1' = Done x h1') /\
  (exists t h2 t' h2',
      (s <- add a b ;; add s c) h = Done t h2 /\
      (s <- add b c ;; add a s) h = Done t' h2' /\
      forall i j, exists x,
        get_element t i j h2 = Done x h2 /\ get_element t' i j h2' = Done x h2').
Proof.
  intros Ha Hb Hc HA HB HC Hr1 Hc1 Hr2 Hc2.
  assert (Hab : compatible Addition A B = true)
    by (cbn; rewrite Hr1, Hc1, !Z.eqb_refl; reflexivity).
  assert (Hba : compatible Addition B A = true)
    by (cbn; rewrite Hr1, Hc1, !Z.eqb_refl; reflexivity).
  assert (Hbc : compatible Addition B C = true)
    by (cbn; rewrite Hr2, Hc2, !Z.eqb_refl; reflexivity).
  destruct (method_step Addition h a b A B) as [E1 W1]; try assumption.
  destruct (method_step Addition h b a B A) as [E2 W2]; try assumption.
  destruct (method_step Addition h b c B C) as [E3 W3]; try assumption.
  cbn [result_value method] in *.
  destruct (merge_value_dims Z.add A B) as [D1r D1c]; try assumption.
  destruct (merge_value_dims Z.add B C) as [D3r D3c]; try assumption.
  split.
  - eexists _, _, _, _. split; [exact E1|]. split; [exact E2|].
    intros i j. exists (get_value A i j + get_value B i j).
    rewrite !get_element_new.
    rewrite !merge_value_get by (auto; intros; lia).
    split; f_equal. lia.
  - destruct (method_step Addition (ext h (merge_value Z.add A B))
                (length (objects h)) c (merge_value Z.add A B) C) as [E4 _];
      try assumption.
    { apply view_ext_new. } { now apply view_ext_old. }
    { cbn. rewrite D1r, D1c, Hr1, Hc1, Hr2, Hc2, !Z.eqb_refl. reflexivity. }
    destruct (method_step Addition (ext h (merge_value Z.add B C))
                a (length (objects h)) A (merge_value Z.add B C)) as [E5 _];
      try assumption.
    { now apply view_ext_old. } { apply view_ext_new. }
    { cbn. rewrite D3r, D3c, Hr1, Hc1, !Z.eqb_refl. reflexivity. }
    cbn [result_value method] in *.
    eexists _, _, _, _.
    split; [eapply bind_Done; [exact E1 | exact E4]|].
    split; [eapply bind_Done; [exact E3 | exact E5]|].
    intros i j. exists (get_value A i j + get_value B i j + get_value C i j).
    rewrite !get_element_new.
    rewrite !merge_value_get; auto; try (intros; lia); try congruence.
    split; f_equal. lia.
Qed.

Lemma add_commutative_associative_witness :
  (exists s h1 s' h1',
      add 0%nat 1%nat demo_heap = Done s h1 /\ add 1%nat 0%nat demo_heap = Done s' h1' /\
      forall i j, exists x,
        get_element s i j h1 = Done x h1 /\ get_element s' i j h1' = Done x h1') /\
  (exists t h2 t' h2',
      (s <- add 0%nat 1%nat ;; add s 0%nat) demo_heap = Done t h2 /\
      (s <- add 1%nat 0%nat ;; add 0%nat s) demo_heap = Done t' h2' /\
      forall i j, exists x,
        get_element t i j h2 = Done x h2 /\ get_element t' i j h2' = Done x h2').
Proof.
  apply (add_commutative_associative demo_heap 0%nat 1%nat 0%nat demo_A demo_B demo_A);
    reflexivity.
Defined.

Section Products.

Implicit Types (m A B C : matrix) (l : dict) (k : string).

Lemma canonical_dec k : canonical k \/ ~ canonical k.
Proof.
  destruct (unpack2_ints (Py.split "," k)) as [e|[r c]] eqn:E.
  - right. intros (r & c & ->). rewrite unpack_key in E. discriminate.
  - destruct (String.eqb_spec k (key_of r c)) as [->|Hne]; [left; now exists r, c|].
    right. intros (r' & c' & ->). rewrite unpack_key in E. congruence.
Qed.

Lemma total_merge_add B C k :
  wf B = true -> wf C = true -> m_rows B = m_rows C -> m_cols B = m_cols C ->
  total (m_elements (merge_value Z.add B C)) k
  = total (m_elements B) k + total (m_elements C) k.
Proof.
  intros HB HC Hr Hc. destruct (canonical_dec k) as [(r & c & ->) | Hk].
  - rewrite !total_value by auto using wf_merge_value.
    rewrite merge_value_get by (auto; intros; lia). reflexivity.
  - rewrite !total_not_canonical by auto using wf_merge_value. reflexivity.
Qed.

Lemma product_empty_right lA m :
  fold_left (fun m e1 => fold_left (product_step e1) [] m) lA m = m.
Proof. revert m. induction lA; intros m; [reflexivity | apply IHlA]. Qed.

Lemma elem_of_assoc_set_keys l k0 v k :
  k ∈ map fst (assoc_set l k0 v) <-> k ∈ map fst l \/ k = k0.
Proof.
  induction l as [|[k1 v1] l IH]; cbn [assoc_set map fst].
  - rewrite list_elem_of_singleton, elem_of_nil. tauto.
  - destruct (String.eqb_spec k1 k0) as [->|Hne]; cbn [map fst].
    + rewrite elem_of_cons. tauto.
    + rewrite !elem_of_cons, IH. tauto.
Qed.

(** The keys after the inner loop of [multiply] for one left entry. *)
Lemma product_inner_keys R l m r1 c1 v1 k :
  in_range R (m_cols m) l -> r1 < m_rows m ->
  k ∈ map fst (m_elements (fold_left (product_step (key_of r1 c1, v1)) l m)) <->
  k ∈ map fst (m_elements m) \/
  exists c2, k = key_of r1 c2 /\ key_of c1 c2 ∈ map fst l.
Proof.
  revert m. induction l as [|[k2 v2] l IH]; intros m Hl Hr1.
  - cbn [fold_left map]. split; [auto|]. intros [H | (c2 & _ & H)]; [assumption|].
    now apply elem_of_nil in H.
  - apply in_range_cons in Hl as [(r2 & c2 & -> & _ & Hc2) Hl].
    cbn [fold_left]. unfold product_step at 2. cbn [fst snd]. rewrite !coords_of_key.
    cbn [map fst]. destruct (Z.eqb_spec c1 r2) as [<-|Hne].
    + rewrite set_value_in_range by assumption.
      rewrite IH by assumption. cbn [m_elements].
      rewrite elem_of_assoc_set_keys. split.
      * intros [[H | ->] | (c & -> & H)]; [now left | right | right].
        -- exists c2. split; [reflexivity | apply list_elem_of_here].
        -- exists c. split; [reflexivity | now apply list_elem_of_further].
      * intros [H | (c & -> & H)]; [now left; left|].
        apply elem_of_cons in H as [E | H].
        -- apply key_of_inj in E as [_ ->]. left. now right.
        -- right. now exists c.
    + rewrite IH by assumption. split.
      * intros [H | (c & -> & H)]; [now left|]. right. exists c.
        split; [reflexivity | now apply list_elem_of_further].
      * intros [H | (c & -> & H)]; [now left|].
        apply elem_of_cons in H as [E | H].
        -- apply key_of_inj in E as [E _]. congruence.
        -- right. now exists c.
Qed.

Lemma product_inner_dims R l m r1 c1 v1 :
  in_range R (m_cols m) l -> r1 < m_rows m ->
  m_rows (fold_left (product_step (key_of r1 c1, v1)) l m) = m_rows m /\
  m_cols (fold_left (product_step (key_of r1 c1, v1)) l m) = m_cols m.
Proof.
  intros Hl Hr. destruct (product_inner_fold R l m r1 c1 v1 Hl Hr) as (E1 & E2 & _).
  now split.
Qed.

(** The keys after the loops of [multiply]. *)
Lemma product_outer_keys (R C : Z) (lA lB : dict) m k :
  in_range (m_rows m) C lA -> in_range R (m_cols m) lB ->
  k ∈ map fst (m_elements
                 (fold_left (fun m e1 => fold_left (product_step e1) lB m) lA m)) <->
  k ∈ map fst (m_elements m) \/
  exists r1 c1 c2, k = key_of r1 c2 /\ key_of r1 c1 ∈ map fst lA /\
                   key_of c1 c2 ∈ map fst lB.
Proof.
  revert m. induction lA as [|[k1 v1] lA IH]; intros m HA HB.
  - cbn [fold_left map]. split; [auto|].
    intros [H | (r1 & c1 & c2 & _ & H & _)]; [assumption|].
    now apply elem_of_nil in H.
  - apply in_range_cons in HA as [(r1 & c1 & -> & Hr1 & _) HA].
    cbn [fold_left map fst].
    destruct (product_inner_dims R lB m r1 c1 v1 HB Hr1) as [E1 E2].
    rewrite IH; [|now rewrite E1 | now rewrite E2].
    rewrite (product_inner_keys R) by assumption. split.
    + intros [[H | (c2 & -> & H)] | (r & c & c2 & -> & H1 & H2)].
      * now left.
      * right. exists r1, c1, c2. repeat split; [apply list_elem_of_here | assumption].
      * right. exists r, c, c2. repeat split; [now apply list_elem_of_further | assumption].
    + intros [H | (r & c & c2 & -> & H1 & H2)]; [now left; left|].
      apply elem_of_cons in H1 as [E | H1].
      * apply key_of_inj in E as [-> ->]. left. right. now exists c2.
      * right. now exists r, c, c2.
Qed.

End Products.

(** X9: a product with an operand that stores nothing stores nothing: the
    result has [A.rows] rows, [B.cols] columns and no entry. *)
Theorem multiply_by_empty (h : heap) (a b : ref) (A B : matrix) :
  view h a = Some A -> view h b = Some B ->
  wf A = true -> wf B = true ->
  m_cols A = m_rows B ->
  m_elements A = [] \/ m_elements B = [] ->
  exists p h1,
    multiply a b h = Done p h1 /\
    view h1 p = Some (mkMatrix [] (m_rows A) (m_cols B)).
Proof.
  intros Ha Hb HA HB Hc Hempty.
  destruct (method_step Multiplication h a b A B) as [E _]; try assumption.
  { cbn. now rewrite Hc, Z.eqb_refl. }
  eexists _, _. split; [exact E|].
  cbn [result_value]. unfold product_value.
  destruct Hempty as [-> | ->].
  - apply view_ext_new.
  - rewrite product_empty_right. apply view_ext_new.
Qed.

Lemma multiply_by_empty_witness :
  exists p h1,
    multiply 0%nat 0%nat (mkHeap [[]] [mkSparseMatrix 0 3 3]) = Done p h1 /\
    view h1 p = Some (mkMatrix [] 3 3).
Proof.
  apply (multiply_by_empty (mkHeap [[]] [mkSparseMatrix 0 3 3]) 0%nat 0%nat
           (mkMatrix [] 3 3) (mkMatrix [] 3 3));
    [reflexivity | reflexivity | reflexivity | reflexivity | reflexivity
    | left; reflexivity].
Defined.

(** X10: multiplication distributes over addition in the values:
    [A.multiply(B.add(C))] reads at every coordinate as the sum of what
    [A.multiply(B)] and [A.multiply(C)] read there. *)
Theorem multiply_distributes_over_add
    (h : heap) (a b c : ref) (A B C : matrix) :
  view h a = Some A -> view h b = Some B -> view h c = Some C ->
  wf A = true -> wf B = true -> wf C = true ->
  m_rows B = m_rows C -> m_cols B = m_cols C -> m_cols A = m_rows B ->
  exists p h1 q h2 q' h3,
    (s <- add b c ;; multiply a s) h = Done p h1 /\
    multiply a b h = Done q h2 /\
    multiply a c h = Done q' h3 /\
    forall i j, exists x y,
      get_element q i j h2 = Done x h2 /\ get_element q' i j h3 = Done y h3 /\
      get_element p i j h1 = Done (x + y) h1.
Proof.
  intros Ha Hb Hc HA HB HC Hr Hcl Hin.
  destruct (method_step Addition h b c B C) as [E1 W1]; try assumption.
  { cbn. now rewrite Hr, Hcl, !Z.eqb_refl. }
  cbn [result_value] in E1, W1.
  destruct (merge_value_dims Z.add B C) as [Sr Sc]; try assumption.
  destruct (method_step Multiplication (ext h (merge_value Z.add B C))
              a (length (objects h)) A (merge_value Z.add B C)) as [E2 _];
    try assumption.
  { now apply view_ext_old. } { apply view_ext_new. }
  { cbn. now rewrite Sr, Hin, Z.eqb_refl. }
  destruct (method_step Multiplication h a b A B) as [E3 _]; try assumption.
  { cbn. now rewrite Hin, Z.eqb_refl. }
  destruct (method_step Multiplication h a c A C) as [E4 _]; try assumption.
  { cbn. now rewrite Hin, Hr, Z.eqb_refl. }
  cbn [result_value method] in *.
  eexists _, _, _, _, _, _.
  split; [eapply bind_Done; [exact E1 | exact E2]|].
  split; [exact E3|]. split; [exact E4|].
  intros i j. eexists _, _. rewrite !get_element_new.
  split; [reflexivity|]. split; [reflexivity|]. f_equal.
  rewrite !product_value_get by auto.
  apply weighted_add. intros k. now apply total_merge_add.
Qed.

Lemma multiply_distributes_over_add_witness :
  exists p h1 q h2 q' h3,
    (s <- add 1%nat 0%nat ;; multiply 0%nat s) demo_heap = Done p h1 /\
    multiply 0%nat 1%nat demo_heap = Done q h2 /\
    multiply 0%nat 0%nat demo_heap = Done q' h3 /\
    forall i j, exists x y,
      get_element q i j h2 = Done x h2 /\ get_element q' i j h3 = Done y h3 /\
      get_element p i j h1 = Done (x + y) h1.
Proof.
  apply (multiply_distributes_over_add demo_heap 0%nat 1%nat 0%nat demo_A demo_B demo_A);
    reflexivity.
Defined.

(** X11: [multiply] stores an entry at [(r, c)] exactly when the left
    operand stores some [(r, k)] and the right operand stores [(k, c)],
    whatever the values are: products that are 0 or that cancel are stored
    as 0, not left out. *)
Theorem multiply_stored_coordinates (h : heap) (a b : ref) (A B : matrix) :
  view h a = Some A -> view h b = Some B ->
  wf A = true -> wf B = true ->
  m_cols A = m_rows B ->
  exists p h1 P,
    multiply a b h = Done p h1 /\ view h1 p = Some P /\
    forall r c,
      key_of r c ∈ map fst (m_elements P) <->
      exists k, key_of r k ∈ map fst (m_elements A) /\
                key_of k c ∈ map fst (m_elements B).
Proof.
  intros Ha Hb HA HB Hc.
  destruct (method_step Multiplication h a b A B) as [E _]; try assumption.
  { cbn. now rewrite Hc, Z.eqb_refl. }
  eexists _, _, _. split; [exact E|]. split; [apply view_ext_new|].
  intros r c. cbn [result_value]. unfold product_value.
  rewrite (product_outer_keys (m_rows B) (m_cols A));
    [|exact (wf_in_range A HA) | exact (wf_in_range B HB)].
  cbn [m_elements map]. split.
  - intros [H | (r1 & c1 & c2 & E' & H1 & H2)]; [now apply elem_of_nil in H|].
    apply key_of_inj in E' as [-> ->]. now exists c1.
  - intros (k & H1 & H2). right. now exists r, k, c.
Qed.

Lemma multiply_stored_coordinates_witness :
  exists p h1 P,
    multiply 0%nat 1%nat demo_heap = Done p h1 /\ view h1 p = Some P /\
    forall r c,
      key_of r c ∈ map fst (m_elements P) <->
      exists k, key_of r k ∈ map fst (m_elements demo_A) /\
                key_of k c ∈ map fst (m_elements demo_B).
Proof.
  apply (multiply_stored_coordinates demo_heap 0%nat 1%nat demo_A demo_B); reflexivity.
Defined.

(** A product whose terms cancel is stored as an explicit 0. *)
Example multiply_cancelling_terms :
  match (x <- init 1 2 ;; set_all x [(0, 0, 1); (0, 1, 1)] ;;
         y <- init 2 1 ;; set_all y [(0, 0, 5); (1, 0, -5)] ;;
         p <- multiply x y ;; to_string p) empty_heap with
  | Done text _ => text = "rows=1" +:+ nl +:+ "cols=1" +:+ nl +:+ "(0, 0, 0)"
  | _ => False
  end.
Proof. vm_compute. reflexivity. Qed.

(** * Further properties of [from_file] *)

Section Tolerance.

Implicit Types (s ws : string).

Lemma lstrip_blank p ws c s :
  Py.all_chars p ws = true -> p c = false ->
  Py.lstrip p (ws +:+ String c s) = String c s.
Proof.
  intros Hws Hc. induction ws as [|c' ws IH]; simpl.
  - now rewrite Hc.
  - simpl in Hws. apply andb_true_iff in Hws as [-> Hws]. now apply IH.
Qed.

Lemma lstrip_all p ws : Py.all_chars p ws = true -> Py.lstrip p ws = "".
Proof.
  induction ws as [|c ws IH]; simpl; [reflexivity|].
  intros [-> H]%andb_true_iff. now apply IH.
Qed.

Lemma rstrip_all p ws : Py.all_chars p ws = true -> Py.rstrip p ws = "".
Proof.
  induction ws as [|c ws IH]; simpl; [reflexivity|].
  intros [-> H]%andb_true_iff. now rewrite IH.
Qed.

Lemma lstrip_id p s : Py.all_chars (fun c => negb (p c)) s = true -> Py.lstrip p s = s.
Proof.
  destruct s as [|c s]; simpl; [reflexivity|].
  intros [Hc _]%andb_true_iff. apply negb_true_iff in Hc. now rewrite Hc.
Qed.

(** Stripping removes the blanks around a text that starts and ends with
    other characters. *)
Lemma strip_by_padded p ws1 ws2 c s :
  Py.all_chars p ws1 = true -> Py.all_chars p ws2 = true ->
  p c = false -> Py.rstrip p (String c s) = String c s ->
  Py.strip_by p (ws1 +:+ String c s +:+ ws2) = String c s.
Proof.
  intros H1 H2 Hc Hr. unfold Py.strip_by.
  change (String c s +:+ ws2) with (String c (s +:+ ws2)).
  rewrite lstrip_blank by assumption.
  change (String c (s +:+ ws2)) with (String c s +:+ ws2).
  rewrite rstrip_app_drop by now apply rstrip_all. exact Hr.
Qed.

Lemma strip_blank ws : blank ws -> Py.strip ws = "".
Proof.
  intros H. unfold Py.strip, Py.strip_by. now rewrite lstrip_all.
Qed.

Lemma int_strip s s' :
  Py.strip_by Py.int_space s = Py.strip_by Py.int_space s' -> Py.int s = Py.int s'.
Proof. intros H. unfold Py.int. now rewrite H. Qed.

(** [int()] reads the text of an integer between blanks. *)
Lemma int_padded (pl pr : string) (n : Z) :
  padding pl -> padding pr -> Py.int (pl +:+ Py.str n +:+ pr) = Some n.
Proof.
  intros Hl Hr. rewrite <- (int_str n). apply int_strip.
  destruct (str_cons n) as (c & s & E & Hc).
  assert (Hp : forall x, numeric x = true -> Py.int_space x = false)
    by (intros x Hx; now apply numeric_plain).
  rewrite (strip_by_str _ n Hp). rewrite E.
  rewrite strip_by_padded; try assumption; [reflexivity | now apply Hp |].
  rewrite <- E. now apply rstrip_str.
Qed.

Lemma field_char_plain (c : ascii) :
  field_char c = true ->
  Py.mem_char c "()" = false /\ is_not "," c = true.
Proof.
  destruct c as [[] [] [] [] [] [] [] []]; vm_compute; intros; repeat split; congruence.
Qed.

Lemma int_space_isspace (c : ascii) : Py.int_space c = true -> Py.isspace c = true.
Proof.
  destruct c as [[] [] [] [] [] [] [] []]; vm_compute; intros; congruence.
Qed.

Lemma field_chars (pl pr : string) (n : Z) :
  padding pl -> padding pr -> Py.all_chars field_char (pl +:+ Py.str n +:+ pr) = true.
Proof.
  intros Hl Hr. rewrite !all_chars_app.
  rewrite (all_chars_impl Py.int_space field_char pl), (all_chars_impl Py.int_space field_char pr),
    (all_chars_impl numeric field_char (Py.str n)); auto using str_numeric;
    intros c Hc; unfold field_char; rewrite Hc; auto using orb_true_r.
Qed.

Lemma field_no_comma (f : string) :
  Py.all_chars field_char f = true -> Py.all_chars (is_not ",") f = true.
Proof. apply all_chars_impl. intros c Hc. now apply field_char_plain. Qed.

(** The three fields of an entry are read back. *)
Lemma split_fields (f1 f2 f3 : string) :
  Py.all_chars field_char f1 = true -> Py.all_chars field_char f2 = true ->
  Py.all_chars field_char f3 = true ->
  Py.split "," (f1 +:+ "," +:+ f2 +:+ "," +:+ f3) = [f1; f2; f3].
Proof.
  intros H1 H2 H3.
  change ("," +:+ f2 +:+ "," +:+ f3) with (String "," (f2 +:+ String "," f3)).
  rewrite split_app by now apply field_no_comma.
  rewrite split_app by now apply field_no_comma.
  now rewrite split_no_sep by now apply field_no_comma.
Qed.

Lemma fields_text_assoc p1 r q1 p2 c q2 p3 v q3 :
  fields_text p1 r q1 p2 c q2 p3 v q3
  = (p1 +:+ Py.str r +:+ q1) +:+ "," +:+ (p2 +:+ Py.str c +:+ q2) +:+ ","
    +:+ (p3 +:+ Py.str v +:+ q3).
Proof. unfold fields_text. now rewrite !append_assoc. Qed.

Lemma unpack_fields p1 r q1 p2 c q2 p3 v q3 :
  padding p1 -> padding q1 -> padding p2 -> padding q2 -> padding p3 -> padding q3 ->
  unpack3_ints (Py.split "," (fields_text p1 r q1 p2 c q2 p3 v q3)) = inr (r, c, v).
Proof.
  intros. rewrite fields_text_assoc, split_fields by now apply field_chars.
  unfold unpack3_ints, unpack2_ints. now rewrite !int_padded.
Qed.

Lemma fields_text_no_parentheses p1 r q1 p2 c q2 p3 v q3 :
  padding p1 -> padding q1 -> padding p2 -> padding q2 -> padding p3 -> padding q3 ->
  Py.all_chars (fun x => negb (Py.mem_char x "()")) (fields_text p1 r q1 p2 c q2 p3 v q3)
  = true.
Proof.
  intros. rewrite fields_text_assoc.
  assert (Hf : forall f, Py.all_chars field_char f = true ->
                         Py.all_chars (fun x => negb (Py.mem_char x "()")) f = true).
  { intros f. apply all_chars_impl. intros x Hx.
    destruct (field_char_plain x Hx) as [-> _]. reflexivity. }
  pose proof (Hf _ (field_chars p1 q1 r ltac:(assumption) ltac:(assumption))) as H1'.
  pose proof (Hf _ (field_chars p2 q2 c ltac:(assumption) ltac:(assumption))) as H2'.
  pose proof (Hf _ (field_chars p3 q3 v ltac:(assumption) ltac:(assumption))) as H3'.
  set (f1 := p1 +:+ Py.str r +:+ q1) in *. set (f2 := p2 +:+ Py.str c +:+ q2) in *.
  set (f3 := p3 +:+ Py.str v +:+ q3) in *.
  rewrite (all_chars_app _ f1), H1'. change ("," +:+ ?t) with (String "," t).
  cbn [Py.all_chars]. rewrite (all_chars_app _ f2), H2'.
  change ("," +:+ f3) with (String "," f3). cbn [Py.all_chars].
  now rewrite H3'.
Qed.

Lemma fields_text_cons p1 r q1 p2 c q2 p3 v q3 :
  exists x s, fields_text p1 r q1 p2 c q2 p3 v q3 = String x s.
Proof.
  unfold fields_text. destruct p1 as [|x p1]; [|now eexists _, _].
  destruct (str_cons r) as (x & s & -> & _). now eexists _, _.
Qed.

Lemma strip_chars_plain (s : string) :
  Py.all_chars (fun x => negb (Py.mem_char x "()")) s = true ->
  Py.strip_chars "()" s = s.
Proof.
  intros H. unfold Py.strip_chars, Py.strip_by.
  rewrite (lstrip_id (fun c => Py.mem_char c "()")) by exact H.
  now apply (rstrip_id (fun c => Py.mem_char c "()")).
Qed.

Lemma strip_chars_parentheses (s : string) :
  s <> "" -> Py.all_chars (fun x => negb (Py.mem_char x "()")) s = true ->
  Py.strip_chars "()" (String "(" (s +:+ ")")) = s.
Proof.
  intros Hne H. unfold Py.strip_chars, Py.strip_by.
  set (q := fun c => Py.mem_char c "()").
  change (Py.lstrip q (String "(" (s +:+ ")"))) with (Py.lstrip q (s +:+ ")")).
  destruct s as [|x s]; [congruence|].
  assert (Hx : q x = false).
  { simpl in H. apply andb_true_iff in H as [Hx _]. now apply negb_true_iff in Hx. }
  change (String x s +:+ ")") with (String x (s +:+ ")")).
  rewrite (lstrip_keep q) by exact Hx.
  change (String x (s +:+ ")")) with (String x s +:+ ")").
  rewrite rstrip_app_drop by reflexivity.
  now apply (rstrip_id q).
Qed.

(** What [from_file] reads from a line of the accepted forms. *)
Lemma body_line_entry r c v line :
  body_line (Some (r, c, v)) line ->
  String.eqb (Py.strip line) "" = false /\
  unpack3_ints (line_fields line) = inr (r, c, v).
Proof.
  intros H. inversion H as [| r' c' v' ws1 p1 q1 p2 q2 p3 q3 ws2 B1 B2 P1 Q1 P2 Q2 P3 Q3
                            | r' c' v' ws1 q1 p2 q2 p3 ws2 B1 B2 Q1 P2 Q2 P3]; subst.
  - set (inner := fields_text p1 r q1 p2 c q2 p3 v q3).
    assert (Hstrip : Py.strip (ws1 +:+ "(" +:+ inner +:+ ")" +:+ ws2)
                     = String "(" (inner +:+ ")")).
    { change ("(" +:+ inner +:+ ")" +:+ ws2) with (String "(" (inner +:+ ")" +:+ ws2)).
      rewrite <- (append_assoc inner).
      change (String "(" ((inner +:+ ")") +:+ ws2))
        with (String "(" (inner +:+ ")") +:+ ws2).
      apply strip_by_padded; try assumption; [reflexivity|].
      change (String "(" (inner +:+ ")")) with (String "(" inner +:+ ")").
      now rewrite rstrip_app. }
    unfold line_fields. rewrite Hstrip. split; [reflexivity|].
    rewrite strip_chars_parentheses.
    + now apply unpack_fields.
    + destruct (fields_text_cons p1 r q1 p2 c q2 p3 v q3) as (x & s & E).
      unfold inner. rewrite E. discriminate.
    + now apply fields_text_no_parentheses.
  - set (inner := fields_text "" r q1 p2 c q2 p3 v "").
    assert (Hpad : padding "") by reflexivity.
    destruct (str_cons r) as (x & s & Er & Hx).
    assert (Einner : inner = String x (s +:+ q1 +:+ "," +:+ p2 +:+ Py.str c +:+ q2 +:+ ","
                                        +:+ p3 +:+ Py.str v +:+ "")).
    { unfold inner, fields_text. now rewrite Er. }
    assert (Hr : Py.rstrip Py.isspace inner = inner).
    { unfold inner, fields_text. rewrite append_nil_r, <- !append_assoc.
      apply rstrip_ends_str. intros y Hy. now apply numeric_plain. }
    assert (Hstrip : Py.strip (ws1 +:+ inner +:+ ws2) = inner).
    { rewrite Einner in Hr |- *.
      apply strip_by_padded; try assumption. now apply numeric_plain. }
    unfold line_fields. rewrite Hstrip. split.
    + rewrite Einner. reflexivity.
    + rewrite strip_chars_plain by now apply fields_text_no_parentheses.
      now apply unpack_fields.
Qed.

Lemma body_line_blank line : body_line None line -> Py.strip line = "".
Proof. intros H. inversion H; subst. now apply strip_blank. Qed.

(** The loop of [from_file] over lines of the accepted forms. *)
Lemma tolerant_loop h m (items : list (option (Z * Z * Z))) (lines : list string) :
  Forall2 body_line items lines ->
  for_each lines (fun line =>
    let line := Py.strip line in
    if String.eqb line "" then ret tt
    else
      match unpack3_ints (Py.split "," (Py.strip_chars "()" line)) with
      | inr (row, col, value) => set_element (length (objects h)) row col value
      | inl _ => raise (ValueError (Msg ("Invalid format in line: " +:+ line)))
      end) (ext h m)
  = Done tt (ext h (set_all_value (kept items) m)).
Proof.
  intros H. revert m. induction H as [|item line items lines Hl _ IH]; intros m.
  - reflexivity.
  - cbn [for_each]. destruct item as [[[r c] v]|].
    + destruct (body_line_entry r c v line Hl) as [Hne Hu].
      unfold line_fields in Hu.
      eapply bind_Done; [|apply IH]. cbv zeta. rewrite Hne, Hu.
      apply set_element_new.
    + eapply bind_Done; [|apply IH]. cbv zeta.
      now rewrite (body_line_blank line Hl).
Qed.

End Tolerance.

Section Reading.

Lemma from_text_headers (path text l1 l2 : string) (body : list string)
    (f1 f2 : string) (R C : Z) (h : heap) :
  Py.readlines text = l1 :: l2 :: body ->
  header_field l1 = Some f1 -> Py.int f1 = Some R ->
  header_field l2 = Some f2 -> Py.int f2 = Some C ->
  from_text path text h
  = (for_each body (read_line (length (objects h))) ;; ret (length (objects h)))
      (ext h (mkMatrix [] R C)).
Proof.
  intros E N1 H1 N2 H2. unfold from_text. rewrite E.
  cbn [length Nat.ltb Nat.leb nth drop]. rewrite drop_0.
  eapply bind_Done; [now rewrite header_int_field, N1, H1|].
  eapply bind_Done; [now rewrite header_int_field, N2, H2|].
  eapply bind_Done; [apply init_run|]. reflexivity.
Qed.

Lemma read_lines_accepted h m (items : list (option (Z * Z * Z))) (lines : list string) :
  Forall2 body_line items lines ->
  for_each lines (read_line (length (objects h))) (ext h m)
  = Done tt (ext h (set_all_value (kept items) m)).
Proof. apply tolerant_loop. Qed.

Lemma read_line_accepted h m (item : option (Z * Z * Z)) (line : string) :
  body_line item line ->
  read_line (length (objects h)) line (ext h m)
  = Done tt (ext h (set_all_value (kept [item]) m)).
Proof.
  intros Hl.
  assert (Hs : for_each [line] (read_line (length (objects h))) (ext h m)
               = Done tt (ext h (set_all_value (kept [item]) m))).
  { apply read_lines_accepted. now repeat constructor. }
  cbn [for_each] in Hs. unfold bind in Hs.
  destruct (read_line (length (objects h)) line (ext h m)) as [[] h'| |];
    [exact Hs | discriminate..].
Qed.

Lemma three_ints_unpack (fields : list string) :
  three_ints fields = false -> exists e, unpack3_ints fields = inl e.
Proof.
  unfold three_ints, unpack3_ints, unpack2_ints.
  destruct fields as [|f1 [|f2 [|f3 [|f4 fs]]]]; cbn [length Nat.eqb forallb andb];
    try (intros _; repeat (destruct (Py.int _)); now eexists).
  destruct (Py.int f1), (Py.int f2), (Py.int f3); cbn; try discriminate;
    intros _; now eexists.
Qed.

Lemma read_lines_rejected h m (items : list (option (Z * Z * Z)))
    (good : list string) (bad : string) (rest : list string) :
  Forall2 body_line items good ->
  String.eqb (Py.strip bad) "" = false ->
  three_ints (line_fields bad) = false ->
  for_each (good ++ bad :: rest) (read_line (length (objects h))) (ext h m)
  = Raised (ValueError (Msg ("Invalid format in line: " +:+ Py.strip bad)))
           (ext h (set_all_value (kept items) m)).
Proof.
  intros H Hne Hbad. revert m. induction H as [|item line items good Hl _ IH]; intros m.
  - cbn [app for_each kept set_all_value fold_left]. unfold bind, read_line. cbv zeta.
    rewrite Hne. destruct (three_ints_unpack _ Hbad) as [e He].
    unfold line_fields in He. now rewrite He.
  - cbn [app for_each].
    eapply bind_Done; [apply (read_line_accepted h m item line Hl)|].
    destruct item as [[[r c] v]|]; apply IH.
Qed.

End Reading.

(** X12: a file in the format of [to_string] may name a coordinate more than
    once and may name coordinates beyond its header: [from_file] stores one
    entry per coordinate, at the place of its first line and with the value
    of its last line, and the dimensions of the header grow to hold every
    row and column index of the body. *)
Theorem from_file_repeated_coordinates (fs : string -> option string) (path : string)
    (h : heap) (R C : Z) (ts : list (Z * Z * Z)) :
  fs path = Some (matrix_text R C ts) ->
  exists a h1 P,
    from_file fs path h = Done a h1 /\ view h1 a = Some P /\
    m_elements P = map keyed (insertion_entries ts) /\
    m_rows P = final_rows R ts /\ m_cols P = final_cols C ts.
Proof.
  intros E. eexists _, _, _. split; [apply (from_file_run fs path h R C ts E)|].
  split; [apply view_ext_new|]. split; [apply set_all_elements|].
  apply (set_all_rows ts (mkMatrix [] R C)).
Qed.

Lemma from_file_repeated_coordinates_witness :
  exists a h1 P,
    from_file (demo_fs (matrix_text 1 1 [(0, 0, 4); (2, 5, 1); (0, 0, 9)])) "m.txt"
      empty_heap = Done a h1 /\ view h1 a = Some P /\
    m_elements P = map keyed (insertion_entries [(0, 0, 4); (2, 5, 1); (0, 0, 9)]) /\
    m_rows P = final_rows 1 [(0, 0, 4); (2, 5, 1); (0, 0, 9)] /\
    m_cols P = final_cols 1 [(0, 0, 4); (2, 5, 1); (0, 0, 9)].
Proof.
  apply (from_file_repeated_coordinates
           (demo_fs (matrix_text 1 1 [(0, 0, 4); (2, 5, 1); (0, 0, 9)])) "m.txt"
           empty_heap 1 1 [(0, 0, 4); (2, 5, 1); (0, 0, 9)]).
  reflexivity.
Defined.

(** X13: [from_file] reads more than [to_string] writes.  A header line
    gives the integer between its first and second ['='], whatever stands in
    front of the first, with blanks around the integer; blank lines of the
    body are skipped; an entry may stand without its parentheses; whitespace may
    surround a line and each of its numbers.  Reading such a file is
    [SparseMatrix(R, C)] followed by [set_element] for the entries in the
    order of their lines. *)
Theorem from_file_tolerant (fs : string -> option string) (path text l1 l2 : string)
    (body : list string) (f1 f2 : string) (R C : Z)
    (items : list (option (Z * Z * Z))) (h : heap) :
  fs path = Some text ->
  Py.readlines text = l1 :: l2 :: body ->
  header_field l1 = Some f1 -> Py.int f1 = Some R ->
  header_field l2 = Some f2 -> Py.int f2 = Some C ->
  Forall2 body_line items body ->
  exists a h1,
    from_file fs path h = Done a h1 /\
    (x <- init R C ;; set_all x (kept items) ;; ret x) h = Done a h1.
Proof.
  intros E El N1 H1 N2 H2 Hb. unfold from_file. rewrite E.
  rewrite (from_text_headers path text l1 l2 body f1 f2 R C h) by assumption.
  eexists _, _. split.
  - eapply bind_Done; [apply (read_lines_accepted h _ items body Hb)|]. reflexivity.
  - eapply bind_Done; [apply init_run|].
    eapply bind_Done; [apply set_all_run|]. reflexivity.
Qed.

Lemma from_file_tolerant_witness :
  exists a h1,
    from_file (demo_fs text_tolerant) "m.txt" empty_heap = Done a h1 /\
    (x <- init 2 2 ;; set_all x [(0, 1, 5); (1, 1, -3); (0, 1, 7)] ;; ret x) empty_heap
    = Done a h1.
Proof.
  apply (from_file_tolerant (demo_fs text_tolerant) "m.txt" text_tolerant
           ("rows = 2" +:+ nl) (" cols=2 " +:+ nl)
           [nl; "  ( 0 , 1 , 5 )" +:+ nl; "1,1,-3" +:+ nl; "(0,1,7)" +:+ nl]
           " 2" "2" 2 2
           [None; Some (0, 1, 5); Some (1, 1, -3); Some (0, 1, 7)] empty_heap);
    [vm_compute; reflexivity ..|].
  repeat apply List.Forall2_cons; [| | | | apply List.Forall2_nil].
  - now apply (blank_line nl).
  - now apply (entry_in_parentheses 0 1 5 "  " " " " " " " " " " " " " nl).
  - now apply (entry_without_parentheses 1 1 (-3) "" "" "" "" "" nl).
  - now apply (entry_in_parentheses 0 1 7 "" "" "" "" "" "" "" nl).
Defined.

(** X14: a body line that is not blank and whose fields, after the outer
    parentheses are stripped and the line is split at the commas, are not
    exactly three integers stops [from_file] with a [ValueError] that quotes
    the stripped line, whatever the failure inside was.  The lines in front
    of it have been read, the lines behind it are not looked at, and the
    matrices of the caller are as they were. *)
Theorem from_file_invalid_line (fs : string -> option string) (path text l1 l2 : string)
    (good : list string) (bad : string) (rest : list string) (f1 f2 : string)
    (R C : Z) (items : list (option (Z * Z * Z))) (h : heap) :
  fs path = Some text ->
  Py.readlines text = l1 :: l2 :: good ++ bad :: rest ->
  header_field l1 = Some f1 -> Py.int f1 = Some R ->
  header_field l2 = Some f2 -> Py.int f2 = Some C ->
  Forall2 body_line items good ->
  String.eqb (Py.strip bad) "" = false ->
  three_ints (line_fields bad) = false ->
  exists h1,
    from_file fs path h
    = Raised (ValueError (Msg ("Invalid format in line: " +:+ Py.strip bad))) h1 /\
    unchanged h h1.
Proof.
  intros E El N1 H1 N2 H2 Hg Hne Hbad. unfold from_file. rewrite E.
  rewrite (from_text_headers path text l1 l2 (good ++ bad :: rest) f1 f2 R C h)
    by assumption.
  eexists. split.
  - unfold bind at 1.
    now rewrite (read_lines_rejected h _ items good bad rest Hg Hne Hbad).
  - apply ext_frame.
Qed.

Lemma from_file_invalid_line_witness :
  exists h1,
    from_file (demo_fs text_two_fields) "m.txt" empty_heap
    = Raised (ValueError (Msg ("Invalid format in line: " +:+ Py.strip ("(0, 1)" +:+ nl))))
             h1 /\
    unchanged empty_heap h1.
Proof.
  apply (from_file_invalid_line (demo_fs text_two_fields) "m.txt" text_two_fields
           ("rows=2" +:+ nl) ("cols=2" +:+ nl) ["(0, 0, 1)" +:+ nl] ("(0, 1)" +:+ nl)
           ["(1, 1, 4)"] "2" "2" 2 2 [Some (0, 0, 1)] empty_heap).
  1-6, 8-9: vm_compute; reflexivity.
  apply List.Forall2_cons; [|apply List.Forall2_nil].
  now apply (entry_in_parentheses 0 0 1 "" "" "" " " "" " " "" nl).
Defined.

(** * Any file, [save_to_file] and the program *)

Section AnyFile.

Lemma read_lines_outcome h m (lines : list string) :
  wf m = true ->
  exists m', wf m' = true /\
    (for_each lines (read_line (length (objects h))) (ext h m) = Done tt (ext h m') \/
     exists line,
       for_each lines (read_line (length (objects h))) (ext h m)
       = Raised (ValueError (Msg ("Invalid format in line: " +:+ Py.strip line)))
                (ext h m')).
Proof.
  revert m. induction lines as [|line lines IH]; intros m Hm.
  - exists m. split; [assumption | now left].
  - assert (Hl : (exists m1, wf m1 = true /\
                    read_line (length (objects h)) line (ext h m) = Done tt (ext h m1)) \/
                 read_line (length (objects h)) line (ext h m)
                 = Raised (ValueError (Msg ("Invalid format in line: " +:+ Py.strip line)))
                          (ext h m)).
    { unfold read_line. cbv zeta. destruct (String.eqb (Py.strip line) "").
      - left. now exists m.
      - destruct (unpack3_ints _) as [e | [[r c] v]].
        + now right.
        + left. exists (set_value m r c v).
          split; [now apply wf_set_value | apply set_element_new]. }
    cbn [for_each]. unfold bind.
    destruct Hl as [(m1 & H1 & ->) | ->].
    + apply IH, H1.
    + exists m. split; [assumption|]. right. now exists line.
Qed.

Lemma prefix_append (s t : string) : String.prefix s (s +:+ t) = true.
Proof.
  induction s as [|c s IH]; simpl; [now destruct t|].
  destruct (ascii_dec c c); [assumption | congruence].
Qed.

(** What [from_file] does with a file that was read, whatever its text. *)
Lemma from_text_cases (path text : string) (h : heap) :
  (exists P, wf P = true /\
             from_text path text h = Done (length (objects h)) (ext h P)) \/
  (exists e h1, from_text path text h = Raised e h1 /\
                text_error path e = true /\ unchanged h h1).
Proof.
  remember (from_text path text h) as res eqn:E.
  assert (Hh : unchanged h h) by (split; auto).
  unfold from_text in E. destruct (length (Py.readlines text) <? 2)%nat.
  { subst res. right. eexists _, _. split; [reflexivity|]. split; [|assumption].
    cbn [text_error]. now rewrite String.eqb_refl. }
  unfold bind at 1 in E. rewrite header_int_field in E.
  destruct (header_field _) as [f1|];
    [|subst res; right; eexists _, _; split; [reflexivity|]; now split].
  destruct (Py.int f1) as [R|];
    [|subst res; right; eexists _, _; split; [reflexivity|]; now split].
  unfold bind at 1 in E. rewrite header_int_field in E.
  destruct (header_field _) as [f2|];
    [|subst res; right; eexists _, _; split; [reflexivity|]; now split].
  destruct (Py.int f2) as [C|];
    [|subst res; right; eexists _, _; split; [reflexivity|]; now split].
  unfold bind at 1 in E. rewrite init_run in E. unfold bind in E.
  destruct (read_lines_outcome h (mkMatrix [] R C) (drop 2 (Py.readlines text)))
    as (P & HP & [E' | [line E']]); [reflexivity | |];
    unfold read_line in E'; rewrite E' in E; subst res.
  - left. now exists P.
  - right. eexists _, _. split; [reflexivity|]. split; [|apply ext_frame].
    cbn [text_error]. rewrite prefix_append. apply orb_true_r.
Qed.

(** In the model of the files, [from_file] returns a matrix that satisfies
    the invariant or raises, and the matrices of the caller stay. *)
Lemma from_file_cases (fs : string -> option string) (path : string) (h : heap) :
  (exists P, wf P = true /\
             from_file fs path h = Done (length (objects h)) (ext h P)) \/
  (exists e h1, from_file fs path h = Raised e h1 /\ unchanged h h1).
Proof.
  unfold from_file. destruct (fs path) as [text|].
  - destruct (from_text_cases path text h) as [H | (e & h1 & E & _ & Hu)];
      [now left | right; now exists e, h1].
  - right. eexists _, _. split; [reflexivity|]. split; auto.
Qed.

End AnyFile.

(** X15: for a file that was read as text, whatever the text is,
    [from_file] either returns a new matrix whose keys are distinct
    coordinates below its dimensions, or raises one of four errors: the
    text has fewer than two lines, a header line has no ['=']
    ([IndexError]) or no integer behind it, or a body line is no entry.  In
    both cases the matrices of the caller are as they were. *)
Theorem from_file_outcome (fs : string -> option string) (path text : string)
    (h : heap) :
  fs path = Some text ->
  (exists a h1 P, from_file fs path h = Done a h1 /\ view h1 a = Some P /\
                  wf P = true /\ fresh_matrix h h1 a /\ unchanged h h1) \/
  (exists e h1, from_file fs path h = Raised e h1 /\
                text_error path e = true /\ unchanged h h1).
Proof.
  intros Hfs. unfold from_file. rewrite Hfs.
  destruct (from_text_cases path text h) as [(P & HP & E) | H]; [left | now right].
  eexists _, _, P. split; [exact E|]. split; [apply view_ext_new|].
  split; [assumption|]. split; [apply ext_fresh | apply ext_frame].
Qed.

Lemma from_file_outcome_witness :
  (exists a h1 P,
      from_file (demo_fs text_two_fields) "m.txt" empty_heap = Done a h1 /\
      view h1 a = Some P /\ wf P = true /\ fresh_matrix empty_heap h1 a /\
      unchanged empty_heap h1) \/
  (exists e h1,
      from_file (demo_fs text_two_fields) "m.txt" empty_heap = Raised e h1 /\
      text_error "m.txt" e = true /\ unchanged empty_heap h1).
Proof.
  apply (from_file_outcome (demo_fs text_two_fields) "m.txt" text_two_fields empty_heap).
  reflexivity.
Defined.

Section Texts2.

Lemma ext_inj h A B : ext h A = ext h B -> A = B.
Proof.
  intros E. pose proof (view_ext_new h A) as HA. rewrite E, view_ext_new in HA.
  congruence.
Qed.

Lemma text_of_inj A B : wf A = true -> wf B = true -> text_of A = text_of B -> A = B.
Proof.
  intros HA HB E. rewrite !text_of_triples in E.
  pose proof (from_text_run "" empty_heap (m_rows A) (m_cols A) (triples A)) as RA.
  rewrite E, from_text_run in RA.
  rewrite (set_all_triples_wf A HA), (set_all_triples_wf B HB) in RA.
  apply (ext_inj empty_heap). congruence.
Qed.

End Texts2.

(** X16: the text of [to_string] determines the matrix: two matrices with
    the same text have the same dimensions and the same entries in the same
    order. *)
Theorem to_string_injective (h : heap) (a b : ref) (A B : matrix) :
  view h a = Some A -> view h b = Some B -> wf A = true -> wf B = true ->
  exists ta tb,
    to_string a h = Done ta h /\ to_string b h = Done tb h /\
    (ta = tb <-> A = B).
Proof.
  intros Ha Hb HA HB. exists (text_of A), (text_of B).
  split; [apply (to_string_run h a A Ha), wf_canonical, HA|].
  split; [apply (to_string_run h b B Hb), wf_canonical, HB|].
  split; [now apply text_of_inj | now intros ->].
Qed.

Lemma to_string_injective_witness :
  exists ta tb,
    to_string 0%nat demo_heap = Done ta demo_heap /\
    to_string 1%nat demo_heap = Done tb demo_heap /\
    (ta = tb <-> demo_A = demo_B).
Proof.
  apply (to_string_injective demo_heap 0%nat 1%nat demo_A demo_B); reflexivity.
Defined.

Section Program.

Lemma io_bind_Returned {A B} (c : IO A) (k : A -> IO B) w x w' res :
  c w = Returned x w' -> k x w' = res -> io_bind c k w = res.
Proof. intros E1 E2. unfold io_bind. now rewrite E1. Qed.

Lemma io_bind_Failed {A B} (c : IO A) (k : A -> IO B) w e w' :
  c w = Failed e w' -> io_bind c k w = Failed e w'.
Proof. intros E. unfold io_bind. now rewrite E. Qed.

Lemma load_file_cases i o d m s (path : string) :
  (exists P, wf P = true /\
     load_file path (mkConsole i o d m s)
     = Returned (length (objects m)) (mkConsole i o d (ext m P) s)) \/
  (exists e h1, unchanged m h1 /\
     load_file path (mkConsole i o d m s) = Failed (Exn e) (mkConsole i o d h1 s)).
Proof.
  unfold load_file, call. cbn [disk memory stdin stdout system].
  destruct (from_file_cases d path m) as [(P & HP & ->) | (e & h1 & -> & Hu)].
  - left. now exists P.
  - right. now exists e, h1.
Qed.

Lemma load_file_Done i o d m s (path : string) a h1 :
  from_file d path m = Done a h1 ->
  exists P, wf P = true /\ a = length (objects m) /\ h1 = ext m P /\
    load_file path (mkConsole i o d m s) = Returned a (mkConsole i o d h1 s).
Proof.
  intros E. destruct (from_file_cases d path m) as [(P & HP & E') | (e & h' & E' & _)];
    rewrite E' in E; [|discriminate].
  injection E as <- <-. exists P. repeat split; [assumption|].
  unfold load_file, call. cbn [disk memory stdin stdout system]. now rewrite E'.
Qed.

Lemma call_method (op : operation) i o d h s a b A B :
  view h a = Some A -> view h b = Some B -> wf A = true -> wf B = true ->
  call (method op a b) (mkConsole i o d h s)
  = if compatible op A B
    then Returned (length (objects h)) (mkConsole i o d (ext h (result_value op A B)) s)
    else Failed (Exn (mismatch op)) (mkConsole i o d h s).
Proof.
  intros Ha Hb HA HB. unfold call. cbn [memory stdin stdout disk system].
  rewrite (method_run op h a b A B) by assumption.
  destruct (compatible op A B); [|reflexivity]. now destruct op.
Qed.

Lemma result_value_wf (op : operation) A B :
  wf A = true -> wf B = true -> wf (result_value op A B) = true.
Proof.
  intros HA HB. destruct op; cbn [result_value];
    auto using wf_merge_value, wf_product_value.
Qed.

(** [save_to_file] hands the text of [to_string] to the operating system,
    once, and its exception is that of the operating system. *)
Lemma save_to_file_run i o d h s a A (path : string) :
  view h a = Some A -> wf A = true ->
  save_to_file a path (mkConsole i o d h s)
  = match snd (s d path (text_of A)) with
    | None => Returned tt (mkConsole i o (fst (s d path (text_of A))) h s)
    | Some e => Failed (System e) (mkConsole i o (fst (s d path (text_of A))) h s)
    end.
Proof.
  intros Hv HA. unfold save_to_file.
  eapply io_bind_Returned.
  - unfold call. cbn [memory stdin stdout disk system].
    rewrite (to_string_run h a A Hv) by apply wf_canonical, HA. reflexivity.
  - unfold write_file. cbn [memory stdin stdout disk system].
    now destruct (s d path (text_of A)) as [fs [e|]].
Qed.

Lemma calculations_Returned w x w' :
  calculations w = Returned x w' -> do_some_calculations w = Some w'.
Proof. intros E. unfold do_some_calculations. now rewrite E. Qed.

Lemma calculations_Failed w e w' :
  calculations w = Failed e w' ->
  do_some_calculations w = Some (emit (PrintedError e) w').
Proof. intros E. unfold do_some_calculations. now rewrite E. Qed.

(** The two operands after both files are loaded. *)
Lemma loaded_views m P Q :
  view (ext (ext m P) Q) (length (objects m)) = Some P /\
  view (ext (ext m P) Q) (length (objects (ext m P))) = Some Q.
Proof. split; [apply view_ext_old|]; apply view_ext_new. Qed.

(** The run up to the question for the output path. *)
Lemma calculations_computed o d m s (p1 p2 choice : string) (rest : list string)
    (name : string) (op : operation) (a b : ref) (h1 h2 : heap) (A B : matrix) :
  from_file d p1 m = Done a h1 ->
  from_file d p2 h1 = Done b h2 ->
  view h2 a = Some A -> view h2 b = Some B ->
  matrix_operations choice = Some (name, op) ->
  compatible op A B = true ->
  wf (result_value op A B) = true /\
  calculations (mkConsole (p1 :: p2 :: choice :: rest) o d m s)
  = (output_file_path <- input "Enter the file path to save the result: " ;;
     save_to_file (length (objects h2)) output_file_path ;;
     print ("Result saved to " +:+ output_file_path))%io
      (mkConsole rest
         (o ++ loading ++ [Printed ("Result of " +:+ name +:+ "........" +:+ nl)])
         d (ext h2 (result_value op A B)) s).
Proof.
  intros E1 E2 Ha Hb Hop Hc.
  destruct (load_file_Done (p2 :: choice :: rest) (o ++ [Asked
    "Enter the file path for the first matrix: "]) d m s p1 a h1 E1)
    as (P & HP & -> & -> & L1).
  destruct (load_file_Done (choice :: rest) ((o ++ [Asked
    "Enter the file path for the first matrix: "]) ++
    [Printed ("First matrix loaded........" +:+ nl)] ++ [Asked
    "Enter the file path for the second matrix: "]) d (ext m P) s p2 b h2 E2)
    as (Q & HQ & -> & -> & L2).
  destruct (loaded_views m P Q) as [Va Vb].
  assert (A = P) by congruence. assert (B = Q) by congruence. subst A B.
  split; [now apply result_value_wf|].
  unfold calculations.
  eapply io_bind_Returned; [reflexivity|].
  eapply io_bind_Returned; [exact L1|].
  eapply io_bind_Returned; [reflexivity|].
  eapply io_bind_Returned; [reflexivity|].
  eapply io_bind_Returned; [cbn [emit stdin stdout disk memory system];
                            rewrite <- app_assoc; exact L2|].
  eapply io_bind_Returned; [reflexivity|].
  eapply io_bind_Returned; [reflexivity|].
  rewrite Hop.
  eapply io_bind_Returned; [rewrite (call_method op _ _ _ _ _ _ _ P Q), Hc by assumption;
                            reflexivity|].
  eapply io_bind_Returned; [reflexivity|].
  unfold emit, loading. cbn [stdin stdout disk memory system].
  now rewrite <- !app_assoc.
Qed.

End Program.



(** X18: with two files that are read, a choice among ['a'], ['b'], ['c']
    and operands whose dimensions fit, the program asks four questions and
    hands the text of the result to the operating system under the path of
    the fourth answer.  When that write succeeds, the files are those that
    it left and the program prints its four reports. *)
Theorem program_saves_result (w : console) (p1 p2 choice out : string)
    (rest : list string) (name : string) (op : operation)
    (a b : ref) (h1 h2 : heap) (A B : matrix) (fs' : files) :
  stdin w = p1 :: p2 :: choice :: out :: rest ->
  from_file (disk w) p1 (memory w) = Done a h1 ->
  from_file (disk w) p2 h1 = Done b h2 ->
  view h2 a = Some A -> view h2 b = Some B ->
  matrix_operations choice = Some (name, op) ->
  compatible op A B = true ->
  system w (disk w) out (text_of (result_value op A B)) = (fs', None) ->
  exists w',
    do_some_calculations w = Some w' /\
    disk w' = fs' /\
    stdout w' = stdout w ++ transcript name out /\
    stdin w' = rest.
Proof.
  destruct w as [i o d m s]. cbn [stdin stdout disk memory system].
  intros -> E1 E2 Ha Hb Hop Hc Hs.
  destruct (calculations_computed o d m s p1 p2 choice (out :: rest) name op a b h1 h2
              A B E1 E2 Ha Hb Hop Hc) as [HR Run].
  eexists. split.
  - apply (calculations_Returned _ tt). rewrite Run.
    eapply io_bind_Returned; [reflexivity|].
    eapply io_bind_Returned;
      [rewrite (save_to_file_run _ _ _ _ _ _ (result_value op A B));
       [cbn [stdin stdout disk memory system]; rewrite Hs; reflexivity
       | apply view_ext_new | exact HR]|].
    reflexivity.
  - unfold emit, transcript, computing. cbn [stdin stdout disk memory system fst snd].
    split; [reflexivity|]. split; [|reflexivity]. now rewrite <- !app_assoc.
Qed.

Lemma program_saves_result_witness :
  exists w',
    do_some_calculations
      (mkConsole ["a.txt"; "b.txt"; "a"; "sum.txt"] [] demo_disk empty_heap demo_system)
    = Some w' /\
    disk w' = fst (demo_system demo_disk "sum.txt"
                     (text_of (result_value Addition loaded_a loaded_b))) /\
    stdout w' = [] ++ transcript "addition" "sum.txt" /\
    stdin w' = [].
Proof.
  apply (program_saves_result
           (mkConsole ["a.txt"; "b.txt"; "a"; "sum.txt"] [] demo_disk empty_heap
              demo_system)
           "a.txt" "b.txt" "a" "sum.txt" [] "addition" Addition 0%nat 1%nat
           (ext empty_heap loaded_a) (ext (ext empty_heap loaded_a) loaded_b)
           loaded_a loaded_b
           (fst (demo_system demo_disk "sum.txt"
                   (text_of (result_value Addition loaded_a loaded_b)))));
    reflexivity.
Defined.

(** The text that the program of the witness writes. *)
Example program_sum_text :
  match do_some_calculations
          (mkConsole ["a.txt"; "b.txt"; "a"; "sum.txt"] [] demo_disk empty_heap
             demo_system) with
  | Some w' =>
      disk w' "sum.txt"
      = Some ("rows=2" +:+ nl +:+ "cols=2" +:+ nl +:+ "(0, 0, 3)" +:+ nl
              +:+ "(1, 0, 4)" +:+ nl +:+ "(1, 1, 3)")
  | None => False
  end.
Proof. vm_compute. reflexivity. Qed.

Ltac reported :=
  eexists; split; [reflexivity|]; left; eexists _, _;
  unfold emit; cbn [stdin stdout disk memory system]; split;
  [rewrite <- ?app_assoc; reflexivity | split; reflexivity].

(** X19: no exception leaves the program, whatever the input, the texts of
    the files and the answer of the operating system to a write are (a path
    that is read holds a text or does not exist).  A run ends with the
    report of an error before any write, the files as they were; or it has
    handed one text to the operating system, the files are those that this
    write left, and the run ends with the report of the saved result when
    the write succeeded and with the report of its error when it failed. *)
Theorem program_always_reports (w : console) :
  exists w',
    do_some_calculations w = Some w' /\
    ((exists evs e, stdout w' = stdout w ++ evs /\
                    last evs = Some (PrintedError e) /\ disk w' = disk w) \/
     (exists name out text,
        disk w' = fst (system w (disk w) out text) /\
        stdout w' = stdout w ++
                    match snd (system w (disk w) out text) with
                    | None => transcript name out
                    | Some e => computing name ++ [PrintedError (System e)]
                    end)).
Proof.
  destruct w as [i o d m s].
  unfold do_some_calculations, calculations, io_bind at 1, input at 1.
  cbn [stdin stdout disk memory system].
  destruct i as [|p1 i]; [reported|].
  unfold io_bind at 1.
  destruct (load_file_cases i (o ++ [Asked "Enter the file path for the first matrix: "])
              d m s p1) as [(P & HP & ->) | (e & h1 & _ & ->)]; [|reported].
  unfold io_bind at 1, print at 1, emit at 1. cbn [stdin stdout disk memory system].
  unfold io_bind at 1, input at 1. cbn [stdin stdout disk memory system].
  destruct i as [|p2 i]; [reported|].
  unfold io_bind at 1.
  match goal with |- context [load_file p2 (mkConsole i ?o' d (ext m P) s)] =>
    destruct (load_file_cases i o' d (ext m P) s p2)
      as [(Q & HQ & ->) | (e & h1 & _ & ->)]; [|reported]
  end.
  unfold io_bind at 1, print at 1, emit at 1. cbn [stdin stdout disk memory system].
  unfold io_bind at 1, input at 1. cbn [stdin stdout disk memory system].
  destruct i as [|choice i]; [reported|].
  destruct (matrix_operations choice) as [[name op]|]; [|reported].
  destruct (loaded_views m P Q) as [Va Vb].
  unfold io_bind at 1.
  rewrite (call_method op _ _ _ _ _ _ _ P Q Va Vb HP HQ).
  destruct (compatible op P Q); [|reported].
  unfold io_bind at 1, print at 1, emit at 1. cbn [stdin stdout disk memory system].
  unfold io_bind at 1, input at 1. cbn [stdin stdout disk memory system].
  destruct i as [|out i]; [reported|].
  unfold io_bind at 1.
  rewrite (save_to_file_run _ _ _ _ _ _ (result_value op P Q));
    [|apply view_ext_new | now apply result_value_wf].
  destruct (s d out (text_of (result_value op P Q))) as [fs [e|]] eqn:Hs;
    cbn [fst snd]; (eexists; split; [reflexivity|]); right;
    exists name, out, (text_of (result_value op P Q));
    rewrite Hs; unfold emit, print, transcript, computing, loading;
    cbn [stdin stdout disk memory system fst snd];
    (split; [reflexivity|]); now rewrite <- !app_assoc.
Qed.

(** X20: an answer other than ['a'], ['b'] and ['c'] is found out only after
    both files have been loaded: the program then reports
    ["Invalid operation choice."], does not ask for the output path and
    writes no file. *)
Theorem program_invalid_choice (w : console) (p1 p2 choice : string)
    (rest : list string) (a b : ref) (h1 h2 : heap) :
  stdin w = p1 :: p2 :: choice :: rest ->
  from_file (disk w) p1 (memory w) = Done a h1 ->
  from_file (disk w) p2 h1 = Done b h2 ->
  matrix_operations choice = None ->
  exists w',
    do_some_calculations w = Some w' /\
    stdout w' = stdout w ++ loading
                ++ [PrintedError (Exn (ValueError (Msg "Invalid operation choice.")))] /\
    stdin w' = rest /\ disk w' = disk w.
Proof.
  destruct w as [i o d m s]. cbn [stdin stdout disk memory system].
  intros -> E1 E2 Hop.
  destruct (load_file_Done (p2 :: choice :: rest) (o ++ [Asked
    "Enter the file path for the first matrix: "]) d m s p1 a h1 E1)
    as (P & HP & -> & -> & L1).
  destruct (load_file_Done (choice :: rest) ((o ++ [Asked
    "Enter the file path for the first matrix: "]) ++
    [Printed ("First matrix loaded........" +:+ nl)] ++ [Asked
    "Enter the file path for the second matrix: "]) d (ext m P) s p2 b h2 E2)
    as (Q & HQ & -> & -> & L2).
  eexists. split.
  - apply calculations_Failed. unfold calculations.
    eapply io_bind_Returned; [reflexivity|].
    eapply io_bind_Returned; [exact L1|].
    eapply io_bind_Returned; [reflexivity|].
    eapply io_bind_Returned; [reflexivity|].
    eapply io_bind_Returned; [cbn [emit stdin stdout disk memory system];
                              rewrite <- app_assoc; exact L2|].
    eapply io_bind_Returned; [reflexivity|].
    eapply io_bind_Returned; [reflexivity|].
    rewrite Hop. reflexivity.
  - unfold emit, loading. cbn [stdin stdout disk memory system].
    split; [|split; reflexivity]. now rewrite <- !app_assoc.
Qed.

Lemma program_invalid_choice_witness :
  exists w',
    do_some_calculations
      (mkConsole ["a.txt"; "b.txt"; "A"; "sum.txt"] [] demo_disk empty_heap demo_system)
    = Some w' /\
    stdout w' = [] ++ loading
                ++ [PrintedError (Exn (ValueError (Msg "Invalid operation choice.")))] /\
    stdin w' = ["sum.txt"] /\ disk w' = demo_disk.
Proof.
  apply (program_invalid_choice
           (mkConsole ["a.txt"; "b.txt"; "A"; "sum.txt"] [] demo_disk empty_heap
              demo_system)
           "a.txt" "b.txt" "A" ["sum.txt"] 0%nat 1%nat
           (ext empty_heap loaded_a) (ext (ext empty_heap loaded_a) loaded_b));
    reflexivity.
Defined.

(** X21: when the dimensions of the loaded matrices do not fit the chosen
    operation, the program reports the error of the operation, does not ask
    for the output path and writes no file. *)
Theorem program_dimension_mismatch (w : console) (p1 p2 choice : string)
    (rest : list string) (name : string) (op : operation)
    (a b : ref) (h1 h2 : heap) (A B : matrix) :
  stdin w = p1 :: p2 :: choice :: rest ->
  from_file (disk w) p1 (memory w) = Done a h1 ->
  from_file (disk w) p2 h1 = Done b h2 ->
  view h2 a = Some A -> view h2 b = Some B ->
  matrix_operations choice = Some (name, op) ->
  compatible op A B = false ->
  exists w',
    do_some_calculations w = Some w' /\
    stdout w' = stdout w ++ loading ++ [PrintedError (Exn (mismatch op))] /\
    stdin w' = rest /\ disk w' = disk w.
Proof.
  destruct w as [i o d m s]. cbn [stdin stdout disk memory system].
  intros -> E1 E2 Ha Hb Hop Hc.
  destruct (load_file_Done (p2 :: choice :: rest) (o ++ [Asked
    "Enter the file path for the first matrix: "]) d m s p1 a h1 E1)
    as (P & HP & -> & -> & L1).
  destruct (load_file_Done (choice :: rest) ((o ++ [Asked
    "Enter the file path for the first matrix: "]) ++
    [Printed ("First matrix loaded........" +:+ nl)] ++ [Asked
    "Enter the file path for the second matrix: "]) d (ext m P) s p2 b h2 E2)
    as (Q & HQ & -> & -> & L2).
  destruct (loaded_views m P Q) as [Va Vb].
  assert (A = P) by congruence. assert (B = Q) by congruence. subst A B.
  eexists. split.
  - apply calculations_Failed. unfold calculations.
    eapply io_bind_Returned; [reflexivity|].
    eapply io_bind_Returned; [exact L1|].
    eapply io_bind_Returned; [reflexivity|].
    eapply io_bind_Returned; [reflexivity|].
    eapply io_bind_Returned; [cbn [emit stdin stdout disk memory system];
                              rewrite <- app_assoc; exact L2|].
    eapply io_bind_Returned; [reflexivity|].
    eapply io_bind_Returned; [reflexivity|].
    rewrite Hop.
    eapply io_bind_Failed.
    rewrite (call_method op _ _ _ _ _ _ _ P Q), Hc by assumption. reflexivity.
  - unfold emit, loading. cbn [stdin stdout disk memory system].
    split; [|split; reflexivity]. now rewrite <- !app_assoc.
Qed.

Lemma program_dimension_mismatch_witness :
  exists w',
    do_some_calculations
      (mkConsole ["a.txt"; "c.txt"; "b"; "out.txt"] [] demo_disk empty_heap demo_system)
    = Some w' /\
    stdout w' = [] ++ loading ++ [PrintedError (Exn (mismatch Subtraction))] /\
    stdin w' = ["out.txt"] /\ disk w' = demo_disk.
Proof.
  apply (program_dimension_mismatch
           (mkConsole ["a.txt"; "c.txt"; "b"; "out.txt"] [] demo_disk empty_heap
              demo_system)
           "a.txt" "c.txt" "b" ["out.txt"] "subtraction" Subtraction 0%nat 1%nat
           (ext empty_heap loaded_a) (ext (ext empty_heap loaded_a) loaded_c)
           loaded_a loaded_c); reflexivity.
Defined.

(** X22: an error of [from_file] on the first file is reported as it was
    raised, and the program stops there: the second question is not asked
    and no file is written. *)
Theorem program_first_file_error (w : console) (p1 : string) (rest : list string)
    (e : exn) (h1 : heap) :
  stdin w = p1 :: rest ->
  from_file (disk w) p1 (memory w) = Raised e h1 ->
  exists w',
    do_some_calculations w = Some w' /\
    stdout w' = stdout w ++ [Asked "Enter the file path for the first matrix: ";
                             PrintedError (Exn e)] /\
    stdin w' = rest /\ disk w' = disk w.
Proof.
  destruct w as [i o d m s]. cbn [stdin stdout disk memory system].
  intros -> E1. eexists. split.
  - apply calculations_Failed. unfold calculations.
    eapply io_bind_Returned; [reflexivity|].
    eapply io_bind_Failed. unfold load_file, call.
    cbn [stdin stdout disk memory system]. rewrite E1. reflexivity.
  - unfold emit. cbn [stdin stdout disk memory system]. split; [|split; reflexivity].
    now rewrite <- app_assoc.
Qed.

Lemma program_first_file_error_witness :
  exists w',
    do_some_calculations
      (mkConsole ["none.txt"; "b.txt"] [] demo_disk empty_heap demo_system)
    = Some w' /\
    stdout w' = [] ++ [Asked "Enter the file path for the first matrix: ";
                       PrintedError (Exn (FileNotFoundError
                                            (Msg "File not found: none.txt")))] /\
    stdin w' = ["b.txt"] /\ disk w' = demo_disk.
Proof.
  apply (program_first_file_error
           (mkConsole ["none.txt"; "b.txt"] [] demo_disk empty_heap demo_system)
           "none.txt" ["b.txt"] (FileNotFoundError (Msg "File not found: none.txt"))
           empty_heap); reflexivity.
Defined.

(** X23: when the operating system raises an exception on the write of the
    result (an empty path, a missing directory), the program reports that
    exception after the question for the output path and does not report a
    saved result; the files are those that the failed write left. *)
Theorem program_save_error (w : console) (p1 p2 choice out : string)
    (rest : list string) (name : string) (op : operation)
    (a b : ref) (h1 h2 : heap) (A B : matrix) (fs' : files) (e : OSError) :
  stdin w = p1 :: p2 :: choice :: out :: rest ->
  from_file (disk w) p1 (memory w) = Done a h1 ->
  from_file (disk w) p2 h1 = Done b h2 ->
  view h2 a = Some A -> view h2 b = Some B ->
  matrix_operations choice = Some (name, op) ->
  compatible op A B = true ->
  system w (disk w) out (text_of (result_value op A B)) = (fs', Some e) ->
  exists w',
    do_some_calculations w = Some w' /\
    disk w' = fs' /\
    stdout w' = stdout w ++ computing name ++ [PrintedError (System e)] /\
    stdin w' = rest.
Proof.
  destruct w as [i o d m s]. cbn [stdin stdout disk memory system].
  intros -> E1 E2 Ha Hb Hop Hc Hs.
  destruct (calculations_computed o d m s p1 p2 choice (out :: rest) name op a b h1 h2
              A B E1 E2 Ha Hb Hop Hc) as [HR Run].
  eexists. split.
  - apply calculations_Failed. rewrite Run.
    eapply io_bind_Returned; [reflexivity|].
    eapply io_bind_Failed.
    rewrite (save_to_file_run _ _ _ _ _ _ (result_value op A B));
      [cbn [stdin stdout disk memory system]; rewrite Hs; reflexivity
      | apply view_ext_new | exact HR].
  - unfold emit, computing. cbn [stdin stdout disk memory system fst snd].
    split; [reflexivity|]. split; [|reflexivity]. now rewrite <- !app_assoc.
Qed.

Lemma program_save_error_witness :
  exists w',
    do_some_calculations
      (mkConsole ["a.txt"; "b.txt"; "a"; "nodir/out.txt"] [] demo_disk empty_heap
         demo_system)
    = Some w' /\
    disk w' = demo_disk /\
    stdout w' = [] ++ computing "addition"
                ++ [PrintedError (System (mkOSError "FileNotFoundError"
                                            "No such file or directory"))] /\
    stdin w' = [].
Proof.
  apply (program_save_error
           (mkConsole ["a.txt"; "b.txt"; "a"; "nodir/out.txt"] [] demo_disk empty_heap
              demo_system)
           "a.txt" "b.txt" "a" "nodir/out.txt" [] "addition" Addition 0%nat 1%nat
           (ext empty_heap loaded_a) (ext (ext empty_heap loaded_a) loaded_b)
           loaded_a loaded_b demo_disk
           (mkOSError "FileNotFoundError" "No such file or directory"));
    reflexivity.
Defined.
